(** * mrc-level2-nlp-01: feature labelling, sparse retrieval, configuration

    A shallow embedding of the repository's Python sources:
    - [src/magic_box/preprocess.py]          (module [Preprocess])
    - [src/retrieval/bm25_retrieval_base.py] (module [Retrieval])
    - [src/arguments.py]                     (module [Args])
    - [main.py]                              (module [EntryPoint])
    followed by the vocabulary of the statements ([PreprocessSpec],
    [LabelSpec], [RetrievalSpec]) and by the properties of each part
    ([PyFacts]; [PreprocessFacts], [ValidationFacts], [LabelFacts],
    [PromptFacts], [SpanFacts], [BatchFacts], [LabelErrors];
    [RetrievalFacts], [RankingFacts]; [ArgsFacts]; [EntryPointFacts],
    [ConfigFacts]).

    Python exceptions are the [Err] results of an error monad, Python
    integers are [Z], Python lists are [list] indexed the Python way
    (negative indices count from the end), and [str] values are UTF-8
    encoded [string]s whose length is counted in code points. *)

From Stdlib Require Import ZArith List String Ascii Bool Lia Arith.
Import ListNotations.

Local Open Scope Z_scope.

(* ================================================================== *)
(** * Python runtime: exceptions, sequences, strings, loops            *)
(* ================================================================== *)

Module Py.

(** The exceptions the embedded code can raise. [MissingMandatoryValue]
    is the configuration loader's, the others are built in. [LoopBound] is
    not a Python exception: it is what a [while] of the model answers when
    its iteration budget is used up; [scan_up_total] and [scan_down_total]
    show that the budgets used below are never used up. *)
Inductive exn : Type :=
| IndexError
| ValueError
| TypeError
| AssertionError
| AttributeError
| ZeroDivisionError
| MissingMandatoryValue
| LoopBound.

Inductive result (A : Type) : Type :=
| Ok (a : A)
| Err (e : exn).

Arguments Ok {A} a.
Arguments Err {A} e.

Definition bind {A B} (m : result A) (k : A -> result B) : result B :=
  match m with
  | Ok a => k a
  | Err e => Err e
  end.

Notation "x <- m ;; k" := (bind m (fun x => k))
  (at level 61, m at next level, right associativity).

(** [len(l)] *)
Definition len {A} (l : list A) : Z := Z.of_nat (List.length l).

(** [l[i]] for a Python list: indices [0 .. len-1] count from the front,
    [-len .. -1] from the back, anything else raises [IndexError]. *)
Definition getitem {A} (l : list A) (i : Z) : result A :=
  let j := if i <? 0 then i + len l else i in
  if (0 <=? j) && (j <? len l) then
    match nth_error l (Z.to_nat j) with
    | Some a => Ok a
    | None => Err IndexError
    end
  else Err IndexError.

(** [l.index(x)] on a list of integers: position of the first occurrence,
    [ValueError] when there is none. *)
Fixpoint index_from (l : list Z) (x : Z) (i : Z) : result Z :=
  match l with
  | [] => Err ValueError
  | y :: l' => if y =? x then Ok i else index_from l' x (i + 1)
  end.

Definition index (l : list Z) (x : Z) : result Z := index_from l x 0.

(** [while cond(s): s = body(s)], with an iteration budget. *)
Fixpoint while {S} (fuel : nat) (cond : S -> result bool) (body : S -> S)
  (s : S) : result S :=
  match fuel with
  | O => Err LoopBound
  | Datatypes.S fuel' =>
      match cond s with
      | Err e => Err e
      | Ok false => Ok s
      | Ok true => while fuel' cond body (body s)
      end
  end.

(** Every index scan of the sources moves one position per iteration and
    either stops or raises once it has left the list, so twice the length
    of the list (plus slack) bounds its iterations. *)
Definition scan_fuel {A} (l : list A) : nat := 2 * List.length l + 2.

(** ** Strings *)

Definition is_continuation (a : ascii) : bool :=
  let n := nat_of_ascii a in (128 <=? n)%nat && (n <? 192)%nat.

Definition starts_with_continuation (s : string) : bool :=
  match s with
  | EmptyString => false
  | String a _ => is_continuation a
  end.

(** The code points of a UTF-8 string, each as the string of its bytes. *)
Fixpoint chars (s : string) : list string :=
  match s with
  | EmptyString => []
  | String a rest =>
      if starts_with_continuation rest then
        match chars rest with
        | c :: cs => String a c :: cs
        | [] => [String a EmptyString]
        end
      else String a EmptyString :: chars rest
  end.

(** [len(s)] for a [str]. *)
Definition str_len (s : string) : Z := len (chars s).

(** [s[a:b]] for a [str]: both bounds are clamped into [0 .. len]. *)
Definition clamp (n i : Z) : Z :=
  if i <? 0 then Z.max 0 (i + n) else Z.min i n.

Definition slice {A} (l : list A) (a b : Z) : list A :=
  let a' := clamp (len l) a in
  let b' := clamp (len l) b in
  firstn (Z.to_nat (b' - a')) (skipn (Z.to_nat a') l).

Definition str_slice (s : string) (a b : Z) : string :=
  String.concat EmptyString (slice (chars s) a b).

(** Python's [str.isspace], character by character. The white space of
    one byte is U+0009..U+000D, U+001C..U+001F and U+0020. *)
Definition is_space (a : ascii) : bool :=
  let n := nat_of_ascii a in
  ((9 <=? n) && (n <=? 13) || (28 <=? n) && (n <=? 32))%nat.

(** The white space of two bytes: U+0085 and U+00A0. *)
Definition is_space2 (a b : ascii) : bool :=
  let m := nat_of_ascii a in
  let n := nat_of_ascii b in
  ((m =? 194) && ((n =? 133) || (n =? 160)))%nat.

(** The white space of three bytes: U+1680, U+2000..U+200A, U+2028,
    U+2029, U+202F, U+205F and U+3000. *)
Definition is_space3 (a b c : ascii) : bool :=
  let x := nat_of_ascii a in
  let y := nat_of_ascii b in
  let z := nat_of_ascii c in
  ((x =? 225) && (y =? 154) && (z =? 128)
   || (x =? 226) && (y =? 128)
      && ((128 <=? z) && (z <=? 138) || (z =? 168) || (z =? 169) || (z =? 175))
   || (x =? 226) && (y =? 129) && (z =? 159)
   || (x =? 227) && (y =? 128) && (z =? 128))%nat.

(** [s.lstrip()]: the white space characters at the front are dropped,
    whatever their length in bytes. *)
Fixpoint lstrip (s : string) : string :=
  match s with
  | EmptyString => EmptyString
  | String a rest =>
      if is_space a then lstrip rest
      else
        match rest with
        | EmptyString => s
        | String b rest2 =>
            if is_space2 a b then lstrip rest2
            else
              match rest2 with
              | EmptyString => s
              | String c rest3 => if is_space3 a b c then lstrip rest3 else s
              end
        end
  end.

(** [sep.join(l)] *)
Definition join (sep : string) (l : list string) : string :=
  String.concat sep l.

(** The line feed. *)
Definition nl : string := String (ascii_of_nat 10) EmptyString.

End Py.

Import Py.

(* ================================================================== *)
(** * src/magic_box/preprocess.py                                      *)
(* ================================================================== *)

Module Preprocess.

(** The [answers] entry of an example: two parallel lists. *)
Record answers : Type := mkAnswers {
  text : list string;
  answer_start : list Z
}.

(** A batch of examples, column-wise as the [datasets] library hands it
    to the mapped function. *)
Record examples : Type := mkExamples {
  ex_question : list string;
  ex_context : list string;
  ex_answers : list answers
}.

(** What the tokenizer returns for a batch ([BatchEncoding]): one entry
    per feature. [sequence_ids] marks each token with the number of the
    sequence it belongs to, [None] for special and padding tokens. *)
Record batch_encoding : Type := mkEncoding {
  input_ids : list (list Z);
  sequence_ids : list (list (option Z));
  offset_mapping : list (list (Z * Z));
  overflow_to_sample_mapping : list Z
}.

(** An entry of the offset mapping: [(start, end)] in characters. *)
Abbreviation offset := (Z * Z)%type.

(** [1 if pad_on_right else 0] *)
Definition context_marker (pad_on_right : bool) : option Z :=
  Some (if pad_on_right then 1 else 0).

Definition option_Z_eqb (a b : option Z) : bool :=
  match a, b with
  | Some x, Some y => x =? y
  | None, None => true
  | _, _ => false
  end.

(** Lines 56-58:
    [while sequence_ids[token_start_index] != ctx: token_start_index += 1] *)
Definition first_context_token (sids : list (option Z)) (ctx : option Z)
  (token_start_index : Z) : result Z :=
  while (scan_fuel sids)
    (fun i => s <- getitem sids i ;; Ok (negb (option_Z_eqb s ctx)))
    Z.succ token_start_index.

(** Lines 61-63:
    [while sequence_ids[token_end_index] != ctx: token_end_index -= 1] *)
Definition last_context_token (sids : list (option Z)) (ctx : option Z)
  (token_end_index : Z) : result Z :=
  while (scan_fuel sids)
    (fun i => s <- getitem sids i ;; Ok (negb (option_Z_eqb s ctx)))
    Z.pred token_end_index.

(** Lines 66-69 (and 220-223): the test
    [offsets[ts][0] <= start_char and offsets[te][1] >= end_char];
    [and] evaluates its right operand only when the left one holds. *)
Definition answer_in_span (offsets : list offset) (ts te start_char end_char : Z)
  : result bool :=
  o1 <- getitem offsets ts ;;
  if fst o1 <=? start_char then
    o2 <- getitem offsets te ;;
    Ok (snd o2 >=? end_char)
  else Ok false.

(** Lines 75-79 (and 229-233):
    [while ts < len(offsets) and offsets[ts][0] <= start_char: ts += 1] *)
Definition advance_start (offsets : list offset) (start_char ts : Z) : result Z :=
  while (scan_fuel offsets)
    (fun i =>
       if i <? len offsets then
         o <- getitem offsets i ;; Ok (fst o <=? start_char)
       else Ok false)
    Z.succ ts.

(** Lines 81-82 (and 235-236):
    [while offsets[te][1] >= end_char: te -= 1] *)
Definition retreat_end (offsets : list offset) (end_char te : Z) : result Z :=
  while (scan_fuel offsets)
    (fun i => o <- getitem offsets i ;; Ok (snd o >=? end_char))
    Z.pred te.

(** The body of the [for] loop of [prepare_train_features] (lines 36-83)
    for one feature: the pair appended to [start_positions] and
    [end_positions]. *)
Definition label_feature (cls_token_id : Z) (pad_on_right : bool)
  (ids : list Z) (sids : list (option Z)) (offsets : list offset)
  (ans : answers) : result (Z * Z) :=
  cls_index <- index ids cls_token_id ;;
  if len (answer_start ans) =? 0 then Ok (cls_index, cls_index)
  else
    start_char <- getitem (answer_start ans) 0 ;;
    txt <- getitem (text ans) 0 ;;
    let end_char := start_char + str_len txt in
    token_start_index <- first_context_token sids (context_marker pad_on_right) 0 ;;
    token_end_index <-
      last_context_token sids (context_marker pad_on_right) (len ids - 1) ;;
    inside <- answer_in_span offsets token_start_index token_end_index
                start_char end_char ;;
    if negb inside then Ok (cls_index, cls_index)
    else
      token_start_index <- advance_start offsets start_char token_start_index ;;
      token_end_index <- retreat_end offsets end_char token_end_index ;;
      Ok (token_start_index - 1, token_end_index + 1).

(** [for i, x in enumerate(l)] collecting the results of the body. *)
Fixpoint for_enumerate {A B} (body : Z -> A -> result B) (i : Z) (l : list A)
  : result (list B) :=
  match l with
  | [] => Ok []
  | x :: l' =>
      b <- body i x ;;
      bs <- for_enumerate body (i + 1) l' ;;
      Ok (b :: bs)
  end.

(** The labelling loop of [prepare_train_features] (lines 26-85) on the
    tokenizer's output: the lists [start_positions] and [end_positions]. *)
Definition label_features (cls_token_id : Z) (pad_on_right : bool)
  (ex : examples) (enc : batch_encoding) : result (list Z * list Z) :=
  labels <-
    for_enumerate
      (fun i offsets =>
         ids <- getitem (input_ids enc) i ;;
         sids <- getitem (sequence_ids enc) i ;;
         sample_index <- getitem (overflow_to_sample_mapping enc) i ;;
         ans <- getitem (ex_answers ex) sample_index ;;
         label_feature cls_token_id pad_on_right ids sids offsets ans)
      0 (offset_mapping enc) ;;
  Ok (map fst labels, map snd labels).

(** ** Sequence-to-sequence variant *)

(** [f"질문: {q}  지문:"] *)
Definition extra_input (q : string) : string :=
  ("질문: " ++ q ++ "  지문:")%string.

(** [f"질문: {q}  지문: {c}"] *)
Definition prompt_input (q c : string) : string :=
  ("질문: " ++ q ++ "  지문: " ++ c)%string.

(** Lines 212-217: walk back over trailing padding and end-of-sequence
    tokens. *)
Definition last_text_token (ids : list Z) (pad_token_id eos_token_id te : Z)
  : result Z :=
  while (scan_fuel ids)
    (fun i =>
       t <- getitem ids i ;;
       Ok ((t =? pad_token_id) || (t =? eos_token_id)))
    Z.pred te.

(** The body of the [for] loop of the T5 [prepare_train_features]
    (lines 184-237) for one feature. [extra_ids] is the tokenized prefix
    [tokenized_extras["input_ids"][i]] and [extra] the prefix string
    [extra_inputs[i]]. *)
Definition label_feature_T5 (eos_token_id pad_token_id : Z)
  (ids extra_ids : list Z) (extra : string) (offsets : list offset)
  (ans : answers) : result (Z * Z) :=
  let additional_token_length := len (slice extra_ids 0 (-1)) in
  let additional_text_length := str_len extra in
  let cls_index := eos_token_id in
  if len (answer_start ans) =? 0 then Ok (cls_index, cls_index)
  else
    a0 <- getitem (answer_start ans) 0 ;;
    let start_char := a0 + additional_text_length in
    txt <- getitem (text ans) 0 ;;
    let end_char := start_char + str_len txt + 1 in
    let token_start_index := 0 + additional_token_length in
    token_end_index <-
      last_text_token ids pad_token_id eos_token_id (len ids - 1) ;;
    inside <- answer_in_span offsets token_start_index token_end_index
                start_char end_char ;;
    if negb inside then Ok (cls_index, cls_index)
    else
      token_start_index <- advance_start offsets start_char token_start_index ;;
      token_end_index <- retreat_end offsets end_char token_end_index ;;
      Ok (token_start_index - 1, token_end_index + 1).

(** The labelling loop of the T5 [prepare_train_features] (lines 146-239)
    on the two tokenizer outputs: [tokenized_extras] for the prefixes
    [extra_input q], [tokenized_examples] for the prompts
    [prompt_input q c]. *)
Definition label_features_T5 (eos_token_id pad_token_id : Z)
  (ex : examples) (tokenized_extras tokenized_examples : batch_encoding)
  : result (list Z * list Z) :=
  let questions := map lstrip (ex_question ex) in
  let extra_inputs := map extra_input questions in
  labels <-
    for_enumerate
      (fun i offsets =>
         ids <- getitem (input_ids tokenized_examples) i ;;
         extra_ids <- getitem (input_ids tokenized_extras) i ;;
         extra <- getitem extra_inputs i ;;
         ans <- getitem (ex_answers ex) i ;;
         label_feature_T5 eos_token_id pad_token_id ids extra_ids extra
           offsets ans)
      0 (offset_mapping tokenized_examples) ;;
  Ok (map fst labels, map snd labels).

(** Decoding a pair of labels through the offset mapping:
    [context[offsets[s][0] : offsets[e][1]]]. *)
Definition decode_span (context : string) (offsets : list offset) (s e : Z)
  : result string :=
  o1 <- getitem offsets s ;;
  o2 <- getitem offsets e ;;
  Ok (str_slice context (fst o1) (snd o2)).

End Preprocess.

Module PreprocessExamples.
Import Preprocess.

(** "[CLS] what color ? [SEP] the quick brown fox [SEP] [PAD] [PAD]" *)
Definition fox_ids : list Z := [101; 11; 12; 13; 102; 21; 22; 23; 24; 102; 0; 0].
Definition fox_sids : list (option Z) :=
  [None; Some 0; Some 0; Some 0; None; Some 1; Some 1; Some 1; Some 1; None; None; None].
Definition fox_offsets : list offset :=
  [(0,0); (0,4); (5,10); (10,11); (0,0); (0,3); (4,9); (10,15); (16,19); (0,0); (0,0); (0,0)].
Definition fox_context : string := "The quick brown fox".

(** The prompt "질문: Q  지문: the fox ran" and its prefix, tokenized by a
    sentence-piece tokenizer with end-of-sequence id 1 and padding id 0. *)
Definition ran_ids : list Z := [20; 21; 22; 23; 21; 30; 31; 32; 1; 0].
Definition ran_extra_ids : list Z := [20; 21; 22; 23; 21; 1].
Definition ran_offsets : list offset :=
  [(0,2); (2,3); (3,5); (5,9); (9,10); (10,14); (14,18); (18,22); (0,0); (0,0)].

(** A feature padded to 512 tokens by a tokenizer whose end-of-sequence
    id is 50256 and whose padding id is 0. *)
Definition long_ids : list Z := [20; 21; 22; 23; 21; 30; 50256] ++ repeat 0 505.
Definition long_extra_ids : list Z := [20; 21; 22; 23; 21; 50256].
Definition long_offsets : list offset :=
  [(0,2); (2,3); (3,5); (5,9); (9,10); (10,14); (0,0)] ++ repeat (0,0) 505.

(** The ideographic space U+3000 and the no-break space U+00A0, in
    UTF-8, and a question that starts with them. *)
Definition ideographic_space : string :=
  String (ascii_of_nat 227) (String (ascii_of_nat 128)
    (String (ascii_of_nat 128) EmptyString)).
Definition no_break_space : string :=
  String (ascii_of_nat 194) (String (ascii_of_nat 160) EmptyString).
Definition wide_question : string :=
  (ideographic_space ++ no_break_space ++ " Q")%string.

(** A feature that starts with its context and ends with a token of the
    other sequence. *)
Definition bare_ids : list Z := [21; 101; 11].
Definition bare_sids : list (option Z) := [Some 0; None; Some 1].
Definition bare_offsets : list offset := [(0,5); (0,0); (0,9)].

End PreprocessExamples.

(* ================================================================== *)
(** * src/retrieval/bm25_retrieval_base.py                             *)
(* ================================================================== *)

Module Retrieval.

(** Relevance scores are floating-point numbers in the source. Only their
    order matters below, so they are integers here (a fixed-point reading
    of the score). *)
Definition score := Z.

(** Values whose Python type the code does not fix: what
    [get_relevant_doc] hands back as "indices". *)
Inductive value : Type :=
| VInt (z : Z)
| VStr (s : string).

(** What the engine prints and asks of the ranking library. *)
Inductive event : Type :=
| Print (line : string)
| PrintHit (rank : Z) (sc : score)
| GetScores (query : string).

(** Computations that print and may raise. *)
Definition M (A : Type) : Type := list event -> list event * result A.

Definition ret {A} (a : A) : M A := fun log => (log, Ok a).
Definition raise {A} (e : exn) : M A := fun log => (log, Err e).
Definition emit (ev : event) : M unit := fun log => (log ++ [ev], Ok tt).
Definition lift {A} (r : result A) : M A := fun log => (log, r).
Definition mbind {A B} (m : M A) (k : A -> M B) : M B :=
  fun log =>
    match m log with
    | (log', Ok a) => k a log'
    | (log', Err e) => (log', Err e)
    end.

Notation "x <~ m ;; k" := (mbind m (fun x => k))
  (at level 61, m at next level, right associativity).
Notation "m ;;; k" := (mbind m (fun _ => k))
  (at level 61, right associativity).

(** [for x in l: body(x)], collecting what the body yields. *)
Fixpoint for_each {A B} (l : list A) (body : A -> M B) : M (list B) :=
  match l with
  | [] => ret []
  | x :: l' =>
      b <~ body x ;;
      bs <~ for_each l' body ;;
      ret (b :: bs)
  end.

(** [range(n)] *)
Definition range (n : Z) : list Z := map Z.of_nat (seq 0 (Z.to_nat n)).

(** ** The ranking library (rank_bm25, numpy) *)

(** [numpy.argsort]: the indices that sort the array in ascending order.
    numpy leaves the order of equal keys to its sorting routine; the model
    keeps them in index order, which is one of the orders numpy may give.
    The general statements about rankings ([RankingFacts]) therefore say
    what a ranking is by its properties, and their proofs use only that
    the result is a permutation of the indices and sorts the array
    ([argsort_perm], [argsort_sorted], [top_is_best]). *)
Fixpoint insert_by (key : Z -> score) (i : Z) (l : list Z) : list Z :=
  match l with
  | [] => [i]
  | j :: l' => if key i <=? key j then i :: l else j :: insert_by key i l'
  end.

Definition argsort (a : list score) : list Z :=
  fold_right (insert_by (fun i => nth (Z.to_nat i) a 0)) [] (range (len a)).

(** [a[idx]] for an index array [idx]. *)
Fixpoint take_indices {A} (a : list A) (idx : list Z) : result (list A) :=
  match idx with
  | [] => Ok []
  | i :: idx' =>
      x <- getitem a i ;;
      xs <- take_indices a idx' ;;
      Ok (x :: xs)
  end.

Section Engine.

(** The injected tokenizer and the BM25 Okapi scoring formula of the
    ranking library: [okapi corpus query] is the array of the scores of
    every passage of the tokenized corpus. *)
Variable token : Type.
Variable tokenize_fn : string -> list token.
Variable okapi : list (list token) -> list token -> list score.

(** A [BM25Okapi] object: all its statistics derive from the tokenized
    corpus it was built from. *)
Record BM25Okapi : Type := mkBM25 {
  corpus : list (list token)
}.

(** rank_bm25's constructor [BM25Okapi(tokenized_corpus)]. The average
    document length it computes divides by the number of documents, and
    the average inverse document frequency by the number of distinct
    tokens: a corpus without documents, or whose documents have no token
    at all, raises [ZeroDivisionError]. *)
Definition no_token (document : list token) : bool :=
  match document with
  | [] => true
  | _ :: _ => false
  end.

Definition new_BM25Okapi (tokenized_corpus : list (list token))
  : result BM25Okapi :=
  if forallb no_token tokenized_corpus then Err ZeroDivisionError
  else Ok (mkBM25 tokenized_corpus).

Definition get_scores (bm25 : BM25Okapi) (query : list token) : list score :=
  okapi (corpus bm25) query.

(** rank_bm25's [get_top_n]: asserts that the documents match the indexed
    corpus, then [argsort(scores)[::-1][:n]] picks the documents. *)
Definition get_top_n (bm25 : BM25Okapi) (query : list token)
  (documents : list string) (n : Z) : result (list string) :=
  if negb (len (corpus bm25) =? len documents) then Err AssertionError
  else
    let scores := get_scores bm25 query in
    let top_n := slice (rev (argsort scores)) 0 n in
    take_indices documents top_n.

(** One value of the corpus JSON object. *)
Record document : Type := mkDocument {
  doc_text : string
}.

(** A Python [dict] keeps its keys in insertion order; assigning to a key
    that is present keeps the key's place. *)
Fixpoint dict_setitem {V} (d : list (string * V)) (k : string) (v : V)
  : list (string * V) :=
  match d with
  | [] => [(k, v)]
  | (k', v') :: d' =>
      if String.eqb k' k then (k', v) :: d' else (k', v') :: dict_setitem d' k v
  end.

(** [dict.fromkeys(keys)] *)
Definition dict_fromkeys (keys : list string) : list (string * unit) :=
  fold_left (fun d k => dict_setitem d k tt) keys [].

(** The engine object. *)
Record BM25SparseRetrieval : Type := mkEngine {
  data_path : string;
  contexts : list string;
  ids : list Z;
  bm25 : option BM25Okapi
}.

(** [__init__] (lines 24-43), on the loaded JSON object [wiki]. *)
Definition init (data_path : string) (wiki : list (string * document))
  : BM25SparseRetrieval :=
  let contexts := map fst (dict_fromkeys (map (fun kv => doc_text (snd kv)) wiki)) in
  {| data_path := data_path;
     contexts := contexts;
     ids := range (len contexts);
     bm25 := None |}.

(** [get_sparse_embedding] (lines 45-60). [pickled] is the object that
    [pickle.load] returns when the index file exists, and [None] when there
    is no such file. The result is the engine afterwards, with the object
    handed to [pickle.dump] when the index is built. When the constructor
    of line 57 raises, nothing is assigned and nothing is written. *)
Definition get_sparse_embedding (self : BM25SparseRetrieval)
  (pickled : option BM25Okapi)
  : result (BM25SparseRetrieval * option BM25Okapi) :=
  match pickled with
  | Some b =>
      Ok ({| data_path := data_path self; contexts := contexts self;
             ids := ids self; bm25 := Some b |}, None)
  | None =>
      let tokenized_contexts := map tokenize_fn (contexts self) in
      b <- new_BM25Okapi tokenized_contexts ;;
      Ok ({| data_path := data_path self; contexts := contexts self;
             ids := ids self; bm25 := Some b |}, Some b)
  end.

(** [get_relevant_doc] (lines 108-126): the [k] best scores, and the
    texts [get_top_n] returns. *)
Definition get_relevant_doc (self : BM25SparseRetrieval) (b : BM25Okapi)
  (query : string) (k : Z) : M (list score * list value) :=
  let tokenized_query := tokenize_fn query in
  emit (GetScores query) ;;;
  let raw_doc_scores := get_scores b tokenized_query in
  let doc_scores_index_desc := argsort (map Z.opp raw_doc_scores) in
  doc_scores <~ lift (take_indices raw_doc_scores doc_scores_index_desc) ;;
  doc_list <~ lift (get_top_n b tokenized_query (contexts self) k) ;;
  ret (slice doc_scores 0 k, map VStr doc_list).

(** [self.contexts[i]] for a value [i] of any type. *)
Definition contexts_getitem (self : BM25SparseRetrieval) (i : value)
  : result string :=
  match i with
  | VInt z => getitem (contexts self) z
  | VStr _ => Err TypeError
  end.

(** [" ".join(l)] for a list of values of any type. *)
Fixpoint join_values (l : list value) : result (list string) :=
  match l with
  | [] => Ok []
  | VStr s :: l' => ss <- join_values l' ;; Ok (s :: ss)
  | VInt _ :: _ => Err TypeError
  end.

(** A row of the dataset given to the batch form. *)
Record example : Type := mkExample {
  question : string;
  id : string;
  context : option string;
  answers : option Preprocess.answers
}.

(** A row of the returned table. *)
Record retrieved : Type := mkRetrieved {
  r_question : string;
  r_id : string;
  r_context_id : list value;
  r_context : string;
  r_original_context : option string;
  r_answers : option Preprocess.answers
}.

(** What a caller may pass as [query_or_dataset]. *)
Inductive argument : Type :=
| AStr (s : string)
| ADataset (rows : list example)
| AInt (z : Z)
| AList (l : list string)
| ANone.

(** What [retrieve] returns. *)
Inductive returned : Type :=
| RPair (doc_scores : list score) (passages : list string)
| RTable (rows : list retrieved)
| RNone.

(** [retrieve] (lines 62-106). The f-string of a hit is the event
    [PrintHit]; the timer's line is printed without the elapsed time. *)
Definition retrieve (self : BM25SparseRetrieval) (query_or_dataset : argument)
  (topk : Z) : M returned :=
  match bm25 self with
  | None => raise AssertionError
  | Some b =>
      match query_or_dataset with
      | AStr q =>
          r <~ get_relevant_doc self b q topk ;;
          let '(doc_scores, doc_indices) := r in
          emit (Print (join " " [("[Search query]" ++ nl)%string; q; nl])) ;;;
          for_each (range topk) (fun i =>
            sc <~ lift (getitem doc_scores i) ;;
            emit (PrintHit (i + 1) sc) ;;;
            d <~ lift (getitem doc_indices i) ;;
            c <~ lift (contexts_getitem self d) ;;
            emit (Print c)) ;;;
          passages <~ for_each (range topk) (fun i =>
            d <~ lift (getitem doc_indices i) ;;
            lift (contexts_getitem self d)) ;;
          ret (RPair doc_scores passages)
      | ADataset rows =>
          found <~ for_each (map question rows) (fun q =>
            get_relevant_doc self b q topk) ;;
          let doc_indices := map snd found in
          emit (Print "[query exhaustive search] done") ;;;
          total <~ for_each (combine (range (len rows)) rows) (fun ie =>
            let '(idx, ex) := ie in
            context_id <~ lift (getitem doc_indices idx) ;;
            texts <~ lift (join_values context_id) ;;
            ret {| r_question := question ex;
                   r_id := id ex;
                   r_context_id := context_id;
                   r_context := join " " texts;
                   r_original_context :=
                     match context ex, answers ex with
                     | Some c, Some _ => Some c
                     | _, _ => None
                     end;
                   r_answers :=
                     match context ex, answers ex with
                     | Some _, Some a => Some a
                     | _, _ => None
                     end |}) ;;
          ret (RTable total)
      | _ => ret RNone
      end
  end.

End Engine.

Arguments corpus {token} _.
Arguments data_path {token} _.
Arguments contexts {token} _.
Arguments ids {token} _.
Arguments bm25 {token} _.
Arguments contexts_getitem {token} _ _.

End Retrieval.

(* ================================================================== *)
(** * src/arguments.py                                                 *)
(* ================================================================== *)

Module Args.

#[local] Set Warnings "-register-all".

(** The Python objects that occur in the class bodies. [PField] is a
    [dataclasses.Field], as [field(default=..., metadata={"help": ...})]
    returns it. *)
Inductive pyval : Type :=
| PNone
| PBool (b : bool)
| PInt (z : Z)
| PStr (s : string)
| PTuple (items : list pyval)
| PField (default : pyval) (help : string).

Definition field (default : pyval) (help : string) : pyval :=
  PField default help.

(** One annotated attribute of a class body: [name: annotation = value]. *)
Record attribute : Type := mkAttr {
  attr_name : string;
  annotation : string;
  attr_value : pyval
}.

(** [@dataclass]: an attribute whose value is a [Field] takes its default
    from the field; any other value is the default itself. *)
Definition default_of (a : attribute) : pyval :=
  match attr_value a with
  | PField d _ => d
  | v => v
  end.

Fixpoint lookup {V} (k : string) (d : list (string * V)) : option V :=
  match d with
  | [] => None
  | (k', v) :: d' => if String.eqb k' k then Some v else lookup k d'
  end.

(** The generated [__init__]: keyword arguments override defaults; a
    keyword that names no field raises [TypeError]. (Every field of this
    file has a default, so no argument is required.) *)
Definition construct (cls : list attribute) (kwargs : list (string * pyval))
  : result (list (string * pyval)) :=
  if forallb (fun kv => existsb (fun a => String.eqb (attr_name a) (fst kv)) cls)
       kwargs
  then
    Ok (map (fun a =>
               (attr_name a,
                match lookup (attr_name a) kwargs with
                | Some v => v
                | None => default_of a
                end)) cls)
  else Err TypeError.

Definition getattr (obj : list (string * pyval)) (name : string) : option pyval :=
  lookup name obj.

Definition ProjectArguments : list attribute :=
  [ mkAttr "base_path" "str" (field (PStr "/opt/ml/code/models") "프로젝트 기본 경로");
    mkAttr "name" "str" (field PNone "프로젝트 이름") ].

Definition ModelArguments : list attribute :=
  [ mkAttr "name_or_path" "str"
      (field (PStr "klue/bert-base")
         "Path to pretrained model or model identifier from huggingface.co/models") ].

Definition DataArguments : list attribute :=
  [ mkAttr "dataset_path" "str" (field (PStr "/opt/ml/data/train_dataset") "데이터 경로");
    mkAttr "max_length" "int" (field (PInt 512) "토큰 최대길이");
    mkAttr "stride" "int" (field (PInt 128) "토큰 겹치는 부분");
    mkAttr "max_answer_length" "int" (field (PInt 32) "정답 토큰 최대길이") ].

Definition EarlyStoppingArguments : list attribute :=
  [ mkAttr "setting" "bool"
      (field (PBool false) "Whether to use early-stopping or not");
    mkAttr "patience" "int" (field (PInt 5) "Patience for early-stopping") ].

(** [topk: int = (field(default=5, ...),)]: the parentheses with the
    trailing comma make the class attribute a one-element tuple. *)
Definition InferenceArguments : list attribute :=
  [ mkAttr "topk" "int" (PTuple [field (PInt 5) "Top-K 값"]);
    mkAttr "output_dir" "str" (field (PStr "/opt/ml/code/outputs/sample") "출력장소") ].

End Args.

(* ================================================================== *)
(** * main.py                                                          *)
(* ================================================================== *)

Module EntryPoint.

#[local] Set Warnings "-register-all".

(** A scalar of the loaded configuration. A float is kept as its text:
    the code below only passes it on. *)
Inductive scalar : Type :=
| SNone
| SBool (b : bool)
| SInt (z : Z)
| SFloat (text : string)
| SStr (s : string).

(** The loaded configuration ([DictConfig]) is a tree: a group of named
    nodes ([cfg], [cfg.project], ...), a list, a scalar, or a mandatory
    value that was not given ([???]). Interpolations are taken as
    resolved. *)
Inductive node : Type :=
| Scalar (v : scalar)
| Missing
| Items (items : list node)
| Group (children : list (string * node)).

(** [n.key], the attribute lookup of the configuration loader. A key that
    is absent raises (the loader's error is an [AttributeError]), and so
    does a lookup in anything that is not a group ([None], a string, a
    list); a mandatory value that was not given raises
    [MissingMandatoryValue]. *)
Definition select (n : node) (key : string) : result node :=
  match n with
  | Group children =>
      match Args.lookup key children with
      | Some Missing => Err MissingMandatoryValue
      | Some child => Ok child
      | None => Err AttributeError
      end
  | _ => Err AttributeError
  end.

(** [n.k1.k2] *)
Definition select2 (n : node) (k1 k2 : string) : result node :=
  g <- select n k1 ;;
  select g k2.

(** [n == s] for a string literal [s]. *)
Definition eq_str (n : node) (s : string) : bool :=
  match n with
  | Scalar (SStr t) => String.eqb t s
  | _ => false
  end.

(** The string holds a NUL character. *)
Definition has_nul (s : string) : bool :=
  existsb (Ascii.eqb Ascii.zero) (list_ascii_of_string s).

Inductive routine : Type :=
| Train
| HpOptimizing
| Inference.

(** What [inner_main] does to the outside. [PrintStart name] is the line
    [print(f"Start {name} !")], whatever value [name] is. Standard output
    and the environment take UTF-8 text, so that printing and encoding a
    string raise nothing. *)
Inductive action : Type :=
| PrintStart (name : node)
| Print (line : string)
| SetEnv (name value : string)
| Invoke (r : routine) (args : list node).

(** Computations that act on the outside and may raise. *)
Definition IO (A : Type) : Type := list action -> list action * result A.

Definition done {A} (a : A) : IO A := fun acts => (acts, Ok a).
Definition act (a : action) : IO unit := fun acts => (acts ++ [a], Ok tt).
Definition eval {A} (r : result A) : IO A := fun acts => (acts, r).
Definition and_then {A B} (m : IO A) (k : A -> IO B) : IO B :=
  fun acts =>
    match m acts with
    | (acts', Ok a) => k a acts'
    | (acts', Err e) => (acts', Err e)
    end.

Notation "x <~ m ;; k" := (and_then m (fun x => k))
  (at level 61, m at next level, right associativity).
Notation "m ;;; k" := (and_then m (fun _ => k))
  (at level 61, right associativity).

(** [os.environ[name] = v]: the value has to be a [str] ([TypeError]
    otherwise) without a NUL character ([ValueError] otherwise). *)
Definition environ_setitem (name : string) (v : node) : IO unit :=
  match v with
  | Scalar (SStr s) =>
      if has_nul s then eval (Err ValueError) else act (SetEnv name s)
  | _ => eval (Err TypeError)
  end.

Section Dispatch.

(** The routines of [src.train], [src.hp_opt] and [src.inference]: what
    each call returns or raises. *)
Variable train : node -> node -> node -> node -> result unit.
Variable hp_optimizing : node -> node -> node -> node -> result unit.
Variable inference : node -> node -> result unit.

(** The body of [inner_main] (lines 16-28), as the configuration loader
    calls it: the actions in order, and how the call ends. Every test of
    the [if] chain reads [cfg.mode] again, to the same effect as the first
    read. *)
Definition inner_main (cfg : node) : list action * result unit :=
  (name <~ eval (select2 cfg "project" "name") ;;
   act (PrintStart name) ;;;
   entity <~ eval (select2 cfg "wandb" "entity") ;;
   environ_setitem "WANDB_ENTITY" entity ;;;
   project <~ eval (select2 cfg "wandb" "project") ;;
   environ_setitem "WANDB_PROJECT" project ;;;
   mode <~ eval (select cfg "mode") ;;
   if eq_str mode "model_train" then
     p <~ eval (select cfg "project") ;;
     m <~ eval (select cfg "model") ;;
     d <~ eval (select cfg "data") ;;
     t <~ eval (select cfg "train") ;;
     act (Invoke Train [p; m; d; t]) ;;;
     eval (train p m d t)
   else if eq_str mode "hyperparameter_tune" then
     p <~ eval (select cfg "project") ;;
     m <~ eval (select cfg "model") ;;
     d <~ eval (select cfg "data") ;;
     h <~ eval (select cfg "hp") ;;
     act (Invoke HpOptimizing [p; m; d; h]) ;;;
     eval (hp_optimizing p m d h)
   else if eq_str mode "retrieval_train" then
     act (Print "dense retrieval train 만들기")
   else if eq_str mode "inference" then
     m <~ eval (select cfg "model") ;;
     d <~ eval (select cfg "data") ;;
     act (Invoke Inference [m; d]) ;;;
     eval (inference m d)
   else done tt) [].

End Dispatch.

Definition recognized_modes : list string :=
  [ "model_train"; "hyperparameter_tune"; "retrieval_train"; "inference" ]%string.

End EntryPoint.

Module RetrievalExamples.
Import Retrieval.

(** A toy instance of the injected parts: tokens are characters, and a
    passage scores the number of query tokens that occur in it. *)
Definition char_tokens (s : string) : list string := chars s.

Definition count_hits (corpus : list (list string)) (query : list string)
  : list score :=
  map (fun doc =>
         len (filter (fun t => existsb (String.eqb t) doc) query))
      corpus.

Definition toy_wiki : list (string * document) :=
  [ ("0", mkDocument "ab"); ("1", mkDocument "cd"); ("2", mkDocument "ab");
    ("3", mkDocument "bcd") ]%string.

Definition toy_engine : BM25SparseRetrieval string :=
  let fresh := init string "/opt/ml/data/" toy_wiki in
  match get_sparse_embedding string char_tokens fresh None with
  | Ok (built, _) => built
  | Err _ => fresh
  end.

Definition toy_dataset : list example :=
  [ mkExample "cd" "q-0" (Some "bcd"%string)
      (Some (Preprocess.mkAnswers ["cd"%string] [1])) ].

End RetrievalExamples.

Module EntryPointExamples.
Import EntryPoint.

(** Routines that return normally, and a configuration whose mode is not
    a recognized one. *)
Definition returns (_ _ _ _ : node) : result unit := Ok tt.
Definition returns2 (_ _ : node) : result unit := Ok tt.

Definition str (s : string) : node := Scalar (SStr s).

Definition evaluate_cfg : node :=
  Group [ ("mode", str "evaluate");
          ("project", Group [("name", str "mrc")]);
          ("wandb", Group [("entity", str "team"); ("project", str "mrc")]);
          ("model", Group []); ("data", Group []); ("train", Group []);
          ("hp", Group []) ]%string.

End EntryPointExamples.

(* ================================================================== *)
(** * src/magic_box/preprocess.py: the validation sub-modes            *)
(* ================================================================== *)

Module Validation.
Import Preprocess.

(** [l[i] = v] for a Python list. *)
Definition setitem {A} (l : list A) (i : Z) (v : A) : result (list A) :=
  let j := if i <? 0 then i + len l else i in
  if (0 <=? j) && (j <? len l) then
    Ok (firstn (Z.to_nat j) l ++ v :: skipn (S (Z.to_nat j)) l)
  else Err IndexError.

(** [for x in l: state = body(state, x)] *)
Fixpoint for_state {S A} (body : S -> A -> result S) (l : list A) (st : S)
  : result S :=
  match l with
  | [] => Ok st
  | x :: l' => st' <- body st x ;; for_state body l' st'
  end.

(** The two lists the loops of the validation sub-modes work on:
    [tokenized_examples["example_id"]] and
    [tokenized_examples["offset_mapping"]], whose entries become [None]
    where a token is masked. *)
Definition validation_state : Type :=
  (list string * list (list (option offset)))%type.

(** Lines 131-134: the comprehension
    [(o if sequence_ids[k] == context_index else None) for k, o in enumerate(...)] *)
Definition mask_by_sequence (sids : list (option Z)) (context_index : option Z)
  (entries : list (option offset)) : result (list (option offset)) :=
  for_enumerate
    (fun k o =>
       s <- getitem sids k ;;
       Ok (if option_Z_eqb s context_index then o else None))
    0 entries.

(** Lines 311-314: the comprehension
    [(o if k >= additional_token_length else None) for k, o in enumerate(...)] *)
Definition mask_by_position (additional_token_length : Z)
  (entries : list (option offset)) : result (list (option offset)) :=
  for_enumerate
    (fun k o => Ok (if k >=? additional_token_length then o else None))
    0 entries.

(** [prepare_validation_features] (lines 115-136) on the tokenizer's
    output; [ids] is the column [examples["id"]]. The result is the pair
    of [example_id] and the rewritten [offset_mapping]. *)
Definition prepare_validation_features (pad_on_right : bool)
  (ids : list string) (enc : batch_encoding) : result validation_state :=
  for_state
    (fun (st : validation_state) i =>
       let '(example_id, offset_mapping) := st in
       sids <- getitem (sequence_ids enc) i ;;
       let context_index := context_marker pad_on_right in
       sample_index <- getitem (overflow_to_sample_mapping enc) i ;;
       eid <- getitem ids sample_index ;;
       entries <- getitem offset_mapping i ;;
       masked <- mask_by_sequence sids context_index entries ;;
       offset_mapping' <- setitem offset_mapping i masked ;;
       Ok (example_id ++ [eid], offset_mapping'))
    (Retrieval.range (len (input_ids enc)))
    ([], map (map Some) (offset_mapping enc)).

(** The T5 [prepare_validation_features] (lines 296-316) on the two
    tokenizer outputs. *)
Definition prepare_validation_features_T5 (ids : list string)
  (tokenized_extras tokenized_examples : batch_encoding)
  : result validation_state :=
  for_state
    (fun (st : validation_state) i =>
       let '(example_id, offset_mapping) := st in
       extra_ids <- getitem (input_ids tokenized_extras) i ;;
       let additional_token_length := len extra_ids in
       eid <- getitem ids i ;;
       entries <- getitem offset_mapping i ;;
       masked <- mask_by_position additional_token_length entries ;;
       offset_mapping' <- setitem offset_mapping i masked ;;
       Ok (example_id ++ [eid], offset_mapping'))
    (Retrieval.range (len (input_ids tokenized_examples)))
    ([], map (map Some) (offset_mapping tokenized_examples)).

End Validation.

Module ValidationExamples.
Import Preprocess PreprocessExamples.

(** The tokenizer's output for the one example "What color?" / "The quick
    brown fox", and for the prompt of question "Q" with its prefix. *)
Definition fox_encoding : batch_encoding :=
  {| input_ids := [fox_ids];
     sequence_ids := [fox_sids];
     offset_mapping := [fox_offsets];
     overflow_to_sample_mapping := [0] |}.

Definition ran_encoding : batch_encoding :=
  {| input_ids := [ran_ids];
     sequence_ids := [[]];
     offset_mapping := [ran_offsets];
     overflow_to_sample_mapping := [] |}.

Definition ran_extras : batch_encoding :=
  {| input_ids := [ran_extra_ids];
     sequence_ids := [[]];
     offset_mapping := [[]];
     overflow_to_sample_mapping := [] |}.

Definition fox_masked : list (option offset) :=
  [None; None; None; None; None; Some (0,3); Some (4,9); Some (10,15);
   Some (16,19); None; None; None].

Definition ran_masked : list (option offset) :=
  [None; None; None; None; None; None; Some (14,18); Some (18,22);
   Some (0,0); Some (0,0)].

End ValidationExamples.

(* ================================================================== *)
(** * Vocabulary of the statements about feature labelling            *)
(* ================================================================== *)

Module PreprocessSpec.
Import Preprocess.

(** Character offsets of the token at index [k]. *)
Definition tok_start (offsets : list offset) (k : Z) : Z :=
  fst (nth (Z.to_nat k) offsets (0, 0)).

Definition tok_end (offsets : list offset) (k : Z) : Z :=
  snd (nth (Z.to_nat k) offsets (0, 0)).

Definition seq_id (sids : list (option Z)) (k : Z) : option Z :=
  nth (Z.to_nat k) sids None.

(** Index of the first and of the last element that passes a test, the
    list starting at index [i]. *)
Fixpoint find_first {A} (p : A -> bool) (l : list A) (i : Z) : option Z :=
  match l with
  | [] => None
  | x :: l' => if p x then Some i else find_first p l' (i + 1)
  end.

Fixpoint find_last {A} (p : A -> bool) (l : list A) (i : Z) : option Z :=
  match l with
  | [] => None
  | x :: l' =>
      match find_last p l' (i + 1) with
      | Some j => Some j
      | None => if p x then Some i else None
      end
  end.

(** The feature's context token span: its first and last context token. *)
Definition first_context (sids : list (option Z)) (pad_on_right : bool)
  : option Z :=
  find_first (fun s => option_Z_eqb s (context_marker pad_on_right)) sids 0.

Definition last_context (sids : list (option Z)) (pad_on_right : bool)
  : option Z :=
  find_last (fun s => option_Z_eqb s (context_marker pad_on_right)) sids 0.

(** The character span [(start_char, end_char)] of the first recorded
    answer, encoder variant (lines 52-53). *)
Definition answer_span (ans : answers) : option (Z * Z) :=
  match answer_start ans, text ans with
  | sc :: _, txt :: _ => Some (sc, sc + str_len txt)
  | _, _ => None
  end.

(** The same for the sequence-to-sequence variant (lines 201-204): the
    span is shifted by the length of the prefix string. *)
Definition answer_span_T5 (extra : string) (ans : answers) : option (Z * Z) :=
  match answer_start ans, text ans with
  | a0 :: _, txt :: _ =>
      Some (a0 + str_len extra, a0 + str_len extra + str_len txt + 1)
  | _, _ => None
  end.

(** The answer span lies inside the characters of tokens [ts .. te]. *)
Definition span_contains (offsets : list offset) (ts te sc ec : Z) : Prop :=
  tok_start offsets ts <= sc /\ ec <= tok_end offsets te.

(** A label is a position of the padded feature. *)
Definition valid_index {A} (l : list A) (i : Z) : Prop := 0 <= i < len l.

End PreprocessSpec.

Module LabelSpec.
Import Preprocess.

(** The last token that is neither padding nor end-of-sequence. *)
Definition last_text (ids : list Z) (pad_token_id eos_token_id : Z) : option Z :=
  PreprocessSpec.find_last
    (fun t => negb ((t =? pad_token_id) || (t =? eos_token_id))) ids 0.

(** [len(tokenized_extras["input_ids"][i][:-1])]: where the T5 train
    sub-mode starts its search for the answer. *)
Definition prefix_length (extra_ids : list Z) : Z :=
  len (slice extra_ids 0 (-1)).

End LabelSpec.

(* ================================================================== *)
(** * Vocabulary of the statements about the corpus and the dispatcher *)
(* ================================================================== *)

Module RetrievalSpec.
Import Retrieval.

(** Position of the first occurrence of [t] in [l]. *)
Fixpoint first_pos (t : string) (l : list string) : option nat :=
  match l with
  | [] => None
  | x :: l' => if String.eqb x t then Some O else option_map S (first_pos t l')
  end.

(** The [text] values of the corpus object, in the order of the file. *)
Definition texts (wiki : list (string * document)) : list string :=
  map (fun kv => doc_text (snd kv)) wiki.

(** The keys a left-to-right pass adds to the keys already [seen]. *)
Fixpoint unseen (seen : list string) (l : list string) : list string :=
  match l with
  | [] => []
  | x :: l' =>
      if existsb (String.eqb x) seen then unseen seen l'
      else x :: unseen (seen ++ [x]) l'
  end.

(** The two argument types [retrieve] handles. *)
Definition is_query (a : argument) : bool :=
  match a with
  | AStr _ | ADataset _ => true
  | _ => false
  end.

Definition is_int (v : value) : bool :=
  match v with
  | VInt _ => true
  | VStr _ => false
  end.

(** The row the batch form builds for an example whose retrieved texts
    are [doc_list]. *)
Definition retrieved_row (doc_list : list string) (ex : example) : retrieved :=
  {| r_question := question ex;
     r_id := id ex;
     r_context_id := map VStr doc_list;
     r_context := join " " doc_list;
     r_original_context :=
       match context ex, answers ex with
       | Some c, Some _ => Some c
       | _, _ => None
       end;
     r_answers :=
       match context ex, answers ex with
       | Some _, Some a => Some a
       | _, _ => None
       end |}.

End RetrievalSpec.

(* ================================================================== *)
(** * Facts about the Python runtime                                   *)
(* ================================================================== *)

Module PyFacts.

Lemma len_nonneg {A} (l : list A) : 0 <= len l.
Proof. unfold len. lia. Qed.

Lemma len_cons {A} (x : A) (l : list A) : len (x :: l) = len l + 1.
Proof. unfold len. cbn [List.length]. lia. Qed.

Lemma getitem_nonneg {A} (l : list A) (i : Z) (d : A) :
  0 <= i < len l -> getitem l i = Ok (nth (Z.to_nat i) l d).
Proof.
  intros Hi. unfold getitem.
  destruct (i <? 0) eqn:Hneg; [apply Z.ltb_lt in Hneg; lia|].
  replace (0 <=? i) with true by (symmetry; apply Z.leb_le; lia).
  replace (i <? len l) with true by (symmetry; apply Z.ltb_lt; lia).
  cbn [andb].
  destruct (nth_error l (Z.to_nat i)) eqn:Hn.
  - f_equal. symmetry. now apply nth_error_nth.
  - apply nth_error_None in Hn. unfold len in Hi. lia.
Qed.

Lemma getitem_range {A} (l : list A) (i : Z) (a : A) :
  getitem l i = Ok a -> - len l <= i < len l.
Proof.
  unfold getitem. intros H.
  destruct (i <? 0) eqn:Hneg.
  - apply Z.ltb_lt in Hneg.
    destruct ((0 <=? i + len l) && (i + len l <? len l)) eqn:Hr; [|discriminate].
    apply andb_prop in Hr as [H1 H2]. apply Z.leb_le in H1. lia.
  - apply Z.ltb_ge in Hneg.
    destruct ((0 <=? i) && (i <? len l)) eqn:Hr; [|discriminate].
    apply andb_prop in Hr as [H1 H2]. apply Z.ltb_lt in H2. lia.
Qed.

Lemma getitem_Ok_nonneg {A} (l : list A) (i : Z) (a d : A) :
  0 <= i -> getitem l i = Ok a -> i < len l /\ a = nth (Z.to_nat i) l d.
Proof.
  intros Hi H. pose proof (getitem_range _ _ _ H) as Hr.
  split; [lia|].
  rewrite (getitem_nonneg l i d) in H by lia. now inversion H.
Qed.

Lemma getitem_wrap {A} (l : list A) (i : Z) :
  - len l <= i < 0 -> getitem l i = getitem l (i + len l).
Proof.
  intros Hi. unfold getitem.
  replace (i <? 0) with true by (symmetry; apply Z.ltb_lt; lia).
  replace (i + len l <? 0) with false by (symmetry; apply Z.ltb_ge; lia).
  reflexivity.
Qed.

Lemma getitem_head {A} (x : A) (l : list A) : getitem (x :: l) 0 = Ok x.
Proof.
  rewrite (getitem_nonneg _ _ x); [reflexivity|].
  rewrite len_cons. pose proof (len_nonneg l). lia.
Qed.

Lemma index_from_spec (l : list Z) (x : Z) :
  forall i, In x l ->
  exists c, index_from l x i = Ok c /\ i <= c < i + len l.
Proof.
  induction l as [|y l IH]; intros i Hin; [destruct Hin|].
  cbn [index_from]. rewrite len_cons. pose proof (len_nonneg l).
  destruct (y =? x) eqn:E.
  - exists i. split; [reflexivity|lia].
  - destruct Hin as [->|Hin]; [rewrite Z.eqb_refl in E; discriminate|].
    destruct (IH (i + 1) Hin) as (c & Hc & Hr). exists c. split; [exact Hc|lia].
Qed.

Lemma index_from_range (l : list Z) (x : Z) :
  forall i c, index_from l x i = Ok c -> i <= c < i + len l.
Proof.
  induction l as [|y l IH]; intros i c H; [discriminate|].
  cbn [index_from] in H. rewrite len_cons. pose proof (len_nonneg l).
  destruct (y =? x).
  - inversion H. subst. lia.
  - apply IH in H. lia.
Qed.

Lemma index_range (l : list Z) (x c : Z) :
  index l x = Ok c -> 0 <= c < len l.
Proof. intros H. apply index_from_range in H. lia. Qed.

(** ** Loops that walk an index up or down *)

Section Scans.

Variable cond : Z -> result bool.

Lemma while_up_run (n : nat) :
  forall (fuel : nat) (i : Z),
    (n < fuel)%nat ->
    (forall k, i <= k < i + Z.of_nat n -> cond k = Ok true) ->
    cond (i + Z.of_nat n) = Ok false ->
    while fuel cond Z.succ i = Ok (i + Z.of_nat n).
Proof.
  induction n as [|n IH]; intros fuel i Hf Htrue Hfalse.
  - destruct fuel; [lia|]. cbn [while].
    replace (i + Z.of_nat 0) with i in * by lia. now rewrite Hfalse.
  - destruct fuel; [lia|]. cbn [while].
    rewrite Htrue by lia.
    replace (i + Z.of_nat (S n)) with (Z.succ i + Z.of_nat n) in * by lia.
    apply IH; [lia| |exact Hfalse].
    intros k Hk. apply Htrue. lia.
Qed.

Lemma while_down_run (n : nat) :
  forall (fuel : nat) (i : Z),
    (n < fuel)%nat ->
    (forall k, i - Z.of_nat n < k <= i -> cond k = Ok true) ->
    cond (i - Z.of_nat n) = Ok false ->
    while fuel cond Z.pred i = Ok (i - Z.of_nat n).
Proof.
  induction n as [|n IH]; intros fuel i Hf Htrue Hfalse.
  - destruct fuel; [lia|]. cbn [while].
    replace (i - Z.of_nat 0) with i in * by lia. now rewrite Hfalse.
  - destruct fuel; [lia|]. cbn [while].
    rewrite Htrue by lia.
    replace (i - Z.of_nat (S n)) with (Z.pred i - Z.of_nat n) in * by lia.
    apply IH; [lia| |exact Hfalse].
    intros k Hk. apply Htrue. lia.
Qed.

Lemma while_up_to (fuel : nat) (i j : Z) :
  i <= j -> (Z.to_nat (j - i) < fuel)%nat ->
  (forall k, i <= k < j -> cond k = Ok true) ->
  cond j = Ok false ->
  while fuel cond Z.succ i = Ok j.
Proof.
  intros Hij Hf Htrue Hfalse.
  pose proof (while_up_run (Z.to_nat (j - i)) fuel i Hf) as H.
  replace (i + Z.of_nat (Z.to_nat (j - i))) with j in H by lia.
  apply H; assumption.
Qed.

Lemma while_down_to (fuel : nat) (i j : Z) :
  j <= i -> (Z.to_nat (i - j) < fuel)%nat ->
  (forall k, j < k <= i -> cond k = Ok true) ->
  cond j = Ok false ->
  while fuel cond Z.pred i = Ok j.
Proof.
  intros Hij Hf Htrue Hfalse.
  pose proof (while_down_run (Z.to_nat (i - j)) fuel i Hf) as H.
  replace (i - Z.of_nat (Z.to_nat (i - j))) with j in H by lia.
  apply H; assumption.
Qed.

Lemma while_up_inv (fuel : nat) :
  forall (i j : Z),
    while fuel cond Z.succ i = Ok j ->
    i <= j /\ cond j = Ok false /\ forall k, i <= k < j -> cond k = Ok true.
Proof.
  induction fuel as [|fuel IH]; intros i j H; [discriminate|].
  cbn [while] in H.
  destruct (cond i) as [[|]|] eqn:Hc; [| |discriminate].
  - apply IH in H as (H1 & H2 & H3).
    split; [lia|]. split; [exact H2|].
    intros k Hk. destruct (Z.eq_dec k i) as [->|]; [exact Hc|]. apply H3. lia.
  - inversion H. subst j. split; [lia|]. split; [exact Hc|]. intros k Hk. lia.
Qed.

Lemma while_down_inv (fuel : nat) :
  forall (i j : Z),
    while fuel cond Z.pred i = Ok j ->
    j <= i /\ cond j = Ok false /\ forall k, j < k <= i -> cond k = Ok true.
Proof.
  induction fuel as [|fuel IH]; intros i j H; [discriminate|].
  cbn [while] in H.
  destruct (cond i) as [[|]|] eqn:Hc; [| |discriminate].
  - apply IH in H as (H1 & H2 & H3).
    split; [lia|]. split; [exact H2|].
    intros k Hk. destruct (Z.eq_dec k i) as [->|]; [exact Hc|]. apply H3. lia.
  - inversion H. subst j. split; [lia|]. split; [exact Hc|]. intros k Hk. lia.
Qed.

(** A loop whose budget ran out found its test true all the way. *)
Lemma while_up_exhausted (fuel : nat) :
  (forall k, cond k <> Err LoopBound) ->
  forall i, while fuel cond Z.succ i = Err LoopBound ->
  forall k, i <= k < i + Z.of_nat fuel -> cond k = Ok true.
Proof.
  intros Hc. induction fuel as [|fuel IH]; intros i H k Hk; [lia|].
  cbn [while] in H.
  destruct (cond i) as [[|]|e] eqn:E.
  - destruct (Z.eq_dec k i) as [->|]; [exact E|].
    apply (IH (Z.succ i) H). lia.
  - discriminate.
  - inversion H. subst e. now destruct (Hc i).
Qed.

Lemma while_down_exhausted (fuel : nat) :
  (forall k, cond k <> Err LoopBound) ->
  forall i, while fuel cond Z.pred i = Err LoopBound ->
  forall k, i - Z.of_nat fuel < k <= i -> cond k = Ok true.
Proof.
  intros Hc. induction fuel as [|fuel IH]; intros i H k Hk; [lia|].
  cbn [while] in H.
  destruct (cond i) as [[|]|e] eqn:E.
  - destruct (Z.eq_dec k i) as [->|]; [exact E|].
    apply (IH (Z.pred i) H). lia.
  - discriminate.
  - inversion H. subst e. now destruct (Hc i).
Qed.

(** A scan whose test cannot hold outside the Python index range of [l]
    ends within [scan_fuel l] iterations, whichever way it walks. *)
Lemma scan_up_total {A} (l : list A) (i : Z) :
  (forall k, cond k <> Err LoopBound) ->
  (forall k, k < - len l \/ len l <= k -> cond k <> Ok true) ->
  while (scan_fuel l) cond Z.succ i <> Err LoopBound.
Proof.
  intros Hc Hout H.
  pose proof (while_up_exhausted _ Hc _ H) as Hall.
  pose proof (len_nonneg l) as Hl.
  unfold scan_fuel in Hall. unfold len in *.
  destruct (Z_lt_ge_dec i (- Z.of_nat (List.length l))) as [Hlow|Hlow].
  - apply (Hout i); [now left|]. apply Hall. lia.
  - apply (Hout (i + 2 * Z.of_nat (List.length l) + 1)); [right; lia|].
    apply Hall. lia.
Qed.

Lemma scan_down_total {A} (l : list A) (i : Z) :
  (forall k, cond k <> Err LoopBound) ->
  (forall k, k < - len l \/ len l <= k -> cond k <> Ok true) ->
  while (scan_fuel l) cond Z.pred i <> Err LoopBound.
Proof.
  intros Hc Hout H.
  pose proof (while_down_exhausted _ Hc _ H) as Hall.
  pose proof (len_nonneg l) as Hl.
  unfold scan_fuel in Hall. unfold len in *.
  destruct (Z_lt_ge_dec i (Z.of_nat (List.length l))) as [Hhigh|Hhigh].
  - apply (Hout (i - 2 * Z.of_nat (List.length l) - 1)); [left; lia|].
    apply Hall. lia.
  - apply (Hout i); [right; lia|]. apply Hall. lia.
Qed.

End Scans.

(** A test that reads [l[k]] first raises [IndexError] outside the index
    range, so it neither holds there nor exhausts a budget. *)
Lemma getitem_outside {A} (l : list A) (k : Z) :
  k < - len l \/ len l <= k -> getitem l k = Err IndexError.
Proof.
  intros Hk. destruct (getitem l k) as [a|e] eqn:E.
  - apply getitem_range in E. lia.
  - unfold getitem in E.
    destruct ((0 <=? (if k <? 0 then k + len l else k))
              && ((if k <? 0 then k + len l else k) <? len l));
      [|now inversion E].
    destruct (nth_error l _); [discriminate|now inversion E].
Qed.

Lemma getitem_not_loop_bound {A} (l : list A) (k : Z) :
  getitem l k <> Err LoopBound.
Proof.
  unfold getitem.
  destruct ((0 <=? (if k <? 0 then k + len l else k))
            && ((if k <? 0 then k + len l else k) <? len l));
    [|discriminate].
  destruct (nth_error l _); discriminate.
Qed.

(** The first index from [i] on, and the last index up to [i], where a
    test holds, when it holds somewhere. *)
Lemma first_from (p : Z -> bool) (n : nat) :
  forall i, p (i + Z.of_nat n) = true ->
  exists j, i <= j <= i + Z.of_nat n /\ p j = true /\
            forall k, i <= k < j -> p k = false.
Proof.
  induction n as [|n IH]; intros i Hp.
  - exists i. replace (i + Z.of_nat 0) with i in Hp by lia.
    split; [lia|]. split; [exact Hp|]. intros; lia.
  - destruct (p i) eqn:Hi.
    + exists i. split; [lia|]. split; [exact Hi|]. intros; lia.
    + replace (i + Z.of_nat (S n)) with ((i + 1) + Z.of_nat n) in Hp by lia.
      destruct (IH (i + 1) Hp) as (j & Hj & Hpj & Hlt).
      exists j. split; [lia|]. split; [exact Hpj|].
      intros k Hk. destruct (Z.eq_dec k i) as [->|]; [exact Hi|]. apply Hlt. lia.
Qed.

Lemma last_upto (p : Z -> bool) (n : nat) :
  forall i, p (i - Z.of_nat n) = true ->
  exists j, i - Z.of_nat n <= j <= i /\ p j = true /\
            forall k, j < k <= i -> p k = false.
Proof.
  induction n as [|n IH]; intros i Hp.
  - exists i. replace (i - Z.of_nat 0) with i in Hp by lia.
    split; [lia|]. split; [exact Hp|]. intros; lia.
  - destruct (p i) eqn:Hi.
    + exists i. split; [lia|]. split; [exact Hi|]. intros; lia.
    + replace (i - Z.of_nat (S n)) with ((i - 1) - Z.of_nat n) in Hp by lia.
      destruct (IH (i - 1) Hp) as (j & Hj & Hpj & Hlt).
      exists j. split; [lia|]. split; [exact Hpj|].
      intros k Hk. destruct (Z.eq_dec k i) as [->|]; [exact Hi|]. apply Hlt. lia.
Qed.

(** ** [lstrip] *)

(** White space of one, two and three bytes is stripped alike, and only
    from the front; a character that merely shares its first bytes with a
    white space character stays. *)
Lemma lstrip_strips_wide_space :
  lstrip PreprocessExamples.wide_question = "Q"%string /\
  str_len PreprocessExamples.wide_question = 4 /\
  lstrip "Q  "%string = "Q  "%string /\
  lstrip "질문"%string = "질문"%string.
Proof. repeat split. Qed.

(** What [lstrip] returns is a suffix of the string. *)
Lemma lstrip_suffix (s : string) :
  exists front, s = (front ++ lstrip s)%string.
Proof.
  assert (H : forall n s, (String.length s <= n)%nat ->
                exists front, s = (front ++ lstrip s)%string).
  { clear s. induction n as [|n IH]; intros s Hn.
    - destruct s; [now exists EmptyString|cbn in Hn; lia].
    - destruct s as [|a rest]; [now exists EmptyString|].
      cbn [lstrip]. cbn [String.length] in Hn.
      destruct (is_space a).
      { destruct (IH rest ltac:(lia)) as (f & Hf).
        exists (String a f). cbn [append]. now rewrite <- Hf. }
      destruct rest as [|b rest2]; [now exists EmptyString|].
      cbn [String.length] in Hn.
      destruct (is_space2 a b).
      { destruct (IH rest2 ltac:(lia)) as (f & Hf).
        exists (String a (String b f)). cbn [append]. now rewrite <- Hf. }
      destruct rest2 as [|c rest3]; [now exists EmptyString|].
      cbn [String.length] in Hn.
      destruct (is_space3 a b c); [|now exists EmptyString].
      destruct (IH rest3 ltac:(lia)) as (f & Hf).
      exists (String a (String b (String c f))). cbn [append].
      now rewrite <- Hf. }
  apply (H (String.length s)). lia.
Qed.

End PyFacts.

(* ================================================================== *)
(** * Feature labelling (preprocess.py)                                *)
(* ================================================================== *)

Module PreprocessFacts.
Import Preprocess PreprocessSpec PreprocessExamples PyFacts.

Lemma find_first_spec {A} (p : A -> bool) (d : A) (l : list A) :
  forall i j, find_first p l i = Some j ->
    i <= j < i + len l /\
    p (nth (Z.to_nat (j - i)) l d) = true /\
    forall k, i <= k < j -> p (nth (Z.to_nat (k - i)) l d) = false.
Proof.
  induction l as [|x l IH]; intros i j H; [discriminate|].
  cbn [find_first] in H. rewrite len_cons. pose proof (len_nonneg l).
  destruct (p x) eqn:Hx.
  - inversion H. subst j. rewrite Z.sub_diag. cbn. split; [lia|].
    split; [exact Hx|]. intros; lia.
  - apply IH in H as (Hr & Hp & Hlt).
    split; [lia|]. split.
    + replace (Z.to_nat (j - i)) with (S (Z.to_nat (j - (i + 1)))) by lia.
      exact Hp.
    + intros k Hk. destruct (Z.eq_dec k i) as [->|Hne].
      * rewrite Z.sub_diag. exact Hx.
      * replace (Z.to_nat (k - i)) with (S (Z.to_nat (k - (i + 1)))) by lia.
        apply Hlt. lia.
Qed.

Lemma find_last_none {A} (p : A -> bool) (d : A) (l : list A) :
  forall i, find_last p l i = None ->
    forall k, i <= k < i + len l -> p (nth (Z.to_nat (k - i)) l d) = false.
Proof.
  induction l as [|x l IH]; intros i H k Hk.
  - unfold len in Hk. cbn in Hk. lia.
  - cbn [find_last] in H. rewrite len_cons in Hk.
    destruct (find_last p l (i + 1)) eqn:Hl; [discriminate|].
    destruct (p x) eqn:Hx; [discriminate|].
    destruct (Z.eq_dec k i) as [->|Hne].
    + rewrite Z.sub_diag. exact Hx.
    + replace (Z.to_nat (k - i)) with (S (Z.to_nat (k - (i + 1)))) by lia.
      apply (IH (i + 1) Hl). lia.
Qed.

Lemma find_last_spec {A} (p : A -> bool) (d : A) (l : list A) :
  forall i j, find_last p l i = Some j ->
    i <= j < i + len l /\
    p (nth (Z.to_nat (j - i)) l d) = true /\
    forall k, j < k < i + len l -> p (nth (Z.to_nat (k - i)) l d) = false.
Proof.
  induction l as [|x l IH]; intros i j H; [discriminate|].
  cbn [find_last] in H. rewrite len_cons. pose proof (len_nonneg l).
  destruct (find_last p l (i + 1)) as [j'|] eqn:Hl.
  - inversion H. subst j'. apply IH in Hl as (Hr & Hp & Hgt).
    split; [lia|]. split.
    + replace (Z.to_nat (j - i)) with (S (Z.to_nat (j - (i + 1)))) by lia.
      exact Hp.
    + intros k Hk.
      replace (Z.to_nat (k - i)) with (S (Z.to_nat (k - (i + 1)))) by lia.
      apply Hgt. lia.
  - destruct (p x) eqn:Hx; [|discriminate].
    inversion H. subst j. rewrite Z.sub_diag. split; [lia|].
    split; [exact Hx|].
    intros k Hk.
    replace (Z.to_nat (k - i)) with (S (Z.to_nat (k - (i + 1)))) by lia.
    apply (find_last_none p d l (i + 1) Hl). lia.
Qed.

(** ** The two scans over [sequence_ids] *)

Lemma first_context_token_run (sids : list (option Z)) (por : bool) (ts : Z) :
  first_context sids por = Some ts ->
  first_context_token sids (context_marker por) 0 = Ok ts /\
  0 <= ts < len sids.
Proof.
  intros H. apply (find_first_spec _ None) in H as (Hr & Hp & Hlt).
  split; [|lia].
  unfold first_context_token.
  apply while_up_to.
  - lia.
  - unfold scan_fuel, len in *. lia.
  - intros k Hk. rewrite (getitem_nonneg sids k None) by lia. cbn [bind].
    specialize (Hlt k ltac:(lia)). rewrite Z.sub_0_r in Hlt. now rewrite Hlt.
  - rewrite (getitem_nonneg sids ts None) by lia. cbn [bind].
    rewrite Z.sub_0_r in Hp. now rewrite Hp.
Qed.

Lemma last_context_token_run (sids : list (option Z)) (por : bool) (te : Z) :
  last_context sids por = Some te ->
  last_context_token sids (context_marker por) (len sids - 1) = Ok te /\
  0 <= te < len sids.
Proof.
  intros H. apply (find_last_spec _ None) in H as (Hr & Hp & Hgt).
  split; [|lia].
  unfold last_context_token.
  apply while_down_to.
  - lia.
  - unfold scan_fuel, len in *. lia.
  - intros k Hk. rewrite (getitem_nonneg sids k None) by lia. cbn [bind].
    specialize (Hgt k ltac:(lia)). rewrite Z.sub_0_r in Hgt. now rewrite Hgt.
  - rewrite (getitem_nonneg sids te None) by lia. cbn [bind].
    rewrite Z.sub_0_r in Hp. now rewrite Hp.
Qed.

Lemma first_before_last (sids : list (option Z)) (por : bool) (ts te : Z) :
  first_context sids por = Some ts ->
  last_context sids por = Some te ->
  ts <= te.
Proof.
  intros H1 H2.
  apply (find_first_spec _ None) in H1 as (Hr1 & Hp1 & _).
  apply (find_last_spec _ None) in H2 as (Hr2 & _ & Hgt).
  destruct (Z_le_gt_dec ts te) as [|Hgt']; [assumption|].
  specialize (Hgt ts ltac:(lia)). rewrite Hp1 in Hgt. discriminate.
Qed.

(** ** The containment test and the two converging loops *)

Lemma answer_in_span_eval (offsets : list offset) (ts te sc ec : Z) :
  0 <= ts < len offsets -> 0 <= te < len offsets ->
  answer_in_span offsets ts te sc ec
  = Ok ((tok_start offsets ts <=? sc) && (tok_end offsets te >=? ec)).
Proof.
  intros Hts Hte. unfold answer_in_span, tok_start, tok_end.
  rewrite (getitem_nonneg offsets ts (0, 0)) by lia. cbn [bind].
  destruct (fst (nth (Z.to_nat ts) offsets (0, 0)) <=? sc); [|reflexivity].
  rewrite (getitem_nonneg offsets te (0, 0)) by lia. reflexivity.
Qed.

Lemma advance_start_run (offsets : list offset) (sc ts j : Z) :
  0 <= ts <= j -> j <= len offsets ->
  (forall k, ts <= k < j -> tok_start offsets k <= sc) ->
  (j < len offsets -> sc < tok_start offsets j) ->
  advance_start offsets sc ts = Ok j.
Proof.
  intros Hts Hj Hle Hgt. unfold advance_start.
  apply while_up_to.
  - lia.
  - unfold scan_fuel, len in *. lia.
  - intros k Hk.
    replace (k <? len offsets) with true by (symmetry; apply Z.ltb_lt; lia).
    rewrite (getitem_nonneg offsets k (0, 0)) by lia. cbn [bind].
    f_equal. apply Z.leb_le. apply Hle. lia.
  - destruct (j <? len offsets) eqn:Hlt; [|reflexivity].
    apply Z.ltb_lt in Hlt.
    rewrite (getitem_nonneg offsets j (0, 0)) by lia. cbn [bind].
    f_equal. apply Z.leb_gt. now apply Hgt.
Qed.

Lemma retreat_end_run (offsets : list offset) (ec te j : Z) :
  0 <= j <= te -> te < len offsets ->
  (forall k, j < k <= te -> ec <= tok_end offsets k) ->
  tok_end offsets j < ec ->
  retreat_end offsets ec te = Ok j.
Proof.
  intros Hj Hte Hge Hlt. unfold retreat_end.
  apply while_down_to.
  - lia.
  - unfold scan_fuel, len in *. lia.
  - intros k Hk.
    rewrite (getitem_nonneg offsets k (0, 0)) by lia. cbn [bind].
    f_equal. apply Z.geb_le. apply Hge. lia.
  - rewrite (getitem_nonneg offsets j (0, 0)) by lia. cbn [bind].
    f_equal. unfold tok_end in Hlt.
    destruct (snd (nth (Z.to_nat j) offsets (0, 0)) >=? ec) eqn:E; [|reflexivity].
    apply Z.geb_le in E. lia.
Qed.

(** Splitting [x <- m ;; k = Ok v] into the step that returned and the
    rest. *)
Ltac bind_ok H x Hx :=
  match type of H with
  | bind ?m _ = Ok _ =>
      destruct m as [x|] eqn:Hx; [cbn [bind] in H | discriminate H]
  end.

Lemma len_cons_eqb {A} (x : A) (l : list A) : (len (x :: l) =? 0) = false.
Proof. apply Z.eqb_neq. rewrite len_cons. pose proof (len_nonneg l). lia. Qed.

Lemma getitem_nil {A} (i : Z) : getitem (@nil A) i = Err IndexError.
Proof.
  unfold getitem. change (len (@nil A)) with 0.
  destruct (i <? 0) eqn:E.
  - replace (0 <=? i + 0) with false; [reflexivity|].
    symmetry. apply Z.leb_gt. apply Z.ltb_lt in E. lia.
  - destruct (0 <=? i) eqn:E1; [|reflexivity].
    replace (i <? 0) with false; reflexivity.
Qed.

(** What the containment test and the two loops guarantee when all three
    return: both labels are positions of the feature, provided the first
    token of the feature ends before the answer does. *)
Lemma span_labels_valid (offsets : list offset) (sc ec ts te ts' te' : Z) :
  0 <= ts -> 0 <= te ->
  answer_in_span offsets ts te sc ec = Ok true ->
  advance_start offsets sc ts = Ok ts' ->
  retreat_end offsets ec te = Ok te' ->
  tok_end offsets 0 < ec ->
  valid_index offsets (ts' - 1) /\ valid_index offsets (te' + 1).
Proof.
  intros Hts Hte Hin Hadv Hret H0.
  unfold answer_in_span in Hin.
  bind_ok Hin o1 Ho1.
  destruct (fst o1 <=? sc) eqn:Hle1; [|discriminate].
  bind_ok Hin o2 Ho2.
  inversion Hin as [Hge2]; clear Hin.
  destruct (getitem_Ok_nonneg _ _ _ (0, 0) Hts Ho1) as [Hts_lt _].
  destruct (getitem_Ok_nonneg _ _ _ (0, 0) Hte Ho2) as [Hte_lt _].
  unfold advance_start in Hadv.
  apply while_up_inv in Hadv as (Hle & Hstop & Htrue).
  unfold retreat_end in Hret.
  apply while_down_inv in Hret as (Hge & Hstop' & Htrue').
  cbv beta in *.
  assert (Hstep : ts < ts').
  { destruct (Z.eq_dec ts' ts) as [->|]; [|lia].
    destruct (ts <? len offsets) eqn:E; [|apply Z.ltb_ge in E; lia].
    rewrite Ho1 in Hstop. cbn [bind] in Hstop. rewrite Hle1 in Hstop.
    discriminate. }
  assert (Hlast : ts' - 1 < len offsets).
  { specialize (Htrue (ts' - 1) ltac:(lia)).
    destruct (ts' - 1 <? len offsets) eqn:E; [|discriminate].
    now apply Z.ltb_lt in E. }
  assert (Hstep' : te' < te).
  { destruct (Z.eq_dec te' te) as [->|]; [|lia].
    rewrite Ho2 in Hstop'. cbn [bind] in Hstop'. rewrite Hge2 in Hstop'.
    discriminate. }
  assert (Hfirst : 0 <= te').
  { destruct (Z_lt_ge_dec te' 0) as [Hneg|]; [|lia].
    specialize (Htrue' 0 ltac:(lia)).
    rewrite (getitem_nonneg offsets 0 (0, 0)) in Htrue' by lia.
    cbn [bind] in Htrue'. unfold tok_end in H0. cbn [Z.to_nat] in H0.
    inversion Htrue' as [E]. apply Z.geb_le in E. cbn [Z.to_nat] in E. lia. }
  split; unfold valid_index; lia.
Qed.

(** ** The paths of [label_feature] *)

Lemma label_feature_no_answer (cls : Z) (por : bool) (ids : list Z)
  (sids : list (option Z)) (offsets : list offset) (ans : answers) (c : Z) :
  index ids cls = Ok c ->
  answer_start ans = [] ->
  label_feature cls por ids sids offsets ans = Ok (c, c).
Proof.
  intros Hc Hnone. unfold label_feature. rewrite Hc, Hnone. reflexivity.
Qed.

(** With a recorded answer and a context in the feature, the function
    reaches the containment test, and what follows depends on it alone. *)
Lemma label_feature_answer (cls : Z) (por : bool) (ids : list Z)
  (sids : list (option Z)) (offsets : list offset) (ans : answers)
  (c sc ec ts te : Z) :
  index ids cls = Ok c ->
  len sids = len ids -> len offsets = len ids ->
  answer_span ans = Some (sc, ec) ->
  first_context sids por = Some ts ->
  last_context sids por = Some te ->
  label_feature cls por ids sids offsets ans
  = if (tok_start offsets ts <=? sc) && (tok_end offsets te >=? ec) then
      ts' <- advance_start offsets sc ts ;;
      te' <- retreat_end offsets ec te ;;
      Ok (ts' - 1, te' + 1)
    else Ok (c, c).
Proof.
  intros Hc Hs Ho Hspan Hts Hte.
  unfold answer_span in Hspan.
  destruct (answer_start ans) as [|sc' scs] eqn:Ea; [discriminate|].
  destruct (text ans) as [|txt txts] eqn:Et; [discriminate|].
  inversion Hspan; subst sc' ec; clear Hspan.
  apply first_context_token_run in Hts as [Hts Hts_r].
  apply last_context_token_run in Hte as [Hte Hte_r].
  unfold label_feature.
  rewrite Hc, Ea, Et, len_cons_eqb, !getitem_head. cbn [bind].
  rewrite Hts. cbn [bind].
  rewrite <- Hs, Hte. cbn [bind].
  rewrite answer_in_span_eval by lia. cbn [bind].
  destruct ((tok_start offsets ts <=? sc)
            && (tok_end offsets te >=? sc + str_len txt)); reflexivity.
Qed.

(** C7. In the encoder train sub-mode, a feature whose example has no
    recorded answer, or whose answer span is not inside the feature's
    context token span, gets the position of the classifier token as both
    labels, and the labelling raises nothing. *)
Theorem fallback_label_when_absent_or_outside
  (cls : Z) (por : bool) (ids : list Z) (sids : list (option Z))
  (offsets : list offset) (ans : answers) :
  In cls ids ->
  (answer_start ans = [] \/
   exists sc ec ts te,
     len sids = len ids /\ len offsets = len ids /\
     answer_span ans = Some (sc, ec) /\
     first_context sids por = Some ts /\
     last_context sids por = Some te /\
     ~ span_contains offsets ts te sc ec) ->
  exists c,
    index ids cls = Ok c /\
    label_feature cls por ids sids offsets ans = Ok (c, c).
Proof.
  intros Hin Hcase.
  destruct (index_from_spec ids cls 0 Hin) as (c & Hc & _).
  exists c. split; [exact Hc|].
  destruct Hcase as [Hnone|(sc & ec & ts & te & Hs & Ho & Hspan & Hts & Hte & Hout)].
  - now apply label_feature_no_answer.
  - rewrite (label_feature_answer cls por ids sids offsets ans c sc ec ts te)
      by assumption.
    destruct ((tok_start offsets ts <=? sc) && (tok_end offsets te >=? ec))
      eqn:E; [|reflexivity].
    exfalso. apply Hout. apply andb_prop in E as [E1 E2].
    apply Z.leb_le in E1. apply Z.geb_le in E2. now split.
Qed.

Lemma fallback_label_when_absent_or_outside_witness :
  exists c,
    index fox_ids 101 = Ok c /\
    label_feature 101 true fox_ids fox_sids fox_offsets
      (mkAnswers ["jumps"%string] [40]) = Ok (c, c).
Proof.
  apply fallback_label_when_absent_or_outside.
  - cbn. tauto.
  - right. exists 40, 45, 5, 8.
    repeat (split; [reflexivity|]).
    intros [_ H]. vm_compute in H. now apply H.
Defined.

(** C6, as the claim states it, fails: the answer "row" (characters 11 to
    14 of the context) lies inside the context token span, the labels are
    7 and 7, and decoding them gives "brown", the whole token, not the
    answer. *)
Lemma decoded_span_can_exceed_answer :
  answer_span (mkAnswers ["row"%string] [11]) = Some (11, 14) /\
  str_slice fox_context 11 14 = "row"%string /\
  first_context fox_sids true = Some 5 /\
  last_context fox_sids true = Some 8 /\
  span_contains fox_offsets 5 8 11 14 /\
  label_feature 101 true fox_ids fox_sids fox_offsets
    (mkAnswers ["row"%string] [11]) = Ok (7, 7) /\
  decode_span fox_context fox_offsets 7 7 = Ok "brown"%string /\
  "brown"%string <> "row"%string.
Proof.
  repeat (split; [reflexivity|]).
  split; [split; vm_compute; discriminate|].
  repeat (split; [reflexivity|]).
  discriminate.
Qed.

(** When the answer is the last word of the context, no token after it
    starts beyond the answer start (the separator and the padding have
    offset (0, 0)), the first loop runs to the end of the feature, and the
    start label is the last padding position, after the end label. *)
Lemma last_word_start_label_is_last_position :
  label_feature 101 true fox_ids fox_sids fox_offsets
    (mkAnswers ["fox"%string] [16]) = Ok (11, 8) /\
  len fox_ids = 12.
Proof. split; reflexivity. Qed.

(** ** From the batch to its features *)

Lemma for_enumerate_each {A B} (body : Z -> A -> result B) (l : list A) :
  forall (i : Z) (bs : list B),
    for_enumerate body i l = Ok bs ->
    List.length bs = List.length l /\
    forall (n : nat) (x : A) (b : B),
      nth_error l n = Some x -> nth_error bs n = Some b ->
      body (i + Z.of_nat n) x = Ok b.
Proof.
  induction l as [|x l IH]; intros i bs H; cbn [for_enumerate] in H.
  - inversion H. split; [reflexivity|]. intros [|n]; discriminate.
  - bind_ok H b Hb. bind_ok H bs' Hbs. inversion H. subst bs.
    apply IH in Hbs as [Hlen Hnth]. split; [cbn; lia|].
    intros [|n] y c Hy Hc; cbn [nth_error] in Hy, Hc.
    + inversion Hy. inversion Hc. subst. now rewrite Z.add_0_r.
    + replace (i + Z.of_nat (S n)) with (i + 1 + Z.of_nat n) by lia.
      now apply Hnth.
Qed.

(** The [n]-th entries of [start_positions] and [end_positions] are the
    labels [label_feature] gives the [n]-th feature of the batch. *)
Lemma label_features_each (cls : Z) (por : bool) (ex : examples)
  (enc : batch_encoding) (starts ends : list Z) (n : nat)
  (offsets : list offset) (s e : Z) :
  label_features cls por ex enc = Ok (starts, ends) ->
  nth_error (offset_mapping enc) n = Some offsets ->
  nth_error starts n = Some s ->
  nth_error ends n = Some e ->
  exists ids sids sample_index ans,
    getitem (input_ids enc) (Z.of_nat n) = Ok ids /\
    getitem (sequence_ids enc) (Z.of_nat n) = Ok sids /\
    getitem (overflow_to_sample_mapping enc) (Z.of_nat n) = Ok sample_index /\
    getitem (ex_answers ex) sample_index = Ok ans /\
    label_feature cls por ids sids offsets ans = Ok (s, e).
Proof.
  intros H Ho Hs He. unfold label_features in H.
  bind_ok H labels Hl. inversion H. subst starts ends.
  apply for_enumerate_each in Hl as [_ Hnth].
  rewrite nth_error_map in Hs, He.
  destruct (nth_error labels n) as [[s' e']|] eqn:Hse; [|discriminate].
  inversion Hs. inversion He. subst s' e'.
  specialize (Hnth n offsets (s, e) Ho Hse). cbn [Z.add] in Hnth.
  bind_ok Hnth ids Hids. bind_ok Hnth sids Hsids.
  bind_ok Hnth sample_index Hsi. bind_ok Hnth ans Hans.
  now exists ids, sids, sample_index, ans.
Qed.

(** ** The loops end within their budget *)

Lemma read_test_total {A} (l : list A) (f : A -> bool) (k : Z) :
  (s <- getitem l k ;; Ok (f s)) <> Err LoopBound /\
  (k < - len l \/ len l <= k -> (s <- getitem l k ;; Ok (f s)) <> Ok true).
Proof.
  split.
  - pose proof (getitem_not_loop_bound l k) as H.
    destruct (getitem l k) as [a|e]; cbn [bind]; [discriminate|].
    intros E. apply H. inversion E. reflexivity.
  - intros Hk. rewrite (getitem_outside l k Hk). discriminate.
Qed.

Lemma first_context_token_total sids ctx i :
  first_context_token sids ctx i <> Err LoopBound.
Proof.
  apply scan_up_total; intros k; apply read_test_total.
Qed.

Lemma last_context_token_total sids ctx i :
  last_context_token sids ctx i <> Err LoopBound.
Proof.
  apply scan_down_total; intros k; apply read_test_total.
Qed.

Lemma last_text_token_total ids pad eos i :
  last_text_token ids pad eos i <> Err LoopBound.
Proof.
  apply scan_down_total; intros k;
    apply (read_test_total ids (fun t => (t =? pad) || (t =? eos))).
Qed.

Lemma retreat_end_total offsets ec i :
  retreat_end offsets ec i <> Err LoopBound.
Proof.
  apply scan_down_total; intros k;
    apply (read_test_total offsets (fun o => snd o >=? ec)).
Qed.

Lemma advance_start_total offsets sc i :
  advance_start offsets sc i <> Err LoopBound.
Proof.
  apply scan_up_total; intros k.
  - destruct (k <? len offsets); [|discriminate].
    apply (read_test_total offsets (fun o => fst o <=? sc)).
  - intros Hk. destruct (k <? len offsets) eqn:E; [|discriminate].
    apply (read_test_total offsets (fun o => fst o <=? sc)).
    apply Z.ltb_lt in E. lia.
Qed.

(** ** Labels as positions of the feature *)

Lemma first_context_token_inv (sids : list (option Z)) (ctx : option Z) (ts : Z) :
  first_context_token sids ctx 0 = Ok ts ->
  0 <= ts < len sids /\
  (s <- getitem sids ts ;; Ok (negb (option_Z_eqb s ctx))) = Ok false.
Proof.
  intros H. unfold first_context_token in H.
  apply while_up_inv in H as (Hle & Hstop & _). cbv beta in Hstop.
  split; [|exact Hstop].
  split; [exact Hle|].
  destruct (getitem sids ts) as [x|] eqn:E; [|discriminate].
  now destruct (getitem_Ok_nonneg _ _ _ None Hle E).
Qed.

Lemma last_context_token_inv (sids : list (option Z)) (ctx : option Z)
  (ts te : Z) :
  first_context_token sids ctx 0 = Ok ts ->
  last_context_token sids ctx (len sids - 1) = Ok te ->
  ts <= te < len sids.
Proof.
  intros Hts Hte. apply first_context_token_inv in Hts as [Hr Hstop].
  unfold last_context_token in Hte.
  apply while_down_inv in Hte as (Hle & _ & Htrue). cbv beta in Htrue.
  split; [|lia].
  destruct (Z_le_gt_dec ts te) as [|Hgt]; [assumption|].
  specialize (Htrue ts ltac:(lia)). rewrite Hstop in Htrue. discriminate.
Qed.

Lemma last_text_token_inv (ids : list Z) (pad eos te : Z) :
  last_text_token ids pad eos (len ids - 1) = Ok te ->
  0 <= te < len ids.
Proof.
  intros H. unfold last_text_token in H.
  apply while_down_inv in H as (Hle & Hstop & Htrue). cbv beta in *.
  split; [|lia].
  destruct (Z_lt_ge_dec te 0) as [Hneg|]; [|lia].
  destruct (getitem ids te) as [t|] eqn:E; [|discriminate].
  pose proof (getitem_range _ _ _ E) as Hr.
  specialize (Htrue (te + len ids) ltac:(lia)).
  rewrite <- getitem_wrap in Htrue by lia.
  rewrite E in Htrue. rewrite Hstop in Htrue. discriminate.
Qed.

(** C8, as the code has it. The labels of a feature are positions of the
    padded feature, [0 <= label < len(input_ids)], in the encoder variant
    whenever the first token of the feature ends before the answer does,
    and in the sequence-to-sequence variant when moreover the tokenizer's
    end-of-sequence token id, which that variant uses as the fallback
    label, is itself below the feature length. *)
Theorem labels_are_positions :
  (forall (cls : Z) (por : bool) (ids : list Z) (sids : list (option Z))
          (offsets : list offset) (ans : answers) (s e : Z),
      len sids = len ids -> len offsets = len ids ->
      (forall sc ec, answer_span ans = Some (sc, ec) -> tok_end offsets 0 < ec) ->
      label_feature cls por ids sids offsets ans = Ok (s, e) ->
      valid_index ids s /\ valid_index ids e)
  /\
  (forall (eos pad : Z) (ids extra_ids : list Z) (extra : string)
          (offsets : list offset) (ans : answers) (s e : Z),
      len offsets = len ids ->
      valid_index ids eos ->
      (forall sc ec, answer_span_T5 extra ans = Some (sc, ec) ->
                     tok_end offsets 0 < ec) ->
      label_feature_T5 eos pad ids extra_ids extra offsets ans = Ok (s, e) ->
      valid_index ids s /\ valid_index ids e).
Proof.
  split.
  - intros cls por ids sids offsets ans s e Hs Ho H0 H.
    unfold label_feature in H. bind_ok H c Hc.
    pose proof (index_range _ _ _ Hc) as Hcr.
    unfold answer_span in H0.
    destruct (answer_start ans) as [|sc scs].
    { inversion H. subst. now split. }
    rewrite len_cons_eqb, getitem_head in H. cbn [bind] in H.
    destruct (text ans) as [|txt txts].
    { rewrite getitem_nil in H. discriminate. }
    rewrite getitem_head in H. cbn [bind] in H.
    bind_ok H ts Hts. bind_ok H te Hte. bind_ok H inside Hin.
    destruct inside; cbn [negb] in H.
    + bind_ok H ts' Hts'. bind_ok H te' Hte'. inversion H. subst s e.
      rewrite <- Hs in Hte.
      pose proof (last_context_token_inv _ _ _ _ Hts Hte) as Hte_r.
      apply first_context_token_inv in Hts as [Hts_r _].
      unfold valid_index. rewrite <- Ho.
      apply (span_labels_valid offsets sc (sc + str_len txt) ts te);
        try assumption; try lia.
      now apply (H0 sc).
    + inversion H. subst. now split.
  - intros eos pad ids extra_ids extra offsets ans s e Ho Heos H0 H.
    unfold label_feature_T5 in H. unfold answer_span_T5 in H0.
    destruct (answer_start ans) as [|a0 scs].
    { inversion H. subst. now split. }
    rewrite len_cons_eqb, getitem_head in H. cbn [bind] in H.
    destruct (text ans) as [|txt txts].
    { rewrite getitem_nil in H. discriminate. }
    rewrite getitem_head in H. cbn [bind] in H.
    bind_ok H te Hte. bind_ok H inside Hin.
    destruct inside; cbn [negb] in H.
    + bind_ok H ts' Hts'. bind_ok H te' Hte'. inversion H. subst s e.
      apply last_text_token_inv in Hte.
      unfold valid_index. rewrite <- Ho.
      apply (span_labels_valid offsets (a0 + str_len extra)
               (a0 + str_len extra + str_len txt + 1)
               (0 + len (slice extra_ids 0 (-1))) te);
        try assumption; try lia.
      * pose proof (len_nonneg (slice extra_ids 0 (-1))). lia.
      * now apply (H0 (a0 + str_len extra)).
    + inversion H. subst. now split.
Qed.

Lemma labels_are_positions_witness :
  (valid_index fox_ids 7 /\ valid_index fox_ids 7) /\
  (valid_index ran_ids 6 /\ valid_index ran_ids 6).
Proof.
  split.
  - apply (proj1 labels_are_positions 101 true fox_ids fox_sids fox_offsets
             (mkAnswers ["brown"%string] [10])).
    + reflexivity.
    + reflexivity.
    + intros sc ec H. inversion H. reflexivity.
    + reflexivity.
  - apply (proj2 labels_are_positions 1 0 ran_ids ran_extra_ids
             (extra_input "Q") ran_offsets (mkAnswers ["fox"%string] [4])).
    + reflexivity.
    + unfold valid_index. vm_compute. split; [discriminate|reflexivity].
    + intros sc ec H. inversion H. reflexivity.
    + reflexivity.
Defined.

(** C8, as the claim states it, fails in the sequence-to-sequence variant:
    the fallback label is the end-of-sequence token id, here 50256, not a
    position of the 512 tokens of the feature. *)
Lemma eos_label_outside_feature :
  label_feature_T5 50256 0 long_ids long_extra_ids (extra_input "Q")
    long_offsets (mkAnswers [] []) = Ok (50256, 50256) /\
  len long_ids = 512 /\
  ~ valid_index long_ids 50256.
Proof.
  split; [reflexivity|]. split; [reflexivity|].
  unfold valid_index. intros [_ H]. vm_compute in H. discriminate.
Qed.

(** Without a token that ends before the answer ahead of the context, the
    second loop walks past index 0 into Python's negative indices, and
    the end label can come out negative. *)
Lemma end_label_can_be_negative :
  label_feature 101 false bare_ids bare_sids bare_offsets
    (mkAnswers ["abc"%string] [0]) = Ok (2, -1).
Proof. reflexivity. Qed.

End PreprocessFacts.

(* ================================================================== *)
(** * Sparse retrieval (bm25_retrieval_base.py)                        *)
(* ================================================================== *)

Module RetrievalFacts.
Import Retrieval RetrievalSpec RetrievalExamples PyFacts.

(** ** The passage list *)

Lemma existsb_eqb_In (x : string) (l : list string) :
  existsb (String.eqb x) l = true <-> In x l.
Proof.
  rewrite existsb_exists. split.
  - intros (y & Hy & E). apply String.eqb_eq in E. now subst.
  - intros H. exists x. split; [exact H|apply String.eqb_refl].
Qed.

Lemma dict_setitem_keys {V} (d : list (string * V)) (k : string) (v : V) :
  map fst (dict_setitem d k v)
  = if existsb (String.eqb k) (map fst d) then map fst d
    else map fst d ++ [k].
Proof.
  induction d as [|[k' v'] d IH]; [reflexivity|].
  cbn [dict_setitem map fst existsb].
  rewrite (String.eqb_sym k k').
  destruct (String.eqb k' k) eqn:E; cbn [orb map fst].
  - reflexivity.
  - rewrite IH. now destruct (existsb (String.eqb k) (map fst d)).
Qed.

Lemma fold_setitem_keys (l : list string) :
  forall d : list (string * unit),
    map fst (fold_left (fun d k => dict_setitem d k tt) l d)
    = map fst d ++ unseen (map fst d) l.
Proof.
  induction l as [|x l IH]; intros d; cbn [fold_left unseen].
  - now rewrite app_nil_r.
  - rewrite IH, dict_setitem_keys.
    destruct (existsb (String.eqb x) (map fst d)); [reflexivity|].
    now rewrite <- app_assoc.
Qed.

Lemma dict_fromkeys_keys (l : list string) :
  map fst (dict_fromkeys l) = unseen [] l.
Proof. unfold dict_fromkeys. now rewrite fold_setitem_keys. Qed.

Lemma unseen_In (l : list string) :
  forall seen t, In t (unseen seen l) <-> In t l /\ ~ In t seen.
Proof.
  induction l as [|x l IH]; intros seen t; cbn [unseen].
  - cbn. tauto.
  - destruct (existsb (String.eqb x) seen) eqn:E.
    + apply existsb_eqb_In in E. rewrite IH. cbn [In].
      split; [tauto|]. intros [[->|H] Hn]; tauto.
    + assert (Hx : ~ In x seen).
      { intros H. apply existsb_eqb_In in H. congruence. }
      cbn [In]. rewrite IH, in_app_iff. cbn [In].
      destruct (string_dec x t) as [->|Hne]; tauto.
Qed.

Lemma unseen_NoDup (l : list string) :
  forall seen, NoDup (unseen seen l).
Proof.
  induction l as [|x l IH]; intros seen; cbn [unseen]; [constructor|].
  destruct (existsb (String.eqb x) seen); [apply IH|].
  constructor; [|apply IH].
  rewrite unseen_In, in_app_iff. cbn. tauto.
Qed.

Lemma first_pos_In (t : string) (l : list string) :
  In t l -> exists p, first_pos t l = Some p.
Proof.
  induction l as [|x l IH]; intros H; [destruct H|].
  cbn [first_pos]. destruct (String.eqb x t) eqn:E; [now exists O|].
  destruct H as [->|H]; [rewrite String.eqb_refl in E; discriminate|].
  destruct (IH H) as [p Hp]. exists (S p). now rewrite Hp.
Qed.

Lemma unseen_first_seen_order (l : list string) :
  forall seen (i j : nat) (a b : string),
    (i < j)%nat ->
    nth_error (unseen seen l) i = Some a ->
    nth_error (unseen seen l) j = Some b ->
    exists p q, first_pos a l = Some p /\ first_pos b l = Some q /\ (p < q)%nat.
Proof.
  induction l as [|x l IH]; intros seen i j a b Hij Ha Hb.
  - destruct i; discriminate.
  - assert (Hskip : forall seen' i' j',
               (i' < j')%nat ->
               nth_error (unseen seen' l) i' = Some a ->
               nth_error (unseen seen' l) j' = Some b ->
               (In x seen') ->
               exists p q, first_pos a (x :: l) = Some p /\
                           first_pos b (x :: l) = Some q /\ (p < q)%nat).
    { intros seen' i' j' Hlt Ha' Hb' Hx.
      destruct (IH seen' i' j' a b Hlt Ha' Hb') as (p & q & Hp & Hq & Hpq).
      apply nth_error_In, unseen_In in Ha'. apply nth_error_In, unseen_In in Hb'.
      exists (S p), (S q). cbn [first_pos].
      destruct (String.eqb x a) eqn:Ea;
        [apply String.eqb_eq in Ea; subst; tauto|].
      destruct (String.eqb x b) eqn:Eb;
        [apply String.eqb_eq in Eb; subst; tauto|].
      rewrite Hp, Hq. cbn. repeat split; lia. }
    cbn [unseen] in Ha, Hb.
    destruct (existsb (String.eqb x) seen) eqn:E.
    + apply existsb_eqb_In in E. now apply (Hskip seen i j).
    + destruct j as [|j]; [lia|]. cbn [nth_error] in Hb.
      destruct i as [|i]; cbn [nth_error] in Ha.
      * inversion Ha. subst a.
        apply nth_error_In, unseen_In in Hb. destruct Hb as [Hbl Hbn].
        destruct (first_pos_In b l Hbl) as [q Hq].
        exists O, (S q). cbn [first_pos]. rewrite String.eqb_refl.
        destruct (String.eqb x b) eqn:Eb.
        { apply String.eqb_eq in Eb. subst. exfalso. apply Hbn.
          apply in_app_iff. right. now left. }
        rewrite Hq. cbn. repeat split; lia.
      * apply (Hskip (seen ++ [x]) i j); try assumption; try lia.
        apply in_app_iff. right. now left.
Qed.

Lemma range_getitem (n i : Z) :
  0 <= i < n -> getitem (range n) i = Ok i.
Proof.
  intros Hi. unfold range.
  assert (Hlen : len (map Z.of_nat (seq 0 (Z.to_nat n))) = n).
  { unfold len. rewrite length_map, length_seq. lia. }
  rewrite (getitem_nonneg _ _ 0) by lia. f_equal.
  rewrite (nth_indep _ 0 (Z.of_nat 0)) by (rewrite length_map, length_seq; lia).
  rewrite map_nth, seq_nth by lia. lia.
Qed.

Lemma range_len (n : Z) : 0 <= n -> len (range n) = n.
Proof. intros H. unfold range, len. rewrite length_map, length_seq. lia. Qed.

(** C9. The constructor's passage list holds every [text] value of the
    corpus object exactly once, in the order in which the texts are first
    seen, and the ids are the positions [0 .. N-1] of the passages. *)
Theorem init_collapses_duplicate_texts
  (token : Type) (path : string) (wiki : list (string * document)) :
  let self := init token path wiki in
  NoDup (contexts self) /\
  (forall t, In t (contexts self) <-> In t (texts wiki)) /\
  (forall (i j : nat) (a b : string),
      (i < j)%nat ->
      nth_error (contexts self) i = Some a ->
      nth_error (contexts self) j = Some b ->
      exists p q, first_pos a (texts wiki) = Some p /\
                  first_pos b (texts wiki) = Some q /\ (p < q)%nat) /\
  len (ids self) = len (contexts self) /\
  (forall i, 0 <= i < len (contexts self) -> getitem (ids self) i = Ok i).
Proof.
  cbn zeta. unfold init. cbn [contexts ids].
  fold (texts wiki). rewrite dict_fromkeys_keys.
  split; [apply unseen_NoDup|].
  split; [intros t; rewrite unseen_In; cbn; tauto|].
  split; [apply unseen_first_seen_order|].
  split; [apply range_len, len_nonneg|].
  intros i Hi. now apply range_getitem.
Qed.

Lemma init_collapses_duplicate_texts_witness :
  contexts (init string "/opt/ml/data/" toy_wiki) = ["ab"; "cd"; "bcd"]%string /\
  ids (init string "/opt/ml/data/" toy_wiki) = [0; 1; 2] /\
  exists p q, first_pos "ab" (texts toy_wiki) = Some p /\
              first_pos "bcd" (texts toy_wiki) = Some q /\ (p < q)%nat.
Proof.
  split; [reflexivity|]. split; [reflexivity|].
  destruct (init_collapses_duplicate_texts string "/opt/ml/data/" toy_wiki)
    as (_ & _ & Horder & _).
  apply (Horder 0%nat 2%nat); [lia| |]; reflexivity.
Defined.

(** ** What [get_relevant_doc] hands to [retrieve] *)

Section EngineFacts.

Variable token : Type.
Variable tokenize_fn : string -> list token.
Variable okapi : list (list token) -> list token -> list score.

Abbreviation get_relevant_doc' := (get_relevant_doc token tokenize_fn okapi).
Abbreviation retrieve' := (retrieve token tokenize_fn okapi).

(** The second component is the list of passage texts of [get_top_n],
    whatever the query: no element of it is an integer id. *)
Lemma get_relevant_doc_returns_texts
  (self : BM25SparseRetrieval token) (b : BM25Okapi token) (q : string)
  (k : Z) (log log' : list event) (doc_scores : list score)
  (doc_indices : list value) :
  get_relevant_doc' self b q k log = (log', Ok (doc_scores, doc_indices)) ->
  exists doc_list : list string,
    doc_indices = map VStr doc_list /\
    get_top_n token okapi b (tokenize_fn q) (contexts self) k = Ok doc_list.
Proof.
  unfold get_relevant_doc, mbind, emit, lift, ret. intros H.
  destruct (take_indices _ _) as [sc|]; [|discriminate].
  destruct (get_top_n _ _ _ _ _ _) as [doc_list|]; [|discriminate].
  inversion H. now exists doc_list.
Qed.

Lemma contexts_getitem_text (self : BM25SparseRetrieval token)
  (doc_list : list string) (i : Z) (d : value) :
  getitem (map VStr doc_list) i = Ok d ->
  contexts_getitem self d = Err TypeError.
Proof.
  intros H. unfold getitem in H.
  destruct (_ && _); [|discriminate].
  destruct (nth_error (map VStr doc_list) _) as [v|] eqn:E; [|discriminate].
  inversion H. subst v. apply nth_error_In, in_map_iff in E as (s & <- & _).
  reflexivity.
Qed.

(** The single-query form with [topk >= 1] never returns: its first loop
    indexes [self.contexts] with a passage text. *)
Lemma positive_topk_single_query_raises (self : BM25SparseRetrieval token) (q : string)
  (topk : Z) (log : list event) :
  1 <= topk ->
  exists e, snd (retrieve' self (AStr q) topk log) = Err e.
Proof.
  intros Hk. unfold retrieve.
  destruct (bm25 self) as [b|]; [|now exists AssertionError].
  unfold mbind at 1.
  destruct (get_relevant_doc' self b q topk log) as [log1 [[sc idx]|e]] eqn:Hg;
    [|now exists e].
  apply get_relevant_doc_returns_texts in Hg as (doc_list & -> & _).
  unfold range. destruct (Z.to_nat topk) as [|n] eqn:En; [lia|].
  cbn [seq map for_each].
  unfold mbind, emit, lift, ret. cbn [Z.of_nat].
  destruct (getitem sc 0) as [s0|e0]; [|now exists e0].
  destruct (getitem (map VStr doc_list) 0) as [d|e1] eqn:Hd; [|now exists e1].
  rewrite (contexts_getitem_text self doc_list 0 d Hd).
  now exists TypeError.
Qed.

Lemma for_each_Forall {A B} (P : B -> Prop) (body : A -> M B) (l : list A) :
  (forall x log log' b, body x log = (log', Ok b) -> P b) ->
  forall log log' bs,
    for_each l body log = (log', Ok bs) -> Forall P bs.
Proof.
  intros Hbody. induction l as [|x l IH]; intros log log' bs H;
    cbn [for_each] in H; unfold mbind, ret in H.
  - inversion H. constructor.
  - destruct (body x log) as [log1 [b|]] eqn:Hb; [|discriminate].
    destruct (for_each l body log1) as [log2 [bs'|]] eqn:Hbs; [|discriminate].
    inversion H. subst. constructor; [eapply Hbody|eapply IH]; eassumption.
Qed.

(** Every row the batch form returns carries passage texts, never
    integer ids, as its [context_id]. *)
Lemma batch_rows_hold_texts (self : BM25SparseRetrieval token)
  (rows : list example) (topk : Z) (log log' : list event)
  (total : list retrieved) :
  retrieve' self (ADataset rows) topk log = (log', Ok (RTable total)) ->
  Forall (fun r => exists doc_list, r_context_id r = map VStr doc_list) total.
Proof.
  unfold retrieve. destruct (bm25 self) as [b|]; [|discriminate].
  unfold mbind at 1.
  destruct (for_each (map question rows) _ log) as [log1 [found|]] eqn:Hf;
    [|discriminate].
  assert (Hfound : Forall (fun r : list score * list value =>
                             exists doc_list, snd r = map VStr doc_list) found).
  { refine (for_each_Forall _ _ _ _ _ _ _ Hf).
    intros q log0 log0' [sc idx] Hr.
    apply get_relevant_doc_returns_texts in Hr as (doc_list & -> & _).
    now exists doc_list. }
  unfold mbind at 1. unfold emit at 1.
  unfold mbind at 1.
  destruct (for_each (combine _ rows) _ _) as [log2 [total'|]] eqn:Ht;
    [|discriminate].
  unfold ret. intros H. inversion H. subst total' log'.
  refine (for_each_Forall _ _ _ _ _ _ _ Ht).
  intros [idx ex] log0 log0' r Hr. unfold mbind, lift, ret in Hr.
  destruct (getitem (map snd found) idx) as [cid|] eqn:Hc; [|discriminate].
  destruct (join_values cid); [|discriminate].
  inversion Hr. cbn [r_context_id].
  unfold getitem in Hc. destruct (_ && _); [|discriminate].
  destruct (nth_error (map snd found) _) as [v|] eqn:E; [|discriminate].
  inversion Hc. subst v.
  apply nth_error_In, in_map_iff in E as (r0 & <- & Hin).
  rewrite Forall_forall in Hfound. now apply Hfound.
Qed.

(** C10. With the index built, an argument that is neither a string nor
    a dataset takes neither branch: nothing is scored or printed and the
    call returns [None]. *)
Theorem retrieve_other_argument_returns_none
  (self : BM25SparseRetrieval token) (b : BM25Okapi token)
  (arg : argument) (topk : Z) (log : list event) :
  bm25 self = Some b ->
  is_query arg = false ->
  retrieve' self arg topk log = (log, Ok RNone).
Proof.
  intros Hb Harg. unfold retrieve. rewrite Hb.
  destruct arg; try discriminate; reflexivity.
Qed.

End EngineFacts.

Lemma retrieve_other_argument_returns_none_witness :
  retrieve string char_tokens count_hits toy_engine (AInt 3) 2 [] = ([], Ok RNone).
Proof.
  apply (retrieve_other_argument_returns_none string char_tokens count_hits
           toy_engine (mkBM25 string (map char_tokens ["ab"; "cd"; "bcd"]%string))).
  - reflexivity.
  - reflexivity.
Defined.

(** C1, on the code. For the one-question dataset and [topk = 2] the row's
    [context_id] is the list of the two retrieved passage texts, not of
    their ids 2 and 1; [context] is these texts joined by a space. *)
Theorem batch_context_id_holds_passage_texts :
  contexts toy_engine = ["ab"; "cd"; "bcd"]%string /\
  snd (retrieve string char_tokens count_hits toy_engine (ADataset toy_dataset) 2 [])
  = Ok (RTable
          [ {| r_question := "cd";
               r_id := "q-0";
               r_context_id := [VStr "bcd"; VStr "cd"];
               r_context := "bcd cd";
               r_original_context := Some "bcd"%string;
               r_answers := Some (Preprocess.mkAnswers ["cd"%string] [1]) |} ]) /\
  forallb is_int [VStr "bcd"; VStr "cd"] = false.
Proof. repeat split. Qed.

(** C2, on the code. A single query with [topk = 1] on the built index
    prints the query and the best score, then raises [TypeError] where it
    indexes the passage list with the retrieved text; no pair is returned. *)
Theorem single_query_raises_type_error :
  retrieve string char_tokens count_hits toy_engine (AStr "cd") 1 []
  = ([GetScores "cd"; Print (join " " [("[Search query]" ++ nl)%string; "cd"%string; nl]);
      PrintHit 1 2], Err TypeError).
Proof. reflexivity. Qed.

End RetrievalFacts.

(* ================================================================== *)
(** * Configuration defaults (arguments.py)                            *)
(* ================================================================== *)

Module ArgsFacts.
Import Args.

(** The defaults of the groups whose fields are all written as
    [name: type = field(default=...)]. *)
Lemma documented_defaults :
  construct DataArguments []
  = Ok [ ("dataset_path", PStr "/opt/ml/data/train_dataset");
         ("max_length", PInt 512); ("stride", PInt 128);
         ("max_answer_length", PInt 32) ]%string /\
  construct EarlyStoppingArguments []
  = Ok [ ("setting", PBool false); ("patience", PInt 5) ]%string /\
  construct ModelArguments [] = Ok [ ("name_or_path", PStr "klue/bert-base") ]%string.
Proof. repeat split. Qed.

(** C4, on the code. [InferenceArguments()] has as [topk] the one-element
    tuple that holds the [Field] object, not the integer 5. *)
Theorem inference_topk_default_is_a_tuple :
  exists obj,
    construct InferenceArguments [] = Ok obj /\
    getattr obj "topk" = Some (PTuple [PField (PInt 5) "Top-K 값"]) /\
    getattr obj "topk" <> Some (PInt 5) /\
    getattr obj "output_dir" = Some (PStr "/opt/ml/code/outputs/sample").
Proof.
  eexists. split; [reflexivity|]. split; [reflexivity|].
  split; [discriminate|reflexivity].
Qed.

(** C5, as the claim states it, fails: [ProjectArguments()] without a
    project name is constructed, its [name] being [None]. *)
Lemma project_without_name_is_constructed :
  construct ProjectArguments []
  = Ok [ ("base_path", PStr "/opt/ml/code/models"); ("name", PNone) ]%string.
Proof. reflexivity. Qed.

Lemma lookup_other_key {V} (k k' : string) (kwargs : list (string * V)) :
  k <> k' ->
  (forall kv, In kv kwargs -> fst kv = k') ->
  lookup k kwargs = None.
Proof.
  intros Hne. induction kwargs as [|[k0 v0] kwargs IH]; intros Hall; [reflexivity|].
  cbn [lookup].
  assert (k0 = k') by (apply (Hall (k0, v0)); now left). subst k0.
  destruct (String.eqb k' k) eqn:E;
    [apply String.eqb_eq in E; congruence|].
  apply IH. intros kv Hin. apply Hall. now right.
Qed.

(** C5, as the code has it. The project name has the default [None]:
    constructing the project group without a name succeeds, whatever base
    path is given, and leaves [name] at [None]. *)
Theorem project_name_defaults_to_none (kwargs : list (string * pyval)) :
  (forall kv, In kv kwargs -> fst kv = "base_path"%string) ->
  exists obj,
    construct ProjectArguments kwargs = Ok obj /\
    getattr obj "name" = Some PNone.
Proof.
  intros Hall. unfold construct.
  assert (Hknown :
    forallb (fun kv => existsb (fun a => String.eqb (attr_name a) (fst kv))
                         ProjectArguments) kwargs = true).
  { apply forallb_forall. intros kv Hin. rewrite (Hall kv Hin). reflexivity. }
  rewrite Hknown. eexists. split; [reflexivity|].
  unfold ProjectArguments. cbn [map attr_name default_of attr_value field].
  rewrite (lookup_other_key "name" "base_path" kwargs) by (auto; discriminate).
  unfold getattr. cbn [lookup].
  reflexivity.
Qed.

Lemma project_name_defaults_to_none_witness :
  exists obj,
    construct ProjectArguments [("base_path"%string, PStr "/tmp/models")] = Ok obj /\
    getattr obj "name" = Some PNone.
Proof.
  apply project_name_defaults_to_none.
  intros kv [<-|[]]. reflexivity.
Defined.

End ArgsFacts.

(* ================================================================== *)
(** * Mode dispatch (main.py)                                          *)
(* ================================================================== *)

Module EntryPointFacts.
Import EntryPoint EntryPointExamples.

(** C3, as the claim states it, fails: for the mode "evaluate" the
    dispatcher prints the banner, sets the two variables, calls no routine
    and ends normally. *)
Lemma unknown_mode_ends_normally :
  select evaluate_cfg "mode" = Ok (str "evaluate") /\
  ~ In "evaluate"%string recognized_modes /\
  inner_main returns returns returns2 evaluate_cfg
  = ([ PrintStart (str "mrc"); SetEnv "WANDB_ENTITY" "team";
       SetEnv "WANDB_PROJECT" "mrc" ], Ok tt).
Proof.
  split; [reflexivity|]. split; [|reflexivity].
  cbn. intros [H|[H|[H|[H|[]]]]]; discriminate.
Qed.

Lemma eq_str_spec (n : node) (s : string) :
  eq_str n s = true <-> n = Scalar (SStr s).
Proof.
  unfold eq_str. split.
  - destruct n as [[| | | |t]| | |]; try discriminate.
    intros H. apply String.eqb_eq in H. now subst.
  - intros ->. apply String.eqb_refl.
Qed.

(** C3, as the code has it. On a configuration on which the start-up
    lines raise nothing ([cfg.project.name] can be read, and
    [cfg.wandb.entity] and [cfg.wandb.project] are strings without a NUL
    character) and whose [mode] can be read and is none of the four
    recognized values, the dispatcher raises nothing: after the banner and
    the two environment variables it calls no routine, prints nothing
    else and returns. *)
Theorem unrecognized_mode_is_a_silent_no_op
  (train hp_optimizing : node -> node -> node -> node -> result unit)
  (inference : node -> node -> result unit)
  (cfg name mode : node) (entity project : string) :
  select2 cfg "project" "name" = Ok name ->
  select2 cfg "wandb" "entity" = Ok (Scalar (SStr entity)) ->
  has_nul entity = false ->
  select2 cfg "wandb" "project" = Ok (Scalar (SStr project)) ->
  has_nul project = false ->
  select cfg "mode" = Ok mode ->
  (forall s, In s recognized_modes -> mode <> Scalar (SStr s)) ->
  inner_main train hp_optimizing inference cfg
  = ([ PrintStart name; SetEnv "WANDB_ENTITY" entity;
       SetEnv "WANDB_PROJECT" project ], Ok tt).
Proof.
  intros Hname Hentity Hnul1 Hproject Hnul2 Hmode Hother.
  unfold inner_main, and_then, eval, act, environ_setitem.
  rewrite Hname, Hentity, Hnul1, Hproject, Hnul2, Hmode.
  cbn [app].
  destruct (eq_str mode "model_train") eqn:E1.
  { apply eq_str_spec in E1. exfalso. apply (Hother "model_train"%string);
      [cbn; tauto|exact E1]. }
  destruct (eq_str mode "hyperparameter_tune") eqn:E2.
  { apply eq_str_spec in E2. exfalso.
    apply (Hother "hyperparameter_tune"%string); [cbn; tauto|exact E2]. }
  destruct (eq_str mode "retrieval_train") eqn:E3.
  { apply eq_str_spec in E3. exfalso.
    apply (Hother "retrieval_train"%string); [cbn; tauto|exact E3]. }
  destruct (eq_str mode "inference") eqn:E4.
  { apply eq_str_spec in E4. exfalso.
    apply (Hother "inference"%string); [cbn; tauto|exact E4]. }
  reflexivity.
Qed.

Lemma unrecognized_mode_is_a_silent_no_op_witness :
  inner_main returns returns returns2 evaluate_cfg
  = ([ PrintStart (str "mrc"); SetEnv "WANDB_ENTITY" "team";
       SetEnv "WANDB_PROJECT" "mrc" ], Ok tt).
Proof.
  apply (unrecognized_mode_is_a_silent_no_op returns returns returns2
           evaluate_cfg (str "mrc") (str "evaluate") "team" "mrc");
    try reflexivity.
  intros s Hs. cbn in Hs.
  destruct Hs as [H|[H|[H|[H|[]]]]]; subst s; discriminate.
Defined.

End EntryPointFacts.

(* ================================================================== *)
(** * Validation features (preprocess.py)                              *)
(* ================================================================== *)

Module ValidationFacts.
Import Preprocess PreprocessSpec PreprocessExamples Validation
  ValidationExamples PyFacts PreprocessFacts.

Lemma setitem_spec {A} (l l' : list A) (i : Z) (v : A) :
  0 <= i -> setitem l i v = Ok l' ->
  i < len l /\ List.length l' = List.length l /\
  nth_error l' (Z.to_nat i) = Some v /\
  forall j, j <> Z.to_nat i -> nth_error l' j = nth_error l j.
Proof.
  intros Hi H. unfold setitem in H.
  destruct (i <? 0) eqn:Hneg; [apply Z.ltb_lt in Hneg; lia|].
  destruct ((0 <=? i) && (i <? len l)) eqn:Hr; [|discriminate].
  apply andb_prop in Hr as [_ Hlt]. apply Z.ltb_lt in Hlt.
  remember (skipn (S (Z.to_nat i)) l) as rest eqn:Hrest.
  inversion H. subst l'. clear H.
  assert (Hn : (Z.to_nat i < List.length l)%nat) by (unfold len in Hlt; lia).
  assert (Hf : List.length (firstn (Z.to_nat i) l) = Z.to_nat i)
    by (rewrite length_firstn; lia).
  split; [exact Hlt|]. split; [|split].
  - rewrite length_app, Hf. cbn [List.length]. rewrite Hrest, length_skipn. lia.
  - rewrite nth_error_app2 by lia. rewrite Hf, Nat.sub_diag. reflexivity.
  - intros j Hj. destruct (Nat.lt_ge_cases j (Z.to_nat i)) as [Hlt'|Hge].
    + rewrite nth_error_app1 by lia. rewrite nth_error_firstn.
      apply Nat.ltb_lt in Hlt'. now rewrite Hlt'.
    + rewrite nth_error_app2 by lia. rewrite Hf.
      destruct (j - Z.to_nat i)%nat as [|d] eqn:Hd; [lia|].
      cbn [nth_error]. rewrite Hrest, nth_error_skipn. f_equal. lia.
Qed.

Lemma for_state_ext {S A} (f g : S -> A -> result S) (l : list A) :
  (forall st x, f st x = g st x) ->
  forall st, for_state f l st = for_state g l st.
Proof.
  intros Hfg. induction l as [|x l IH]; intros st; cbn [for_state];
    [reflexivity|].
  rewrite Hfg. destruct (g st x); cbn [bind]; [apply IH|reflexivity].
Qed.

(** A loop over [range] keeps what each of its steps keeps. *)
Lemma for_state_seq_inv {S} (body : S -> Z -> result S)
  (Inv : nat -> S -> Prop) :
  forall (k m : nat) (st st' : S),
    (forall j s s', (m <= j < m + k)%nat ->
       Inv j s -> body s (Z.of_nat j) = Ok s' -> Inv (Datatypes.S j) s') ->
    Inv m st ->
    for_state body (map Z.of_nat (seq m k)) st = Ok st' ->
    Inv (m + k)%nat st'.
Proof.
  induction k as [|k IH]; intros m st st' Hstep Hinv H.
  - cbn in H. inversion H. subst. now rewrite Nat.add_0_r.
  - cbn [seq map for_state] in H. bind_ok H st1 Hst1.
    replace (m + Datatypes.S k)%nat with (Datatypes.S m + k)%nat by lia.
    apply (IH (Datatypes.S m) st1 st').
    + intros j s s' Hj. apply Hstep. lia.
    + apply (Hstep m st st1); [lia|assumption|assumption].
    + exact H.
Qed.

(** ** The shape both validation loops share *)

Section Step.

Variable P : Type.
Variable pre : Z -> result P.
Variable eid_of : P -> string.
Variable mask : P -> list (option offset) -> result (list (option offset)).
Variable om0 : list (list offset).

Definition step (st : validation_state) (i : Z) : result validation_state :=
  let '(example_id, offset_mapping) := st in
  p <- pre i ;;
  entries <- getitem offset_mapping i ;;
  masked <- mask p entries ;;
  offset_mapping' <- setitem offset_mapping i masked ;;
  Ok (example_id ++ [eid_of p], offset_mapping').

(** Feature [i] has been handled: its id is recorded and its entry is the
    mask of its original offsets. *)
Definition handled (st : validation_state) (i : nat) : Prop :=
  exists p offsets m,
    pre (Z.of_nat i) = Ok p /\
    nth_error (fst st) i = Some (eid_of p) /\
    nth_error om0 i = Some offsets /\
    mask p (map Some offsets) = Ok m /\
    nth_error (snd st) i = Some m.

Definition handled_upto (j : nat) (st : validation_state) : Prop :=
  List.length (fst st) = j /\
  (forall i, (i < j)%nat -> handled st i) /\
  (forall i, (j <= i)%nat ->
     nth_error (snd st) i = nth_error (map (map Some) om0) i).

Lemma step_keeps (j : nat) (st st' : validation_state) :
  handled_upto j st ->
  step st (Z.of_nat j) = Ok st' ->
  handled_upto (Datatypes.S j) st'.
Proof.
  intros (Hlen & Hdone & Hrest) H.
  destruct st as [eids om]. unfold step in H. cbn [fst snd] in *.
  bind_ok H p Hp. bind_ok H entries He. bind_ok H m Hm. bind_ok H om' Hom.
  inversion H. subst st'. clear H. cbn [fst snd].
  destruct (getitem_Ok_nonneg _ _ _ [] (Nat2Z.is_nonneg j) He) as [Hj _].
  assert (Hentries : nth_error om j = Some entries).
  { unfold getitem in He.
    destruct (Z.of_nat j <? 0) eqn:E; [apply Z.ltb_lt in E; lia|].
    destruct (_ && _); [|discriminate]. rewrite Nat2Z.id in He.
    destruct (nth_error om j); now inversion He. }
  rewrite (Hrest j (Nat.le_refl j)), nth_error_map in Hentries.
  destruct (nth_error om0 j) as [offsets|] eqn:Ho; [|discriminate].
  inversion Hentries. subst entries. clear Hentries.
  destruct (setitem_spec _ _ _ _ (Nat2Z.is_nonneg j) Hom)
    as (_ & _ & Hat & Helse).
  rewrite Nat2Z.id in Hat, Helse.
  unfold handled_upto, handled. cbn [fst snd].
  split; [rewrite length_app; cbn; lia|]. split.
  - intros i Hi. destruct (Nat.eq_dec i j) as [->|Hne].
    + exists p, offsets, m.
      rewrite nth_error_app2 by lia. rewrite Hlen, Nat.sub_diag.
      now repeat split.
    + destruct (Hdone i ltac:(lia)) as (p' & offs' & m' & H1 & H2 & H3 & H4 & H5).
      exists p', offs', m'.
      rewrite nth_error_app1 by lia. rewrite (Helse i Hne).
      now repeat split.
  - intros i Hi. rewrite (Helse i ltac:(lia)). apply Hrest. lia.
Qed.

Lemma loop_handles_all (n : nat) (st : validation_state) :
  for_state step (Retrieval.range (Z.of_nat n)) ([], map (map Some) om0) = Ok st ->
  handled_upto n st.
Proof.
  intros H. unfold Retrieval.range in H. rewrite Nat2Z.id in H.
  apply (for_state_seq_inv step handled_upto n 0%nat _ st) in H; [exact H| |].
  - intros j s s' _. apply step_keeps.
  - split; [reflexivity|]. split; [intros i Hi; lia|]. intros i _. reflexivity.
Qed.

End Step.

Lemma getitem_nat {A} (l : list A) (i : nat) (a : A) :
  getitem l (Z.of_nat i) = Ok a <-> nth_error l i = Some a.
Proof.
  unfold getitem.
  destruct (Z.of_nat i <? 0) eqn:E; [apply Z.ltb_lt in E; lia|].
  rewrite Nat2Z.id. split.
  - destruct (_ && _); [|discriminate].
    destruct (nth_error l i); now inversion 1.
  - intros H. assert (Hi : (i < List.length l)%nat)
      by (apply nth_error_Some; congruence).
    replace (0 <=? Z.of_nat i) with true by (symmetry; apply Z.leb_le; lia).
    replace (Z.of_nat i <? len l) with true
      by (symmetry; apply Z.ltb_lt; unfold len; lia).
    now rewrite H.
Qed.

Lemma mask_by_sequence_spec (sids : list (option Z)) (ctx : option Z)
  (offsets : list offset) (m : list (option offset)) :
  mask_by_sequence sids ctx (map Some offsets) = Ok m ->
  List.length m = List.length offsets /\
  forall k o, nth_error offsets k = Some o ->
    nth_error m k
    = Some (if option_Z_eqb (seq_id sids (Z.of_nat k)) ctx then Some o else None).
Proof.
  intros H. unfold mask_by_sequence in H.
  apply for_enumerate_each in H as [Hlen Hnth]. rewrite length_map in Hlen.
  split; [exact Hlen|]. intros k o Ho.
  destruct (nth_error m k) as [b|] eqn:Hb.
  - specialize (Hnth k (Some o) b). rewrite nth_error_map, Ho in Hnth.
    specialize (Hnth eq_refl Hb). cbn [Z.add] in Hnth.
    bind_ok Hnth s Hs. inversion Hnth.
    destruct (getitem_Ok_nonneg _ _ _ None (Nat2Z.is_nonneg k) Hs) as [_ ->].
    reflexivity.
  - apply nth_error_None in Hb.
    assert (k < List.length offsets)%nat by (apply nth_error_Some; congruence).
    lia.
Qed.

Lemma mask_by_position_spec (atl : Z) (offsets : list offset)
  (m : list (option offset)) :
  mask_by_position atl (map Some offsets) = Ok m ->
  List.length m = List.length offsets /\
  forall k o, nth_error offsets k = Some o ->
    nth_error m k = Some (if Z.of_nat k <? atl then None else Some o).
Proof.
  intros H. unfold mask_by_position in H.
  apply for_enumerate_each in H as [Hlen Hnth]. rewrite length_map in Hlen.
  split; [exact Hlen|]. intros k o Ho.
  destruct (nth_error m k) as [b|] eqn:Hb.
  - specialize (Hnth k (Some o) b). rewrite nth_error_map, Ho in Hnth.
    specialize (Hnth eq_refl Hb). cbn [Z.add] in Hnth.
    inversion Hnth. rewrite Z.geb_leb, Z.ltb_antisym.
    now destruct (atl <=? Z.of_nat k).
  - apply nth_error_None in Hb.
    assert (k < List.length offsets)%nat by (apply nth_error_Some; congruence).
    lia.
Qed.

(** ** The encoder variant *)

Definition pre_encoder (ids : list string) (enc : batch_encoding) (i : Z)
  : result (list (option Z) * string) :=
  sids <- getitem (sequence_ids enc) i ;;
  sample_index <- getitem (overflow_to_sample_mapping enc) i ;;
  eid <- getitem ids sample_index ;;
  Ok (sids, eid).

Lemma prepare_validation_features_steps (por : bool) (ids : list string)
  (enc : batch_encoding) :
  prepare_validation_features por ids enc
  = for_state
      (step _ (pre_encoder ids enc) snd
         (fun p => mask_by_sequence (fst p) (context_marker por)))
      (Retrieval.range (len (input_ids enc)))
      ([], map (map Some) (offset_mapping enc)).
Proof.
  unfold prepare_validation_features. apply for_state_ext.
  intros [eids om] i. unfold step, pre_encoder.
  destruct (getitem (sequence_ids enc) i); cbn [bind]; [|reflexivity].
  destruct (getitem (overflow_to_sample_mapping enc) i); cbn [bind];
    [|reflexivity].
  destruct (getitem ids _); reflexivity.
Qed.

(** Every entry of the rewritten offset mapping of a validation feature
    is the token's own offset pair where the token belongs to the context
    sequence, and [None] everywhere else; the feature keeps its length. *)
Theorem validation_masks_non_context_tokens (por : bool) (ids : list string)
  (enc : batch_encoding) (eids : list string)
  (masked : list (list (option offset))) (i : nat)
  (sids : list (option Z)) (offsets : list offset) :
  prepare_validation_features por ids enc = Ok (eids, masked) ->
  (i < List.length (input_ids enc))%nat ->
  nth_error (sequence_ids enc) i = Some sids ->
  nth_error (offset_mapping enc) i = Some offsets ->
  exists m,
    nth_error masked i = Some m /\
    List.length m = List.length offsets /\
    forall k o, nth_error offsets k = Some o ->
      nth_error m k
      = Some (if option_Z_eqb (seq_id sids (Z.of_nat k)) (context_marker por)
              then Some o else None).
Proof.
  intros H Hi Hs Ho. rewrite prepare_validation_features_steps in H.
  apply loop_handles_all in H as (_ & Hdone & _).
  destruct (Hdone i Hi) as ([sids' eid] & offs & m & Hp & _ & Hoffs & Hm & Hat).
  cbn [fst snd] in *.
  unfold pre_encoder in Hp. bind_ok Hp s1 Hs1.
  apply getitem_nat in Hs1. rewrite Hs in Hs1. inversion Hs1. subst s1.
  bind_ok Hp si Hsi. bind_ok Hp e He. inversion Hp. subst sids' eid.
  rewrite Ho in Hoffs. inversion Hoffs. subst offs.
  exists m. split; [exact Hat|]. now apply mask_by_sequence_spec.
Qed.

Lemma validation_masks_non_context_tokens_witness :
  exists m,
    nth_error [fox_masked] 0 = Some m /\
    List.length m = List.length fox_offsets /\
    forall k o, nth_error fox_offsets k = Some o ->
      nth_error m k
      = Some (if option_Z_eqb (seq_id fox_sids (Z.of_nat k)) (context_marker true)
              then Some o else None).
Proof.
  apply (validation_masks_non_context_tokens true ["q-0"%string] fox_encoding
           ["q-0"%string] [fox_masked] 0 fox_sids fox_offsets).
  - reflexivity.
  - cbn. lia.
  - reflexivity.
  - reflexivity.
Defined.

(** The validation sub-mode records one example id per feature, in
    feature order: the id of the example the overflow mapping names. *)
Theorem validation_records_source_example (por : bool) (ids : list string)
  (enc : batch_encoding) (eids : list string)
  (masked : list (list (option offset))) :
  prepare_validation_features por ids enc = Ok (eids, masked) ->
  List.length eids = List.length (input_ids enc) /\
  forall (i : nat) (sample_index : Z),
    (i < List.length (input_ids enc))%nat ->
    nth_error (overflow_to_sample_mapping enc) i = Some sample_index ->
    exists eid, getitem ids sample_index = Ok eid /\ nth_error eids i = Some eid.
Proof.
  intros H. rewrite prepare_validation_features_steps in H.
  apply loop_handles_all in H as (Hlen & Hdone & _).
  split; [exact Hlen|]. intros i si Hi Hsi.
  destruct (Hdone i Hi) as ([sids' eid] & offs & m & Hp & Heid & _).
  cbn [fst snd] in *.
  unfold pre_encoder in Hp. bind_ok Hp s1 Hs1. bind_ok Hp si' Hsi'.
  apply getitem_nat in Hsi'. rewrite Hsi in Hsi'. inversion Hsi'. subst si'.
  bind_ok Hp e He. inversion Hp. subst. now exists eid.
Qed.

Lemma validation_records_source_example_witness :
  List.length ["q-0"%string] = List.length (input_ids fox_encoding) /\
  forall (i : nat) (sample_index : Z),
    (i < List.length (input_ids fox_encoding))%nat ->
    nth_error (overflow_to_sample_mapping fox_encoding) i = Some sample_index ->
    exists eid, getitem ["q-0"%string] sample_index = Ok eid /\
                nth_error ["q-0"%string] i = Some eid.
Proof.
  apply (validation_records_source_example true ["q-0"%string] fox_encoding
           ["q-0"%string] [fox_masked]).
  reflexivity.
Defined.

(** ** The sequence-to-sequence variant *)

Definition pre_T5 (ids : list string) (tokenized_extras : batch_encoding)
  (i : Z) : result (Z * string) :=
  extra_ids <- getitem (input_ids tokenized_extras) i ;;
  eid <- getitem ids i ;;
  Ok (len extra_ids, eid).

Lemma prepare_validation_features_T5_steps (ids : list string)
  (tokenized_extras tokenized_examples : batch_encoding) :
  prepare_validation_features_T5 ids tokenized_extras tokenized_examples
  = for_state
      (step _ (pre_T5 ids tokenized_extras) snd
         (fun p => mask_by_position (fst p)))
      (Retrieval.range (len (input_ids tokenized_examples)))
      ([], map (map Some) (offset_mapping tokenized_examples)).
Proof.
  unfold prepare_validation_features_T5. apply for_state_ext.
  intros [eids om] i. unfold step, pre_T5.
  destruct (getitem (input_ids tokenized_extras) i); cbn [bind]; [|reflexivity].
  destruct (getitem ids i); reflexivity.
Qed.

(** In the sequence-to-sequence validation sub-mode the split is by
    position alone: the entries of the first [len(extra_ids)] tokens, the
    tokenized prefix with its end-of-sequence token, are [None], every
    later entry is the token's own offset pair, and the feature's example
    id is the id at the feature's own index. *)
Theorem validation_T5_masks_prefix_positions (ids : list string)
  (tokenized_extras tokenized_examples : batch_encoding)
  (eids : list string) (masked : list (list (option offset))) (i : nat)
  (extra_ids : list Z) (offsets : list offset) :
  prepare_validation_features_T5 ids tokenized_extras tokenized_examples
  = Ok (eids, masked) ->
  (i < List.length (input_ids tokenized_examples))%nat ->
  nth_error (input_ids tokenized_extras) i = Some extra_ids ->
  nth_error (offset_mapping tokenized_examples) i = Some offsets ->
  (exists eid, nth_error ids i = Some eid /\ nth_error eids i = Some eid) /\
  exists m,
    nth_error masked i = Some m /\
    List.length m = List.length offsets /\
    forall k o, nth_error offsets k = Some o ->
      nth_error m k
      = Some (if Z.of_nat k <? len extra_ids then None else Some o).
Proof.
  intros H Hi Hx Ho. rewrite prepare_validation_features_T5_steps in H.
  apply loop_handles_all in H as (_ & Hdone & _).
  destruct (Hdone i Hi) as ([atl eid] & offs & m & Hp & Heid & Hoffs & Hm & Hat).
  cbn [fst snd] in *.
  unfold pre_T5 in Hp. bind_ok Hp x1 Hx1.
  apply getitem_nat in Hx1. rewrite Hx in Hx1. inversion Hx1. subst x1.
  bind_ok Hp e He. apply getitem_nat in He. inversion Hp. subst atl eid.
  rewrite Ho in Hoffs. inversion Hoffs. subst offs.
  split; [now exists e|].
  exists m. split; [exact Hat|]. now apply mask_by_position_spec.
Qed.

Lemma validation_T5_masks_prefix_positions_witness :
  (exists eid, nth_error ["q-0"%string] 0 = Some eid /\
               nth_error ["q-0"%string] 0 = Some eid) /\
  exists m,
    nth_error [ran_masked] 0 = Some m /\
    List.length m = List.length ran_offsets /\
    forall k o, nth_error ran_offsets k = Some o ->
      nth_error m k
      = Some (if Z.of_nat k <? len ran_extra_ids then None else Some o).
Proof.
  apply (validation_T5_masks_prefix_positions ["q-0"%string] ran_extras
           ran_encoding ["q-0"%string] [ran_masked] 0 ran_extra_ids ran_offsets).
  - reflexivity.
  - cbn. lia.
  - reflexivity.
  - reflexivity.
Defined.

End ValidationFacts.

(* ================================================================== *)
(** * Feature labelling, continued                                     *)
(* ================================================================== *)

Module LabelFacts.
Import Preprocess PreprocessSpec LabelSpec PreprocessExamples PyFacts
  PreprocessFacts.

(** The first index that passes the test [find_last] (and [find_first])
    look for exists as soon as some index passes it. *)
Lemma find_first_none {A} (p : A -> bool) (d : A) (l : list A) :
  forall i, find_first p l i = None ->
    forall k, i <= k < i + len l -> p (nth (Z.to_nat (k - i)) l d) = false.
Proof.
  induction l as [|x l IH]; intros i H k Hk.
  - unfold len in Hk. cbn in Hk. lia.
  - cbn [find_first] in H. rewrite len_cons in Hk.
    destruct (p x) eqn:Hx; [discriminate|].
    destruct (Z.eq_dec k i) as [->|Hne].
    + rewrite Z.sub_diag. exact Hx.
    + replace (Z.to_nat (k - i)) with (S (Z.to_nat (k - (i + 1)))) by lia.
      apply (IH (i + 1) H). lia.
Qed.

(** The two loops, when the answer span is inside tokens [ts .. te] and
    each loop has a token to stop at. *)
Lemma converge_run (offsets : list offset) (sc ec ts te : Z) :
  0 <= ts -> te < len offsets ->
  span_contains offsets ts te sc ec ->
  (exists i, ts <= i < len offsets /\ sc < tok_start offsets i) ->
  (exists j, 0 <= j <= te /\ tok_end offsets j < ec) ->
  exists a b,
    advance_start offsets sc ts = Ok a /\
    retreat_end offsets ec te = Ok b /\
    (ts < a < len offsets /\
     (forall k, ts <= k < a -> tok_start offsets k <= sc) /\
     sc < tok_start offsets a) /\
    (0 <= b < te /\
     (forall k, b < k <= te -> ec <= tok_end offsets k) /\
     tok_end offsets b < ec).
Proof.
  intros Hts Hte [Hc1 Hc2] (i & Hi & Hpi) (j & Hj & Hpj).
  destruct (first_from (fun k => sc <? tok_start offsets k)
              (Z.to_nat (i - ts)) ts) as (a & Ha & Hpa & Hbefore).
  { replace (ts + Z.of_nat (Z.to_nat (i - ts))) with i by lia.
    now apply Z.ltb_lt. }
  apply Z.ltb_lt in Hpa.
  assert (Hbefore' : forall k, ts <= k < a -> tok_start offsets k <= sc).
  { intros k Hk. specialize (Hbefore k Hk). now apply Z.ltb_ge in Hbefore. }
  assert (ts < a) by (destruct (Z.eq_dec a ts) as [->|]; lia).
  destruct (last_upto (fun k => tok_end offsets k <? ec)
              (Z.to_nat (te - j)) te) as (b & Hb & Hpb & Hafter).
  { replace (te - Z.of_nat (Z.to_nat (te - j))) with j by lia.
    now apply Z.ltb_lt. }
  apply Z.ltb_lt in Hpb.
  assert (Hafter' : forall k, b < k <= te -> ec <= tok_end offsets k).
  { intros k Hk. specialize (Hafter k Hk). now apply Z.ltb_ge in Hafter. }
  assert (b < te) by (destruct (Z.eq_dec b te) as [->|]; lia).
  exists a, b.
  split; [apply advance_start_run; auto; lia|].
  split; [apply retreat_end_run; auto; lia|].
  repeat split; auto; lia.
Qed.

(** ** Encoder variant: where the labels lie *)

Lemma first_context_of_scan (sids : list (option Z)) (por : bool) (ts : Z) :
  first_context_token sids (context_marker por) 0 = Ok ts ->
  first_context sids por = Some ts.
Proof.
  intros H. destruct (first_context sids por) as [ts'|] eqn:E.
  - apply first_context_token_run in E as [E _]. congruence.
  - apply first_context_token_inv in H as [Hr Hstop].
    pose proof (find_first_none _ None sids 0 E ts ltac:(lia)) as Hnone.
    rewrite Z.sub_0_r in Hnone.
    rewrite (getitem_nonneg sids ts None) in Hstop by lia.
    cbn [bind] in Hstop. inversion Hstop as [Hb].
    rewrite Hnone in Hb. discriminate.
Qed.

Lemma last_context_of_scan (sids : list (option Z)) (por : bool) (ts te : Z) :
  first_context_token sids (context_marker por) 0 = Ok ts ->
  last_context_token sids (context_marker por) (len sids - 1) = Ok te ->
  last_context sids por = Some te.
Proof.
  intros Hts Hte. destruct (last_context sids por) as [te'|] eqn:E.
  - apply last_context_token_run in E as [E _]. congruence.
  - apply first_context_token_inv in Hts as [Hr Hstop].
    pose proof (find_last_none _ None sids 0 E ts ltac:(lia)) as Hnone.
    rewrite Z.sub_0_r in Hnone.
    rewrite (getitem_nonneg sids ts None) in Hstop by lia.
    cbn [bind] in Hstop. inversion Hstop as [Hb].
    rewrite Hnone in Hb. discriminate.
Qed.

(** The labels of a feature are the classifier token's position twice, or
    a start label at or after the first context token and an end label at
    or before the last one: the labels never point into the question that
    precedes the context nor into what follows it from the other side. *)
Theorem labels_are_fallback_or_bounded_by_context
  (cls : Z) (por : bool) (ids : list Z) (sids : list (option Z))
  (offsets : list offset) (ans : answers) (s e : Z) :
  len sids = len ids ->
  label_feature cls por ids sids offsets ans = Ok (s, e) ->
  exists c, index ids cls = Ok c /\
    ((s = c /\ e = c) \/
     exists ts te,
       first_context sids por = Some ts /\
       last_context sids por = Some te /\
       ts <= s /\ e <= te).
Proof.
  intros Hs H. unfold label_feature in H. bind_ok H c Hc.
  exists c. split; [reflexivity|].
  destruct (len (answer_start ans) =? 0); [inversion H; now left|].
  bind_ok H sc Hsc. bind_ok H txt Htxt.
  bind_ok H ts Hts. bind_ok H te Hte. bind_ok H inside Hin.
  destruct inside; cbn [negb] in H; [|inversion H; now left].
  bind_ok H ts' Hts'. bind_ok H te' Hte'. inversion H. subst s e.
  right. exists ts, te. rewrite <- Hs in Hte.
  split; [now apply first_context_of_scan|].
  split; [now apply (last_context_of_scan sids por ts)|].
  unfold answer_in_span in Hin. bind_ok Hin o1 Ho1.
  destruct (fst o1 <=? sc) eqn:Hle1; [|discriminate].
  bind_ok Hin o2 Ho2. inversion Hin as [Hge2].
  pose proof (last_context_token_inv _ _ _ _ Hts Hte) as Hte_r.
  apply first_context_token_inv in Hts as [Hts_r _].
  destruct (getitem_Ok_nonneg _ _ _ (0, 0) (proj1 Hts_r) Ho1) as [Hts_lt _].
  unfold advance_start in Hts'.
  apply while_up_inv in Hts' as (Hle & Hstop & _).
  unfold retreat_end in Hte'.
  apply while_down_inv in Hte' as (Hge & Hstop' & _).
  cbv beta in *.
  split.
  - destruct (Z.eq_dec ts' ts) as [->|]; [|lia].
    destruct (ts <? len offsets) eqn:E; [|apply Z.ltb_ge in E; lia].
    rewrite Ho1 in Hstop. cbn [bind] in Hstop. rewrite Hle1 in Hstop.
    discriminate.
  - destruct (Z.eq_dec te' te) as [->|]; [|lia].
    rewrite Ho2 in Hstop'. cbn [bind] in Hstop'. rewrite Hge2 in Hstop'.
    discriminate.
Qed.

Lemma labels_are_fallback_or_bounded_by_context_witness :
  exists c, index fox_ids 101 = Ok c /\
    ((7 = c /\ 7 = c) \/
     exists ts te,
       first_context fox_sids true = Some ts /\
       last_context fox_sids true = Some te /\
       ts <= 7 /\ 7 <= te).
Proof.
  apply (labels_are_fallback_or_bounded_by_context 101 true fox_ids fox_sids
           fox_offsets (mkAnswers ["brown"%string] [10])).
  - reflexivity.
  - reflexivity.
Defined.

(** When the tokens of the context do not overlap, the answer is not
    empty, the token before the context ends before the answer does and
    the answer starts before the last context token, the two labels lie
    in the context and are in order: [ts <= start <= end <= te]. *)
Theorem labels_ordered_inside_context
  (cls : Z) (por : bool) (ids : list Z) (sids : list (option Z))
  (offsets : list offset) (ans : answers) (sc ec ts te : Z) :
  In cls ids ->
  len sids = len ids -> len offsets = len ids ->
  answer_span ans = Some (sc, ec) -> sc < ec ->
  first_context sids por = Some ts ->
  last_context sids por = Some te ->
  span_contains offsets ts te sc ec ->
  (forall k, ts <= k < te -> tok_end offsets k <= tok_start offsets (k + 1)) ->
  (exists i, ts <= i <= te /\ sc < tok_start offsets i) ->
  (0 < ts /\ tok_end offsets (ts - 1) < ec) ->
  exists s e,
    label_feature cls por ids sids offsets ans = Ok (s, e) /\
    ts <= s /\ s <= e /\ e <= te.
Proof.
  intros Hin Hs Ho Hspan Hne Hts Hte Hc Hsep (i & Hi & Hpi) [Hts0 Hprev].
  destruct (index_from_spec ids cls 0 Hin) as (c & Hcls & _).
  rewrite (label_feature_answer cls por ids sids offsets ans c sc ec ts te)
    by assumption.
  destruct Hc as [Hc1 Hc2].
  replace (tok_start offsets ts <=? sc) with true
    by (symmetry; now apply Z.leb_le).
  replace (tok_end offsets te >=? ec) with true
    by (symmetry; now apply Z.geb_le).
  cbn [andb].
  pose proof (first_before_last _ _ _ _ Hts Hte) as Hle.
  destruct (last_context_token_run _ _ _ Hte) as [_ Hte_r].
  destruct (converge_run offsets sc ec ts te) as
    (a & b & Ha & Hb & (Hra & Hbefore & Hpa) & (Hrb & Hafter & Hpb));
    try lia.
  { now split. }
  { exists i. split; [lia|exact Hpi]. }
  { exists (ts - 1). split; [lia|exact Hprev]. }
  rewrite Ha, Hb. cbn [bind]. exists (a - 1), (b + 1).
  split; [reflexivity|].
  assert (Ha_le : a <= i).
  { destruct (Z_le_gt_dec a i) as [|Hgt]; [assumption|].
    specialize (Hbefore i ltac:(lia)). lia. }
  assert (Hb_ge : ts - 1 <= b).
  { destruct (Z_le_gt_dec (ts - 1) b) as [|Hgt]; [assumption|].
    specialize (Hafter (ts - 1) ltac:(lia)). lia. }
  split; [lia|]. split; [|lia].
  destruct (Z_le_gt_dec (a - 1) (b + 1)) as [|Hgt]; [assumption|].
  exfalso.
  pose proof (Hbefore (b + 2) ltac:(lia)) as H1.
  pose proof (Hafter (b + 1) ltac:(lia)) as H2.
  pose proof (Hsep (b + 1) ltac:(lia)) as H3.
  replace (b + 1 + 1) with (b + 2) in H3 by lia. lia.
Qed.

Lemma labels_ordered_inside_context_witness :
  exists s e,
    label_feature 101 true fox_ids fox_sids fox_offsets
      (mkAnswers ["quick brown"%string] [4]) = Ok (s, e) /\
    5 <= s /\ s <= e /\ e <= 8.
Proof.
  apply (labels_ordered_inside_context 101 true fox_ids fox_sids fox_offsets
           (mkAnswers ["quick brown"%string] [4]) 4 15 5 8).
  - cbn. tauto.
  - reflexivity.
  - reflexivity.
  - reflexivity.
  - reflexivity.
  - reflexivity.
  - reflexivity.
  - split; vm_compute; discriminate.
  - intros k Hk.
    assert (Hcases : k = 5 \/ k = 6 \/ k = 7) by lia.
    destruct Hcases as [E|[E|E]]; subst k; vm_compute; intros E; discriminate E.
  - exists 7. vm_compute. repeat split; discriminate.
  - split; [lia|]. vm_compute. reflexivity.
Defined.

(** ** Sequence-to-sequence variant *)


Lemma last_text_token_run (ids : list Z) (pad eos te : Z) :
  last_text ids pad eos = Some te ->
  last_text_token ids pad eos (len ids - 1) = Ok te /\ 0 <= te < len ids.
Proof.
  intros H. apply (find_last_spec _ 0) in H as (Hr & Hp & Hgt).
  split; [|lia].
  unfold last_text_token. apply while_down_to.
  - lia.
  - unfold scan_fuel, len in *. lia.
  - intros k Hk. rewrite (getitem_nonneg ids k 0) by lia. cbn [bind].
    specialize (Hgt k ltac:(lia)). rewrite Z.sub_0_r in Hgt.
    apply negb_false_iff in Hgt. now rewrite Hgt.
  - rewrite (getitem_nonneg ids te 0) by lia. cbn [bind].
    rewrite Z.sub_0_r in Hp. apply negb_true_iff in Hp. now rewrite Hp.
Qed.

Lemma label_feature_T5_answer (eos pad : Z) (ids extra_ids : list Z)
  (extra : string) (offsets : list offset) (ans : answers) (sc ec te : Z) :
  len offsets = len ids ->
  prefix_length extra_ids < len offsets ->
  answer_span_T5 extra ans = Some (sc, ec) ->
  last_text ids pad eos = Some te ->
  label_feature_T5 eos pad ids extra_ids extra offsets ans
  = if (tok_start offsets (prefix_length extra_ids) <=? sc)
       && (tok_end offsets te >=? ec) then
      ts' <- advance_start offsets sc (prefix_length extra_ids) ;;
      te' <- retreat_end offsets ec te ;;
      Ok (ts' - 1, te' + 1)
    else Ok (eos, eos).
Proof.
  intros Ho Hts Hspan Hte.
  unfold answer_span_T5 in Hspan.
  destruct (answer_start ans) as [|a0 scs] eqn:Ea; [discriminate|].
  destruct (text ans) as [|txt txts] eqn:Et; [discriminate|].
  inversion Hspan; subst sc ec; clear Hspan.
  apply last_text_token_run in Hte as [Hte Hte_r].
  unfold label_feature_T5.
  rewrite Ea, Et, len_cons_eqb, !getitem_head. cbn [bind].
  rewrite Hte. cbn [bind]. fold (prefix_length extra_ids).
  rewrite Z.add_0_l.
  pose proof (len_nonneg (slice extra_ids 0 (-1))) as Hnn.
  fold (prefix_length extra_ids) in Hnn.
  rewrite answer_in_span_eval by lia. cbn [bind].
  destruct ((tok_start offsets (prefix_length extra_ids) <=? a0 + str_len extra)
            && (tok_end offsets te
                >=? a0 + str_len extra + str_len txt + 1)); reflexivity.
Qed.

(** In the sequence-to-sequence train sub-mode a feature whose example
    has no recorded answer, or whose shifted answer span is not inside the
    tokens from the prefix boundary to the last text token, gets the
    tokenizer's end-of-sequence id as both labels; nothing is raised. *)
Theorem T5_fallback_label_is_eos_id (eos pad : Z) (ids extra_ids : list Z)
  (extra : string) (offsets : list offset) (ans : answers) :
  (answer_start ans = [] \/
   exists sc ec te,
     len offsets = len ids /\
     prefix_length extra_ids < len offsets /\
     answer_span_T5 extra ans = Some (sc, ec) /\
     last_text ids pad eos = Some te /\
     ~ span_contains offsets (prefix_length extra_ids) te sc ec) ->
  label_feature_T5 eos pad ids extra_ids extra offsets ans = Ok (eos, eos).
Proof.
  intros [Hnone|(sc & ec & te & Ho & Hts & Hspan & Hte & Hout)].
  - unfold label_feature_T5. now rewrite Hnone.
  - rewrite (label_feature_T5_answer eos pad ids extra_ids extra offsets ans
               sc ec te) by assumption.
    destruct ((tok_start offsets (prefix_length extra_ids) <=? sc)
              && (tok_end offsets te >=? ec)) eqn:E; [|reflexivity].
    exfalso. apply Hout. apply andb_prop in E as [E1 E2].
    apply Z.leb_le in E1. apply Z.geb_le in E2. now split.
Qed.

Lemma T5_fallback_label_is_eos_id_witness :
  label_feature_T5 1 0 ran_ids ran_extra_ids (extra_input "Q") ran_offsets
    (mkAnswers ["jumps"%string] [40]) = Ok (1, 1).
Proof.
  apply T5_fallback_label_is_eos_id.
  right. exists 50, 56, 7.
  repeat (split; [reflexivity|]).
  intros [_ H]. vm_compute in H. now apply H.
Defined.

(** In the sequence-to-sequence train sub-mode, when the shifted answer
    span [sc, ec) is inside the tokens from the prefix boundary [ts] to
    the last text token [te], some token from [ts] on starts after [sc]
    and some token up to [te] ends before [ec], the start label is one
    less than the first index from [ts] on whose offset start exceeds
    [sc], the end label one more than the last index up to [te] whose
    offset end is below [ec], and the labeled tokens cover the span. *)
Theorem T5_labels_cover_shifted_span (eos pad : Z) (ids extra_ids : list Z)
  (extra : string) (offsets : list offset) (ans : answers) (sc ec te : Z) :
  len offsets = len ids ->
  prefix_length extra_ids < len offsets ->
  answer_span_T5 extra ans = Some (sc, ec) ->
  last_text ids pad eos = Some te ->
  span_contains offsets (prefix_length extra_ids) te sc ec ->
  (exists i, prefix_length extra_ids <= i < len offsets /\
             sc < tok_start offsets i) ->
  (exists j, 0 <= j <= te /\ tok_end offsets j < ec) ->
  exists s e,
    label_feature_T5 eos pad ids extra_ids extra offsets ans = Ok (s, e) /\
    (prefix_length extra_ids <= s /\ s + 1 < len offsets /\
     (forall k, prefix_length extra_ids <= k <= s -> tok_start offsets k <= sc) /\
     sc < tok_start offsets (s + 1)) /\
    (0 < e <= te /\
     (forall k, e <= k <= te -> ec <= tok_end offsets k) /\
     tok_end offsets (e - 1) < ec) /\
    tok_start offsets s <= sc /\ ec <= tok_end offsets e.
Proof.
  intros Ho Hts Hspan Hte Hc Hi Hj.
  rewrite (label_feature_T5_answer eos pad ids extra_ids extra offsets ans
             sc ec te) by assumption.
  pose proof Hc as [Hc1 Hc2].
  replace (tok_start offsets (prefix_length extra_ids) <=? sc) with true
    by (symmetry; now apply Z.leb_le).
  replace (tok_end offsets te >=? ec) with true
    by (symmetry; now apply Z.geb_le).
  cbn [andb].
  destruct (last_text_token_run _ _ _ _ Hte) as [_ Hte_r].
  pose proof (len_nonneg (slice extra_ids 0 (-1))) as Hnn.
  fold (prefix_length extra_ids) in Hnn.
  destruct (converge_run offsets sc ec (prefix_length extra_ids) te) as
    (a & b & Ha & Hb & (Hra & Hbefore & Hpa) & (Hrb & Hafter & Hpb));
    try assumption; try lia.
  rewrite Ha, Hb. cbn [bind]. exists (a - 1), (b + 1).
  split; [reflexivity|].
  replace (a - 1 + 1) with a by lia. replace (b + 1 - 1) with b by lia.
  split; [|split].
  - repeat split; try lia. intros k Hk. apply Hbefore. lia.
  - repeat split; try lia. intros k Hk. apply Hafter. lia.
  - split; [apply Hbefore|apply Hafter]; lia.
Qed.

Lemma T5_labels_cover_shifted_span_witness :
  exists s e,
    label_feature_T5 1 0 ran_ids ran_extra_ids (extra_input "Q") ran_offsets
      (mkAnswers ["fox"%string] [4]) = Ok (s, e) /\
    tok_start ran_offsets s <= 14 /\ 18 <= tok_end ran_offsets e.
Proof.
  destruct (T5_labels_cover_shifted_span 1 0 ran_ids ran_extra_ids
              (extra_input "Q") ran_offsets (mkAnswers ["fox"%string] [4])
              14 18 7)
    as (s & e & Hl & _ & _ & Hcover).
  - reflexivity.
  - reflexivity.
  - reflexivity.
  - reflexivity.
  - split; vm_compute; discriminate.
  - exists 7. vm_compute. repeat split; discriminate.
  - exists 5. vm_compute. repeat split; discriminate.
  - exists s, e. split; [exact Hl|exact Hcover].
Defined.

End LabelFacts.

(* ================================================================== *)
(** * The prompt of the sequence-to-sequence variant                   *)
(* ================================================================== *)

Module PromptFacts.
Import Preprocess PreprocessSpec LabelSpec PreprocessExamples PyFacts.

Lemma append_assoc (s1 s2 s3 : string) :
  ((s1 ++ s2) ++ s3 = s1 ++ (s2 ++ s3))%string.
Proof.
  induction s1 as [|a s1 IH]; cbn; [reflexivity|]. now rewrite IH.
Qed.

Lemma chars_nonempty (a : ascii) (s : string) : chars (String a s) <> [].
Proof.
  cbn [chars]. destruct (starts_with_continuation s); [|discriminate].
  destruct (chars s); discriminate.
Qed.

(** Splitting a string where a code point starts splits its code points. *)
Lemma chars_app (s1 s2 : string) :
  starts_with_continuation s2 = false ->
  chars (s1 ++ s2) = chars s1 ++ chars s2.
Proof.
  intros H2. induction s1 as [|a rest IH]; [reflexivity|].
  cbn [append chars]. rewrite IH.
  destruct rest as [|b r].
  - cbn [append]. rewrite H2. reflexivity.
  - cbn [append starts_with_continuation].
    destruct (is_continuation b); [|reflexivity].
    destruct (chars (String b r)) as [|c cs] eqn:E;
      [now destruct (chars_nonempty b r)|reflexivity].
Qed.

Lemma len_app {A} (l1 l2 : list A) : len (l1 ++ l2) = len l1 + len l2.
Proof. unfold len. rewrite length_app. lia. Qed.

Lemma slice_app_shift {A} (l1 l2 : list A) (a b : Z) :
  0 <= a -> 0 <= b ->
  slice (l1 ++ l2) (len l1 + a) (len l1 + b) = slice l2 a b.
Proof.
  intros Ha Hb. unfold slice, clamp. rewrite len_app.
  pose proof (len_nonneg l1) as H1. pose proof (len_nonneg l2) as H2.
  replace (len l1 + a <? 0) with false by (symmetry; apply Z.ltb_ge; lia).
  replace (len l1 + b <? 0) with false by (symmetry; apply Z.ltb_ge; lia).
  replace (a <? 0) with false by (symmetry; apply Z.ltb_ge; lia).
  replace (b <? 0) with false by (symmetry; apply Z.ltb_ge; lia).
  rewrite skipn_app.
  rewrite skipn_all2 by (unfold len in *; lia). cbn [app].
  f_equal; [lia|]. f_equal. unfold len in *. lia.
Qed.

Lemma prompt_splits (q c : string) :
  prompt_input q c = (extra_input q ++ String " " c)%string.
Proof.
  unfold prompt_input, extra_input.
  rewrite !append_assoc. reflexivity.
Qed.

Lemma extra_input_chars (q : string) :
  starts_with_continuation q = false ->
  chars (extra_input q) = chars "질문: " ++ chars q ++ chars "  지문:".
Proof.
  intros Hq. unfold extra_input.
  rewrite chars_app.
  - now rewrite chars_app.
  - destruct q; [reflexivity|exact Hq].
Qed.

(** The prefix has nine characters more than the question, and the
    context starts one character after the prefix, the separating space. *)
Lemma prompt_characters (q c : string) (a b : Z) :
  starts_with_continuation q = false ->
  starts_with_continuation c = false ->
  0 <= a -> 0 <= b ->
  str_len (extra_input q) = str_len q + 9 /\
  str_slice (prompt_input q c)
    (str_len (extra_input q) + 1 + a) (str_len (extra_input q) + 1 + b)
  = str_slice c a b.
Proof.
  intros Hq Hc Ha Hb.
  assert (HL : str_len (extra_input q) = str_len q + 9).
  { unfold str_len. rewrite (extra_input_chars q Hq), !len_app.
    change (len (chars "질문: ")) with 4.
    change (len (chars "  지문:")) with 5. lia. }
  split; [exact HL|].
  unfold str_slice. f_equal.
  rewrite prompt_splits.
  rewrite chars_app by reflexivity.
  assert (Hsp : chars (String " " c) = [String " " EmptyString] ++ chars c).
  { cbn [chars]. now rewrite Hc. }
  rewrite Hsp, app_assoc.
  assert (Hlen : len (chars (extra_input q) ++ [String " " EmptyString])
                 = str_len (extra_input q) + 1).
  { rewrite len_app. reflexivity. }
  rewrite <- Hlen. apply slice_app_shift; lia.
Qed.

(** In the sequence-to-sequence train sub-mode, for a question and a
    context that do not start with a UTF-8 continuation byte (as no
    well-formed text does) and a recorded answer at an offset that is not
    negative: the span [sc, ec) on which the labelling of a feature tests
    containment and converges is
    [sc = answer_start + len(question) + 9],
    [ec = sc + len(answer) + 1], and in the prompt it starts one
    character before the answer's place and ends with it: without its
    first character it is the answer's characters
    [context[answer_start : answer_start + len(answer)]]. *)
Theorem T5_span_starts_one_character_early
  (eos pad : Z) (ids extra_ids : list Z) (offsets : list offset)
  (q c : string) (ans : answers) (sc ec te : Z) :
  starts_with_continuation q = false ->
  starts_with_continuation c = false ->
  len offsets = len ids ->
  prefix_length extra_ids < len offsets ->
  last_text ids pad eos = Some te ->
  answer_span_T5 (extra_input q) ans = Some (sc, ec) ->
  str_len (extra_input q) <= sc ->
  label_feature_T5 eos pad ids extra_ids (extra_input q) offsets ans
  = (if (tok_start offsets (prefix_length extra_ids) <=? sc)
        && (tok_end offsets te >=? ec) then
       ts' <- advance_start offsets sc (prefix_length extra_ids) ;;
       te' <- retreat_end offsets ec te ;;
       Ok (ts' - 1, te' + 1)
     else Ok (eos, eos)) /\
  exists a0 txt,
    getitem (answer_start ans) 0 = Ok a0 /\
    getitem (text ans) 0 = Ok txt /\
    sc = a0 + str_len q + 9 /\
    ec = sc + str_len txt + 1 /\
    str_slice (prompt_input q c) (sc + 1) ec
    = str_slice c a0 (a0 + str_len txt).
Proof.
  intros Hq Hc Ho Hpre Hte Hspan Hnn.
  split; [now apply LabelFacts.label_feature_T5_answer|].
  unfold answer_span_T5 in Hspan.
  destruct (answer_start ans) as [|a0 scs] eqn:Ea; [discriminate|].
  destruct (text ans) as [|txt txts] eqn:Et; [discriminate|].
  inversion Hspan as [[Hsc Hec]]. clear Hspan.
  exists a0, txt. rewrite !getitem_head.
  split; [reflexivity|]. split; [reflexivity|].
  assert (Ha0 : 0 <= a0) by lia.
  assert (Htxt : 0 <= str_len txt) by apply len_nonneg.
  destruct (prompt_characters q c a0 (a0 + str_len txt) Hq Hc Ha0
              ltac:(lia)) as [HL Hslice].
  split; [lia|]. split; [lia|].
  rewrite <- Hslice. f_equal; lia.
Qed.

Lemma T5_span_starts_one_character_early_witness :
  exists a0 txt,
    getitem [4] 0 = Ok a0 /\
    getitem ["fox"%string] 0 = Ok txt /\
    14 = a0 + str_len "Q" + 9 /\
    18 = 14 + str_len txt + 1 /\
    str_slice (prompt_input "Q" "the fox ran") (14 + 1) 18
    = str_slice "the fox ran" a0 (a0 + str_len txt).
Proof.
  apply (T5_span_starts_one_character_early 1 0 ran_ids ran_extra_ids
           ran_offsets "Q" "the fox ran" (mkAnswers ["fox"%string] [4])
           14 18 7).
  - reflexivity.
  - reflexivity.
  - reflexivity.
  - reflexivity.
  - reflexivity.
  - reflexivity.
  - vm_compute. discriminate.
Defined.

End PromptFacts.

(* ================================================================== *)
(** * The span the labels decode to                                    *)
(* ================================================================== *)

Module SpanFacts.
Import Preprocess PreprocessSpec PreprocessExamples PyFacts PreprocessFacts
  LabelFacts PromptFacts.

Lemma firstn_add {A} (l : list A) :
  forall p q : nat, firstn (p + q) l = firstn p l ++ firstn q (skipn p l).
Proof.
  induction l as [|x l IH]; intros p q.
  - now rewrite !firstn_nil, skipn_nil, firstn_nil.
  - destruct p as [|p]; [reflexivity|].
    cbn [Nat.add firstn skipn app]. now rewrite IH.
Qed.

(** [l[a:b] = l[a:m] + l[m:b]] for [0 <= a <= m <= b]. *)
Lemma slice_split {A} (l : list A) (a m b : Z) :
  0 <= a -> a <= m -> m <= b ->
  slice l a b = slice l a m ++ slice l m b.
Proof.
  intros Ha Hm Hb. unfold slice, clamp.
  replace (a <? 0) with false by (symmetry; apply Z.ltb_ge; lia).
  replace (m <? 0) with false by (symmetry; apply Z.ltb_ge; lia).
  replace (b <? 0) with false by (symmetry; apply Z.ltb_ge; lia).
  pose proof (len_nonneg l) as Hl.
  set (a' := Z.min a (len l)). set (m' := Z.min m (len l)).
  set (b' := Z.min b (len l)).
  replace (Z.to_nat (b' - a'))
    with (Z.to_nat (m' - a') + Z.to_nat (b' - m'))%nat by lia.
  rewrite firstn_add. f_equal. f_equal.
  rewrite skipn_skipn. f_equal. lia.
Qed.

Lemma append_nil_r (s : string) : (s ++ "")%string = s.
Proof. induction s as [|a s IH]; cbn; [reflexivity|now rewrite IH]. Qed.

Lemma concat_cons (x : string) (l : list string) :
  String.concat "" (x :: l) = (x ++ String.concat "" l)%string.
Proof.
  destruct l as [|y l]; cbn [String.concat].
  - now rewrite append_nil_r.
  - reflexivity.
Qed.

Lemma concat_app (l1 l2 : list string) :
  String.concat "" (l1 ++ l2)
  = (String.concat "" l1 ++ String.concat "" l2)%string.
Proof.
  induction l1 as [|x l1 IH]; [reflexivity|].
  cbn [app]. now rewrite !concat_cons, IH, append_assoc.
Qed.

(** [s[a:b] = s[a:m] + s[m:b]] for [0 <= a <= m <= b]. *)
Lemma str_slice_split (s : string) (a m b : Z) :
  0 <= a -> a <= m -> m <= b ->
  str_slice s a b = (str_slice s a m ++ str_slice s m b)%string.
Proof.
  intros Ha Hm Hb. unfold str_slice.
  now rewrite (slice_split (chars s) a m b), concat_app.
Qed.

(** C6, as the code has it. In the encoder train sub-mode, take a feature
    whose example has a recorded answer that is not empty and whose span
    [sc, ec) is inside the feature's context token span [ts .. te]; whose
    context tokens have offsets that are not negative and do not overlap;
    in which some context token starts after [sc]; and in which the token
    just before the context, or a context token, ends before [ec]. Then
    the start label [s] is one less than the first index from [ts] on
    whose offset start exceeds [sc], the end label [e] is one more than
    the last index up to [te] whose offset end is below [ec], the labels
    lie in the context and in order ([ts <= s <= e <= te]), token [s]
    starts at or before [sc] and token [e] ends at or after [ec], and
    decoding the labels through the offset mapping gives the characters
    from the start of token [s] to the end of token [e]: the answer
    [context[sc:ec]] between what token [s] has before it and what token
    [e] has after it, and so the answer itself when [sc] and [ec] are these
    token boundaries. *)
Theorem span_labels_enclose_answer
  (cls : Z) (por : bool) (ids : list Z) (sids : list (option Z))
  (offsets : list offset) (ans : answers) (context : string)
  (sc ec ts te : Z) :
  In cls ids ->
  len sids = len ids -> len offsets = len ids ->
  answer_span ans = Some (sc, ec) -> sc < ec ->
  first_context sids por = Some ts ->
  last_context sids por = Some te ->
  span_contains offsets ts te sc ec ->
  (forall k, ts <= k <= te -> 0 <= tok_start offsets k) ->
  (forall k, ts <= k < te -> tok_end offsets k <= tok_start offsets (k + 1)) ->
  (exists i, ts <= i <= te /\ sc < tok_start offsets i) ->
  (exists j, 0 <= j /\ ts - 1 <= j <= te /\ tok_end offsets j < ec) ->
  exists s e,
    label_feature cls por ids sids offsets ans = Ok (s, e) /\
    ((forall k, ts <= k <= s -> tok_start offsets k <= sc) /\
     sc < tok_start offsets (s + 1)) /\
    ((forall k, e <= k <= te -> ec <= tok_end offsets k) /\
     tok_end offsets (e - 1) < ec) /\
    (ts <= s /\ s <= e /\ e <= te) /\
    (tok_start offsets s <= sc /\ ec <= tok_end offsets e) /\
    decode_span context offsets s e
    = Ok (str_slice context (tok_start offsets s) sc
          ++ str_slice context sc ec
          ++ str_slice context ec (tok_end offsets e))%string /\
    (tok_start offsets s = sc -> tok_end offsets e = ec ->
     decode_span context offsets s e = Ok (str_slice context sc ec)).
Proof.
  intros Hin Hs Ho Hspan Hne Hts Hte Hc Hpos Hsep (i & Hi & Hpi)
    (j & Hj0 & Hj & Hpj).
  destruct (index_from_spec ids cls 0 Hin) as (c & Hcls & _).
  rewrite (label_feature_answer cls por ids sids offsets ans c sc ec ts te)
    by assumption.
  pose proof Hc as [Hc1 Hc2].
  replace (tok_start offsets ts <=? sc) with true
    by (symmetry; now apply Z.leb_le).
  replace (tok_end offsets te >=? ec) with true
    by (symmetry; now apply Z.geb_le).
  cbn [andb].
  pose proof (first_before_last _ _ _ _ Hts Hte) as Hle.
  destruct (first_context_token_run _ _ _ Hts) as [_ Hts_r].
  destruct (last_context_token_run _ _ _ Hte) as [_ Hte_r].
  destruct (converge_run offsets sc ec ts te) as
    (a & b & Ha & Hb & (Hra & Hbefore & Hpa) & (Hrb & Hafter & Hpb));
    try lia.
  { exact Hc. }
  { exists i. split; [lia|exact Hpi]. }
  { exists j. split; [lia|exact Hpj]. }
  rewrite Ha, Hb. cbn [bind]. exists (a - 1), (b + 1).
  split; [reflexivity|].
  replace (a - 1 + 1) with a by lia. replace (b + 1 - 1) with b by lia.
  assert (Ha_le : a <= i).
  { destruct (Z_le_gt_dec a i) as [|Hgt]; [assumption|].
    specialize (Hbefore i ltac:(lia)). lia. }
  assert (Hb_ge : j <= b).
  { destruct (Z_le_gt_dec j b) as [|Hgt]; [assumption|].
    specialize (Hafter j ltac:(lia)). lia. }
  assert (Horder : a - 1 <= b + 1).
  { destruct (Z_le_gt_dec (a - 1) (b + 1)) as [|Hgt]; [assumption|].
    exfalso.
    pose proof (Hbefore (b + 2) ltac:(lia)) as H1.
    pose proof (Hafter (b + 1) ltac:(lia)) as H2.
    pose proof (Hsep (b + 1) ltac:(lia)) as H3.
    replace (b + 1 + 1) with (b + 2) in H3 by lia. lia. }
  assert (Hstart : tok_start offsets (a - 1) <= sc) by (apply Hbefore; lia).
  assert (Hend : ec <= tok_end offsets (b + 1)) by (apply Hafter; lia).
  assert (Hdecode :
            decode_span context offsets (a - 1) (b + 1)
            = Ok (str_slice context (tok_start offsets (a - 1))
                    (tok_end offsets (b + 1)))).
  { unfold decode_span.
    rewrite (getitem_nonneg offsets (a - 1) (0, 0)) by lia.
    rewrite (getitem_nonneg offsets (b + 1) (0, 0)) by lia.
    reflexivity. }
  split.
  { split; [|exact Hpa]. intros k Hk. apply Hbefore. lia. }
  split.
  { split; [|exact Hpb]. intros k Hk. apply Hafter. lia. }
  split; [lia|]. split; [now split|]. split.
  - assert (Hnn : 0 <= tok_start offsets (a - 1)) by (apply Hpos; lia).
    rewrite Hdecode. f_equal.
    rewrite (str_slice_split context (tok_start offsets (a - 1)) sc
               (tok_end offsets (b + 1))) by lia.
    f_equal. apply str_slice_split; lia.
  - intros E1 E2. rewrite Hdecode, E1, E2. reflexivity.
Qed.

Lemma span_labels_enclose_answer_witness :
  label_feature 101 true fox_ids fox_sids fox_offsets
    (mkAnswers ["quick"%string] [4]) = Ok (6, 6) /\
  decode_span fox_context fox_offsets 6 6 = Ok (str_slice fox_context 4 9).
Proof.
  destruct (span_labels_enclose_answer 101 true fox_ids fox_sids fox_offsets
              (mkAnswers ["quick"%string] [4]) fox_context 4 9 5 8)
    as (s & e & Hl & _ & _ & _ & _ & _ & Hexact).
  - cbn. tauto.
  - reflexivity.
  - reflexivity.
  - reflexivity.
  - reflexivity.
  - reflexivity.
  - reflexivity.
  - split; vm_compute; discriminate.
  - intros k Hk.
    assert (Hcases : k = 5 \/ k = 6 \/ k = 7 \/ k = 8) by lia.
    destruct Hcases as [E|[E|[E|E]]]; subst k; vm_compute; discriminate.
  - intros k Hk.
    assert (Hcases : k = 5 \/ k = 6 \/ k = 7) by lia.
    destruct Hcases as [E|[E|E]]; subst k; vm_compute; intros E; discriminate E.
  - exists 7. vm_compute. repeat split; discriminate.
  - exists 5. vm_compute. repeat split; discriminate.
  - assert (Hse : Ok (s, e) = Ok (6, 6)) by (rewrite <- Hl; reflexivity).
    inversion Hse. subst s e. split; [exact Hl|].
    apply Hexact; reflexivity.
Defined.

End SpanFacts.

(* ================================================================== *)
(** * Batches of features                                              *)
(* ================================================================== *)

Module BatchFacts.
Import Preprocess PreprocessSpec LabelSpec PreprocessExamples Validation
  ValidationExamples PyFacts PreprocessFacts ValidationFacts LabelFacts.

(** [prepare_train_features] returns one start and one end label per
    feature of the tokenizer's output, and the labels at index [n] are the
    ones of feature [n], computed from the answers of the example that the
    overflow mapping names for it. *)
Theorem train_labels_follow_features (cls : Z) (por : bool) (ex : examples)
  (enc : batch_encoding) (starts ends : list Z) :
  label_features cls por ex enc = Ok (starts, ends) ->
  List.length starts = List.length (offset_mapping enc) /\
  List.length ends = List.length (offset_mapping enc) /\
  forall (n : nat) (offsets : list offset),
    nth_error (offset_mapping enc) n = Some offsets ->
    exists ids sids sample_index ans s e,
      nth_error (input_ids enc) n = Some ids /\
      nth_error (sequence_ids enc) n = Some sids /\
      nth_error (overflow_to_sample_mapping enc) n = Some sample_index /\
      getitem (ex_answers ex) sample_index = Ok ans /\
      nth_error starts n = Some s /\ nth_error ends n = Some e /\
      label_feature cls por ids sids offsets ans = Ok (s, e).
Proof.
  intros H. unfold label_features in H.
  bind_ok H labels Hl. inversion H. subst starts ends.
  apply for_enumerate_each in Hl as [Hlen Hnth].
  rewrite !length_map. split; [exact Hlen|]. split; [exact Hlen|].
  intros n offsets Ho.
  destruct (nth_error labels n) as [[s e]|] eqn:Hse.
  - specialize (Hnth n offsets (s, e) Ho Hse). cbn [Z.add] in Hnth.
    bind_ok Hnth ids Hids. bind_ok Hnth sids Hsids.
    bind_ok Hnth sample_index Hsi. bind_ok Hnth ans Hans.
    apply getitem_nat in Hids, Hsids, Hsi.
    exists ids, sids, sample_index, ans, s, e.
    rewrite !nth_error_map, Hse. now repeat split.
  - apply nth_error_None in Hse.
    assert (n < List.length (offset_mapping enc))%nat
      by (apply nth_error_Some; congruence).
    lia.
Qed.

Lemma train_labels_follow_features_witness :
  List.length [7] = List.length (offset_mapping fox_encoding) /\
  List.length [7] = List.length (offset_mapping fox_encoding) /\
  forall (n : nat) (offsets : list offset),
    nth_error (offset_mapping fox_encoding) n = Some offsets ->
    exists ids sids sample_index ans s e,
      nth_error (input_ids fox_encoding) n = Some ids /\
      nth_error (sequence_ids fox_encoding) n = Some sids /\
      nth_error (overflow_to_sample_mapping fox_encoding) n = Some sample_index /\
      getitem [mkAnswers ["brown"%string] [10]] sample_index = Ok ans /\
      nth_error [7] n = Some s /\ nth_error [7] n = Some e /\
      label_feature 101 true ids sids offsets ans = Ok (s, e).
Proof.
  apply (train_labels_follow_features 101 true
           (mkExamples ["What color?"%string] [fox_context]
              [mkAnswers ["brown"%string] [10]])
           fox_encoding [7] [7]).
  reflexivity.
Defined.

(** The T5 [prepare_train_features] labels feature [n] from the answers
    of example [n] itself and measures the prefix on the question with
    its leading white space stripped ([str.lstrip]: the Unicode white
    space of any width, see [lstrip_strips_wide_space]). *)
Theorem T5_train_labels_follow_examples (eos pad : Z) (ex : examples)
  (tokenized_extras tokenized_examples : batch_encoding)
  (starts ends : list Z) :
  label_features_T5 eos pad ex tokenized_extras tokenized_examples
  = Ok (starts, ends) ->
  List.length starts = List.length (offset_mapping tokenized_examples) /\
  List.length ends = List.length (offset_mapping tokenized_examples) /\
  forall (n : nat) (offsets : list offset),
    nth_error (offset_mapping tokenized_examples) n = Some offsets ->
    exists ids extra_ids q ans s e,
      nth_error (input_ids tokenized_examples) n = Some ids /\
      nth_error (input_ids tokenized_extras) n = Some extra_ids /\
      nth_error (ex_question ex) n = Some q /\
      nth_error (ex_answers ex) n = Some ans /\
      nth_error starts n = Some s /\ nth_error ends n = Some e /\
      label_feature_T5 eos pad ids extra_ids (extra_input (lstrip q))
        offsets ans = Ok (s, e).
Proof.
  intros H. unfold label_features_T5 in H.
  bind_ok H labels Hl. inversion H. subst starts ends.
  apply for_enumerate_each in Hl as [Hlen Hnth].
  rewrite !length_map. split; [exact Hlen|]. split; [exact Hlen|].
  intros n offsets Ho.
  destruct (nth_error labels n) as [[s e]|] eqn:Hse.
  - specialize (Hnth n offsets (s, e) Ho Hse). cbn [Z.add] in Hnth.
    bind_ok Hnth ids Hids. bind_ok Hnth extra_ids Hx.
    bind_ok Hnth extra Hextra. bind_ok Hnth ans Hans.
    apply getitem_nat in Hids, Hx, Hextra, Hans.
    rewrite !nth_error_map in Hextra.
    destruct (nth_error (ex_question ex) n) as [q|] eqn:Hq; [|discriminate].
    inversion Hextra. subst extra.
    exists ids, extra_ids, q, ans, s, e.
    rewrite !nth_error_map, Hse. now repeat split.
  - apply nth_error_None in Hse.
    assert (n < List.length (offset_mapping tokenized_examples))%nat
      by (apply nth_error_Some; congruence).
    lia.
Qed.

Lemma T5_train_labels_follow_examples_witness :
  List.length [6] = List.length (offset_mapping ran_encoding) /\
  List.length [6] = List.length (offset_mapping ran_encoding) /\
  forall (n : nat) (offsets : list offset),
    nth_error (offset_mapping ran_encoding) n = Some offsets ->
    exists ids extra_ids q ans s e,
      nth_error (input_ids ran_encoding) n = Some ids /\
      nth_error (input_ids ran_extras) n = Some extra_ids /\
      nth_error [wide_question] n = Some q /\
      nth_error [mkAnswers ["fox"%string] [4]] n = Some ans /\
      nth_error [6] n = Some s /\ nth_error [6] n = Some e /\
      label_feature_T5 1 0 ids extra_ids (extra_input (lstrip q))
        offsets ans = Ok (s, e).
Proof.
  apply (T5_train_labels_follow_examples 1 0
           (mkExamples [wide_question] ["the fox ran"%string]
              [mkAnswers ["fox"%string] [4]])
           ran_extras ran_encoding [6] [6]).
  reflexivity.
Defined.



End BatchFacts.

(* ================================================================== *)
(** * Ranking (bm25_retrieval_base.py)                                 *)
(* ================================================================== *)

From Stdlib Require Import Sorted Permutation.

Module RankingFacts.
Import Retrieval RetrievalSpec RetrievalExamples PyFacts RetrievalFacts.

(** ** Sorted lists *)

Lemma StronglySorted_app_inv {A} (R : A -> A -> Prop) (l1 l2 : list A) :
  StronglySorted R (l1 ++ l2) ->
  StronglySorted R l1 /\ StronglySorted R l2 /\
  forall x y, In x l1 -> In y l2 -> R x y.
Proof.
  induction l1 as [|a l1 IH]; cbn [app]; intros H.
  - split; [constructor|]. split; [exact H|]. intros x y [].
  - apply StronglySorted_inv in H as [Hs Hf].
    destruct (IH Hs) as (H1 & H2 & H12).
    rewrite Forall_app in Hf. destruct Hf as [Hf1 Hf2].
    split; [now constructor|]. split; [exact H2|].
    intros x y [<-|Hx] Hy.
    + rewrite Forall_forall in Hf2. now apply Hf2.
    + now apply H12.
Qed.

Lemma StronglySorted_app {A} (R : A -> A -> Prop) (l1 l2 : list A) :
  StronglySorted R l1 -> StronglySorted R l2 ->
  (forall x y, In x l1 -> In y l2 -> R x y) ->
  StronglySorted R (l1 ++ l2).
Proof.
  induction l1 as [|a l1 IH]; cbn [app]; intros H1 H2 H12; [exact H2|].
  apply StronglySorted_inv in H1 as [Hs Hf].
  constructor.
  - apply IH; auto. intros x y Hx. apply H12. now right.
  - rewrite Forall_app. split; [exact Hf|].
    rewrite Forall_forall. intros y Hy. apply H12; [now left|exact Hy].
Qed.

Lemma StronglySorted_rev {A} (R : A -> A -> Prop) (l : list A) :
  StronglySorted R l -> StronglySorted (fun x y => R y x) (rev l).
Proof.
  induction 1 as [|a l Hs IH Hf]; cbn [rev]; [constructor|].
  apply StronglySorted_app; [exact IH|repeat constructor|].
  intros x y Hx [<-|[]]. rewrite Forall_forall in Hf.
  apply Hf. now apply in_rev.
Qed.

Lemma StronglySorted_map {A B} (f : A -> B) (R : B -> B -> Prop) (l : list A) :
  StronglySorted (fun x y => R (f x) (f y)) l -> StronglySorted R (map f l).
Proof.
  induction 1 as [|a l Hs IH Hf]; cbn [map]; constructor; [exact IH|].
  rewrite Forall_map. exact Hf.
Qed.

(** Two descending arrangements of the same numbers are equal. *)
Lemma descending_unique (l1 l2 : list Z) :
  Permutation l1 l2 ->
  StronglySorted (fun x y => y <= x) l1 ->
  StronglySorted (fun x y => y <= x) l2 ->
  l1 = l2.
Proof.
  revert l2. induction l1 as [|a l1 IH]; intros l2 Hp H1 H2.
  - apply Permutation_nil in Hp. now subst.
  - destruct l2 as [|b l2];
      [apply Permutation_sym, Permutation_nil in Hp; discriminate|].
    apply StronglySorted_inv in H1 as [Hs1 Hf1].
    apply StronglySorted_inv in H2 as [Hs2 Hf2].
    rewrite Forall_forall in Hf1, Hf2.
    assert (a = b).
    { assert (Hb : In b (a :: l1))
        by (apply (Permutation_in b (Permutation_sym Hp)); now left).
      assert (Ha : In a (b :: l2)) by (apply (Permutation_in a Hp); now left).
      destruct Hb as [|Hb]; [assumption|]. destruct Ha as [|Ha]; [now symmetry|].
      specialize (Hf1 b Hb). specialize (Hf2 a Ha). lia. }
    subst b. f_equal. apply IH; auto.
    now apply Permutation_cons_inv in Hp.
Qed.

(** ** [argsort] *)

Lemma insert_by_perm (key : Z -> score) (i : Z) (l : list Z) :
  Permutation (i :: l) (insert_by key i l).
Proof.
  induction l as [|j l IH]; cbn [insert_by]; [reflexivity|].
  destruct (key i <=? key j); [reflexivity|].
  rewrite perm_swap. now constructor.
Qed.

Lemma insert_by_sorted (key : Z -> score) (i : Z) (l : list Z) :
  StronglySorted (fun x y => key x <= key y) l ->
  StronglySorted (fun x y => key x <= key y) (insert_by key i l).
Proof.
  induction 1 as [|j l Hs IH Hf]; cbn [insert_by]; [repeat constructor|].
  destruct (key i <=? key j) eqn:E.
  - apply Z.leb_le in E. constructor; [now constructor|].
    constructor; [exact E|].
    rewrite Forall_forall in *. intros y Hy. specialize (Hf y Hy). lia.
  - apply Z.leb_gt in E. constructor; [exact IH|].
    rewrite Forall_forall in *. intros y Hy.
    apply (Permutation_in y (Permutation_sym (insert_by_perm key i l))) in Hy.
    destruct Hy as [<-|Hy]; [lia|now apply Hf].
Qed.

Definition key_of (a : list score) (i : Z) : score := nth (Z.to_nat i) a 0.

Lemma argsort_perm (a : list score) :
  Permutation (range (len a)) (argsort a).
Proof.
  unfold argsort. induction (range (len a)) as [|i l IH]; cbn [fold_right];
    [reflexivity|].
  rewrite <- insert_by_perm. now constructor.
Qed.

Lemma argsort_sorted (a : list score) :
  StronglySorted (fun x y => key_of a x <= key_of a y) (argsort a).
Proof.
  unfold argsort. induction (range (len a)) as [|i l IH]; cbn [fold_right];
    [constructor|].
  now apply insert_by_sorted.
Qed.

Lemma range_In (n i : Z) : In i (range n) <-> 0 <= i < n.
Proof.
  unfold range. rewrite in_map_iff. split.
  - intros (k & <- & Hk). apply in_seq in Hk. lia.
  - intros Hi. exists (Z.to_nat i). split; [lia|]. apply in_seq. lia.
Qed.

Lemma range_NoDup (n : Z) : NoDup (range n).
Proof.
  unfold range. apply Finite.Injective_map_NoDup; [|apply seq_NoDup].
  intros x y H. lia.
Qed.

Lemma take_indices_valid {A} (a : list A) (d : A) (idx : list Z) :
  Forall (fun i => 0 <= i < len a) idx ->
  take_indices a idx = Ok (map (fun i => nth (Z.to_nat i) a d) idx).
Proof.
  induction 1 as [|i idx Hi Hf IH]; cbn [take_indices map]; [reflexivity|].
  rewrite (getitem_nonneg a i d Hi). cbn [bind]. now rewrite IH.
Qed.

Lemma map_nth_seq (a : list score) :
  map (fun k => nth k a 0) (seq 0 (List.length a)) = a.
Proof.
  induction a as [|x a IH]; [reflexivity|].
  cbn [List.length seq map nth]. f_equal.
  rewrite <- seq_shift, map_map. exact IH.
Qed.

Lemma map_key_range (a : list score) : map (key_of a) (range (len a)) = a.
Proof.
  unfold range, len, key_of. rewrite Nat2Z.id, map_map.
  rewrite <- (map_nth_seq a) at 2. apply map_ext. intros k.
  now rewrite Nat2Z.id.
Qed.

Lemma key_of_opp (a : list score) (i : Z) :
  key_of (map Z.opp a) i = - key_of a i.
Proof. unfold key_of. now rewrite (map_nth Z.opp a 0). Qed.

Lemma len_map {A B} (f : A -> B) (l : list A) : len (map f l) = len l.
Proof. unfold len. now rewrite length_map. Qed.

(** Both ways in which the source ranks the passages give the same
    scores in the same order. *)
Lemma descending_scores_agree (raw : list score) :
  map (key_of raw) (argsort (map Z.opp raw))
  = map (key_of raw) (rev (argsort raw)).
Proof.
  apply descending_unique.
  - apply Permutation_trans with (map (key_of raw) (range (len raw))).
    + apply Permutation_map.
      replace (len raw) with (len (map Z.opp raw))
        by (unfold len; now rewrite length_map).
      apply Permutation_sym, argsort_perm.
    + apply Permutation_map.
      apply Permutation_trans with (argsort raw);
        [apply argsort_perm|apply Permutation_rev].
  - apply StronglySorted_map.
    pose proof (argsort_sorted (map Z.opp raw)) as H.
    eapply StronglySorted_ind with (l := argsort (map Z.opp raw));
      [constructor| |exact H].
    intros a l Hs IH Hf. constructor; [exact IH|].
    rewrite Forall_forall in *. intros y Hy. specialize (Hf y Hy).
    rewrite !key_of_opp in Hf. lia.
  - apply StronglySorted_map.
    apply (StronglySorted_rev (fun x y => key_of raw x <= key_of raw y)).
    apply argsort_sorted.
Qed.

(** ** Slices that start at 0 *)

Lemma slice_0 {A} (l : list A) (k : Z) :
  slice l 0 k = firstn (Z.to_nat (clamp (len l) k)) l.
Proof.
  unfold slice. pose proof (len_nonneg l).
  replace (clamp (len l) 0) with 0
    by (unfold clamp; cbn; symmetry; apply Z.min_l; lia).
  cbn [Z.to_nat skipn]. now rewrite Z.sub_0_r.
Qed.

Lemma slice_0_map {A B} (f : A -> B) (l : list A) (k : Z) :
  slice (map f l) 0 k = map f (slice l 0 k).
Proof. now rewrite !slice_0, len_map, firstn_map. Qed.

Lemma slice_0_len {A} (l : list A) (k : Z) :
  0 <= k -> len (slice l 0 k) = Z.min k (len l).
Proof.
  intros Hk. rewrite slice_0. unfold clamp.
  replace (k <? 0) with false by (symmetry; apply Z.ltb_ge; lia).
  unfold len. rewrite length_firstn. lia.
Qed.

(** ** What a ranking is, whatever the order of equal scores *)

(** [top_n] is a best ranking of [k] passages for the scores [raw]:
    distinct passages, in descending order of score, none left out that
    scores higher than one that is in, and [k] of them (all the passages
    when there are fewer) when [k] is not negative. *)
Definition best_of (raw : list score) (k : Z) (top_n : list Z) : Prop :=
  NoDup top_n /\
  Forall (fun i => 0 <= i < len raw) top_n /\
  StronglySorted (fun i j => key_of raw j <= key_of raw i) top_n /\
  (forall i j, 0 <= i < len raw -> ~ In i top_n -> In j top_n ->
     key_of raw i <= key_of raw j) /\
  (0 <= k -> len top_n = Z.min k (len raw)).

(** The ranking [argsort(scores)[::-1][:k]] is a best ranking whichever
    sorting routine stands behind [argsort], as long as it returns a
    permutation of the indices that sorts the array. *)
Section AnySortingRoutine.

Variable sorting : list score -> list Z.

Hypothesis sorting_permutes :
  forall a, Permutation (range (len a)) (sorting a).
Hypothesis sorting_sorts :
  forall a, StronglySorted (fun x y => key_of a x <= key_of a y) (sorting a).

Lemma top_is_best (raw : list score) (k : Z) :
  best_of raw k (slice (rev (sorting raw)) 0 k).
Proof.
  set (full := rev (sorting raw)).
  assert (Hperm : Permutation (range (len raw)) full).
  { apply Permutation_trans with (sorting raw);
      [apply sorting_permutes|apply Permutation_rev]. }
  assert (Hsplit : full = slice full 0 k
                          ++ skipn (Z.to_nat (clamp (len full) k)) full).
  { rewrite slice_0. symmetry. apply firstn_skipn. }
  assert (Hsorted : StronglySorted (fun x y => key_of raw y <= key_of raw x)
                      full).
  { apply (StronglySorted_rev (fun x y => key_of raw x <= key_of raw y)).
    apply sorting_sorts. }
  assert (Hin : forall i, In i full <-> 0 <= i < len raw).
  { intros i. rewrite <- range_In. split; intros H.
    - now apply (Permutation_in i (Permutation_sym Hperm)).
    - now apply (Permutation_in i Hperm). }
  rewrite Hsplit in Hsorted.
  apply StronglySorted_app_inv in Hsorted as (Hs1 & _ & Hcross).
  repeat split.
  - apply (NoDup_app_remove_r _ (skipn (Z.to_nat (clamp (len full) k)) full)).
    rewrite <- Hsplit. apply (Permutation_NoDup Hperm), range_NoDup.
  - rewrite Forall_forall. intros i Hi. apply Hin. rewrite Hsplit.
    apply in_or_app. now left.
  - exact Hs1.
  - intros i j Hi Hout Hj. apply Hcross; [exact Hj|].
    apply Hin in Hi. rewrite Hsplit in Hi. apply in_app_or in Hi. tauto.
  - intros Hk. rewrite slice_0_len by exact Hk. f_equal.
    unfold full, len.
    rewrite length_rev, <- (Permutation_length (sorting_permutes raw)).
    unfold range. rewrite length_map, length_seq. unfold len. lia.
Qed.

End AnySortingRoutine.

Lemma argsort_top_is_best (raw : list score) (k : Z) :
  best_of raw k (slice (rev (argsort raw)) 0 k).
Proof. exact (top_is_best argsort argsort_perm argsort_sorted raw k). Qed.

Lemma Forall2_map_r {A B} (P : A -> B -> Prop) (f : A -> B) (l : list A) :
  (forall x, In x l -> P x (f x)) -> Forall2 P l (map f l).
Proof.
  induction l as [|x l IH]; intros H; cbn [map]; constructor.
  - apply H. now left.
  - apply IH. intros y Hy. apply H. now right.
Qed.

(** ** [get_relevant_doc] on an index that matches the corpus *)

Section Ranking.

Variable token : Type.
Variable tokenize_fn : string -> list token.
Variable okapi : list (list token) -> list token -> list score.

(** The ranking library scores every passage of the indexed corpus. *)
Hypothesis okapi_scores_every_passage :
  forall corpus query, List.length (okapi corpus query) = List.length corpus.

Lemma get_relevant_doc_run (self : BM25SparseRetrieval token)
  (b : BM25Okapi token) (q : string) (k : Z) (log : list event) :
  len (corpus b) = len (contexts self) ->
  let raw := get_scores token okapi b (tokenize_fn q) in
  let top_n := slice (rev (argsort raw)) 0 k in
  get_relevant_doc token tokenize_fn okapi self b q k log
  = (log ++ [GetScores q],
     Ok (map (key_of raw) top_n,
         map VStr (map (fun i => nth (Z.to_nat i) (contexts self) EmptyString)
                     top_n))) /\
  Forall (fun i => 0 <= i < len (contexts self)) (rev (argsort raw)) /\
  get_top_n token okapi b (tokenize_fn q) (contexts self) k
  = Ok (map (fun i => nth (Z.to_nat i) (contexts self) EmptyString) top_n).
Proof.
  intros Hmatch raw top_n.
  assert (Hraw : len raw = len (contexts self)).
  { rewrite <- Hmatch. unfold raw, get_scores, len.
    now rewrite okapi_scores_every_passage. }
  assert (Hvalid : forall i, In i (rev (argsort raw)) -> 0 <= i < len raw).
  { intros i Hi. apply in_rev in Hi.
    apply (Permutation_in i (Permutation_sym (argsort_perm raw))) in Hi.
    now apply range_In. }
  assert (Hall : Forall (fun i => 0 <= i < len (contexts self))
                   (rev (argsort raw))).
  { rewrite Forall_forall. intros i Hi. rewrite <- Hraw. now apply Hvalid. }
  assert (Htop : Forall (fun i => 0 <= i < len (contexts self)) top_n).
  { rewrite Forall_forall in *. intros i Hi. apply Hall.
    unfold top_n in Hi. rewrite slice_0 in Hi.
    rewrite <- (firstn_skipn (Z.to_nat (clamp (len (rev (argsort raw))) k))
                  (rev (argsort raw))).
    apply in_or_app. now left. }
  assert (Hget : get_top_n token okapi b (tokenize_fn q) (contexts self) k
                 = Ok (map (fun i => nth (Z.to_nat i) (contexts self) EmptyString)
                         top_n)).
  { unfold get_top_n. rewrite Hmatch, Z.eqb_refl. cbn [negb].
    fold raw. fold top_n. now apply take_indices_valid. }
  split; [|split; assumption].
  unfold get_relevant_doc, mbind, emit, lift, ret. fold raw.
  rewrite (take_indices_valid raw 0).
  - fold (key_of raw). rewrite descending_scores_agree, Hget.
    now rewrite slice_0_map.
  - rewrite Forall_forall. intros i Hi.
    apply (Permutation_in i (Permutation_sym (argsort_perm (map Z.opp raw))))
      in Hi.
    apply range_In in Hi. now rewrite len_map in Hi.
Qed.

(** On an index built over the loaded corpus, [get_relevant_doc] returns
    the texts of [k] distinct passages (all of them when there are fewer)
    together with the score of each, rank by rank; the scores are in
    descending order and no passage left out scores higher than one that
    is returned. The scores and the texts come from two separate rankings
    of the same scores, and they agree. *)
Theorem get_relevant_doc_returns_best_passages
  (self : BM25SparseRetrieval token) (b : BM25Okapi token) (q : string)
  (k : Z) (log : list event) :
  len (corpus b) = len (contexts self) ->
  exists top_n doc_scores doc_list,
    get_relevant_doc token tokenize_fn okapi self b q k log
    = (log ++ [GetScores q], Ok (doc_scores, map VStr doc_list)) /\
    NoDup top_n /\
    Forall (fun i => 0 <= i < len (contexts self)) top_n /\
    take_indices (get_scores token okapi b (tokenize_fn q)) top_n
    = Ok doc_scores /\
    take_indices (contexts self) top_n = Ok doc_list /\
    StronglySorted (fun x y => y <= x) doc_scores /\
    (forall i, 0 <= i < len (contexts self) -> ~ In i top_n ->
       forall s, In s doc_scores ->
         key_of (get_scores token okapi b (tokenize_fn q)) i <= s) /\
    (0 <= k -> len top_n = Z.min k (len (contexts self))).
Proof.
  intros Hmatch.
  destruct (get_relevant_doc_run self b q k log Hmatch) as (Hrun & Hall & _).
  set (raw := get_scores token okapi b (tokenize_fn q)) in *.
  set (full := rev (argsort raw)) in *.
  set (top_n := slice full 0 k) in *.
  assert (Hraw : len raw = len (contexts self)).
  { rewrite <- Hmatch. unfold raw, get_scores, len.
    now rewrite okapi_scores_every_passage. }
  assert (Hperm : Permutation (range (len raw)) full).
  { apply Permutation_trans with (argsort raw);
      [apply argsort_perm|apply Permutation_rev]. }
  assert (Hsplit : full = top_n ++ skipn (Z.to_nat (clamp (len full) k)) full).
  { unfold top_n. rewrite slice_0. symmetry. apply firstn_skipn. }
  assert (Hsorted : StronglySorted (fun x y => key_of raw y <= key_of raw x) full).
  { apply (StronglySorted_rev (fun x y => key_of raw x <= key_of raw y)).
    apply argsort_sorted. }
  assert (Htop : Forall (fun i => 0 <= i < len (contexts self)) top_n).
  { rewrite Hsplit in Hall. now apply Forall_app in Hall. }
  exists top_n, (map (key_of raw) top_n),
    (map (fun i => nth (Z.to_nat i) (contexts self) EmptyString) top_n).
  split; [exact Hrun|].
  split.
  { apply (NoDup_app_remove_r top_n
             (skipn (Z.to_nat (clamp (len full) k)) full)).
    rewrite <- Hsplit. apply (Permutation_NoDup Hperm), range_NoDup. }
  split; [exact Htop|].
  split.
  { apply take_indices_valid. now rewrite Hraw. }
  split; [now apply take_indices_valid|].
  rewrite Hsplit in Hsorted.
  apply StronglySorted_app_inv in Hsorted as (Hs1 & _ & Hcross).
  split; [now apply StronglySorted_map|].
  split.
  - intros i Hi Hout s Hs. apply in_map_iff in Hs as (x & <- & Hx).
    apply Hcross; [exact Hx|].
    assert (Hin : In i full).
    { apply (Permutation_in i Hperm). apply range_In. now rewrite Hraw. }
    rewrite Hsplit in Hin. apply in_app_or in Hin. tauto.
  - intros Hk. unfold top_n. rewrite slice_0_len by exact Hk.
    f_equal. rewrite <- Hraw. unfold full, len.
    rewrite length_rev, <- (Permutation_length (argsort_perm raw)).
    unfold range. rewrite length_map, length_seq. unfold len. lia.
Qed.

(** ** The two forms of [retrieve] on such an index *)

Lemma for_each_run {A B} (body : A -> M B) (ev : A -> list event)
  (f : A -> B) (l : list A) :
  (forall x, In x l -> forall log, body x log = (log ++ ev x, Ok (f x))) ->
  forall log,
    for_each l body log = (log ++ List.concat (map ev l), Ok (map f l)).
Proof.
  induction l as [|x l IH]; intros Hbody log; cbn [for_each map List.concat].
  - unfold ret. now rewrite app_nil_r.
  - unfold mbind at 1. rewrite (Hbody x (or_introl eq_refl)).
    unfold mbind at 1. rewrite IH by (intros y Hy; apply Hbody; now right).
    unfold ret. now rewrite app_assoc.
Qed.

Lemma concat_map_singleton {A B} (g : A -> B) (l : list A) :
  List.concat (map (fun x => [g x]) l) = map g l.
Proof.
  induction l as [|x l IH]; [reflexivity|].
  cbn [map List.concat app]. now rewrite IH.
Qed.

Lemma concat_map_nil {A B} (l : list A) :
  List.concat (map (fun _ => @nil B) l) = [].
Proof. induction l as [|x l IH]; [reflexivity|exact IH]. Qed.

Lemma combine_seq_In {A} (l : list A) :
  forall (start : nat) (i : Z) (x : A),
    In (i, x) (combine (map Z.of_nat (seq start (List.length l))) l) ->
    (start <= Z.to_nat i)%nat /\ 0 <= i /\
    nth_error l (Z.to_nat i - start) = Some x.
Proof.
  induction l as [|y l IH]; intros start i x H; [destruct H|].
  cbn [List.length seq map combine] in H. destruct H as [H|H].
  - inversion H. subst. rewrite Nat2Z.id, Nat.sub_diag. repeat split; lia.
  - apply IH in H as (H1 & H2 & H3). split; [lia|]. split; [exact H2|].
    replace (Z.to_nat i - start)%nat with (S (Z.to_nat i - S start)) by lia.
    exact H3.
Qed.

Lemma map_snd_combine_range {A} (l : list A) :
  map snd (combine (range (len l)) l) = l.
Proof.
  unfold range, len. rewrite Nat2Z.id. generalize 0%nat.
  induction l as [|x l IH]; intros start; [reflexivity|].
  cbn [List.length seq map combine snd]. now rewrite IH.
Qed.

Lemma join_values_texts (doc_list : list string) :
  join_values (map VStr doc_list) = Ok doc_list.
Proof.
  induction doc_list as [|t l IH]; [reflexivity|].
  cbn [map join_values]. now rewrite IH.
Qed.

(** The passage texts the library picks for a question. *)
Definition top_texts (self : BM25SparseRetrieval token) (b : BM25Okapi token)
  (topk : Z) (q : string) : list string :=
  map (fun i => nth (Z.to_nat i) (contexts self) EmptyString)
    (slice (rev (argsort (get_scores token okapi b (tokenize_fn q)))) 0 topk).

(** The batch form on an index that matches the corpus, in closed form. *)
Lemma batch_retrieve_run
  (self : BM25SparseRetrieval token) (b : BM25Okapi token)
  (rows : list example) (topk : Z) (log : list event) :
  bm25 self = Some b ->
  len (corpus b) = len (contexts self) ->
  retrieve token tokenize_fn okapi self (ADataset rows) topk log
  = (log ++ map GetScores (map question rows)
         ++ [Print "[query exhaustive search] done"],
     Ok (RTable (map (fun ex => retrieved_row (top_texts self b topk (question ex)) ex)
                   rows))).
Proof.
  intros Hb Hmatch.
  unfold retrieve. rewrite Hb.
  unfold mbind at 1.
  rewrite (for_each_run _ (fun q => [GetScores q])
             (fun q => (map (key_of (get_scores token okapi b (tokenize_fn q)))
                          (slice (rev (argsort (get_scores token okapi b
                                                  (tokenize_fn q)))) 0 topk),
                        map VStr (top_texts self b topk q)))).
  2:{ intros q _ log0. apply (get_relevant_doc_run self b q topk log0 Hmatch). }
  unfold mbind at 1. unfold emit at 1. unfold mbind at 1.
  rewrite (for_each_run _ (fun _ => [])
             (fun ie => retrieved_row (top_texts self b topk (question (snd ie)))
                          (snd ie))).
  - unfold ret. rewrite concat_map_singleton, concat_map_nil, app_nil_r.
    rewrite <- app_assoc. f_equal. f_equal. f_equal.
    transitivity
      (map (fun ex => retrieved_row (top_texts self b topk (question ex)) ex)
         (map snd (combine (range (len rows)) rows)));
      [now rewrite map_map|now rewrite map_snd_combine_range].
  - intros [idx ex] Hin log0. cbn [snd].
    unfold range, len in Hin. rewrite Nat2Z.id in Hin.
    apply combine_seq_In in Hin as (_ & Hidx & Hnth).
    rewrite Nat.sub_0_r in Hnth.
    unfold mbind, lift, ret.
    assert (Hget : getitem (map snd (map (fun q =>
                      (map (key_of (get_scores token okapi b (tokenize_fn q)))
                         (slice (rev (argsort (get_scores token okapi b
                                                 (tokenize_fn q)))) 0 topk),
                       map VStr (top_texts self b topk q)))
                      (map question rows))) idx
                   = Ok (map VStr (top_texts self b topk (question ex)))).
    { rewrite <- (Z2Nat.id idx Hidx). apply ValidationFacts.getitem_nat.
      rewrite !nth_error_map, Hnth. reflexivity. }
    rewrite Hget, join_values_texts, app_nil_r. reflexivity.
Qed.

(** On an index that matches the corpus the batch form returns one row
    per example, in order. The row of an example carries its question and
    id; as [context_id] the texts of a best ranking of [topk] passages for
    the question (distinct passages in descending order of score, none
    left out that scores higher; the order among equal scores is the
    library's), and as [context] these texts joined by single spaces; and
    the example's own context and answers when it has both. The engine
    asks the library for the scores of every question, in order (line 120;
    the library's [get_top_n] scores the question again on its own), and
    the timer's line follows. *)
Theorem batch_retrieve_returns_one_row_per_example
  (self : BM25SparseRetrieval token) (b : BM25Okapi token)
  (rows : list example) (topk : Z) (log : list event) :
  bm25 self = Some b ->
  len (corpus b) = len (contexts self) ->
  exists total,
    retrieve token tokenize_fn okapi self (ADataset rows) topk log
    = (log ++ map GetScores (map question rows)
           ++ [Print "[query exhaustive search] done"],
       Ok (RTable total)) /\
    Forall2
      (fun ex r =>
         exists top_n doc_list,
           best_of (get_scores token okapi b (tokenize_fn (question ex)))
             topk top_n /\
           take_indices (contexts self) top_n = Ok doc_list /\
           r = retrieved_row doc_list ex)
      rows total.
Proof.
  intros Hb Hmatch. eexists. split.
  - exact (batch_retrieve_run self b rows topk log Hb Hmatch).
  - apply Forall2_map_r. intros ex _.
    set (raw := get_scores token okapi b (tokenize_fn (question ex))).
    assert (Hraw : len raw = len (contexts self)).
    { rewrite <- Hmatch. unfold raw, get_scores, len.
      now rewrite okapi_scores_every_passage. }
    exists (slice (rev (argsort raw)) 0 topk),
      (top_texts self b topk (question ex)).
    pose proof (argsort_top_is_best raw topk) as Hbest.
    split; [exact Hbest|]. split; [|reflexivity].
    unfold top_texts. fold raw. apply take_indices_valid.
    destruct Hbest as (_ & Hvalid & _). now rewrite <- Hraw.
Qed.

(** Building the index when no file exists: when some passage has a
    token it tokenizes every passage, in order, hands the index to
    [pickle.dump] and leaves the passages as they were. *)
Lemma index_build_matches_corpus (self : BM25SparseRetrieval token) :
  forallb (no_token token) (map tokenize_fn (contexts self)) = false ->
  exists built b,
    get_sparse_embedding token tokenize_fn self None = Ok (built, Some b) /\
    bm25 built = Some b /\
    corpus b = map tokenize_fn (contexts self) /\
    len (corpus b) = len (contexts built) /\
    contexts built = contexts self /\
    ids built = ids self.
Proof.
  intros Hsome. unfold get_sparse_embedding, new_BM25Okapi.
  rewrite Hsome. cbn [bind]. eexists. eexists. split; [reflexivity|].
  cbn [bm25 corpus contexts ids]. unfold len. rewrite length_map.
  repeat split.
Qed.

(** The life of an engine. Freshly constructed from a corpus object it
    answers no call: every [retrieve] fails the assertion and nothing is
    scored or printed. Building the index (no file present) raises
    [ZeroDivisionError] when no passage has a token, as when the corpus
    object is empty. Otherwise it succeeds, the index covers the tokenized
    passages, and the batch form then returns a table with one row per
    example, carrying the examples' questions and ids in order. *)
Theorem engine_retrieves_once_index_is_built
  (path : string) (wiki : list (string * document)) (rows : list example)
  (arg : argument) (topk : Z) (log : list event) :
  let fresh := init token path wiki in
  let tokenized := map tokenize_fn (contexts fresh) in
  retrieve token tokenize_fn okapi fresh arg topk log
  = (log, Err AssertionError) /\
  (wiki = [] -> forallb (no_token token) tokenized = true) /\
  (forallb (no_token token) tokenized = true ->
   get_sparse_embedding token tokenize_fn fresh None = Err ZeroDivisionError) /\
  (forallb (no_token token) tokenized = false ->
   exists built b total,
     get_sparse_embedding token tokenize_fn fresh None = Ok (built, Some b) /\
     bm25 built = Some b /\
     corpus b = tokenized /\
     contexts built = contexts fresh /\
     retrieve token tokenize_fn okapi built (ADataset rows) topk log
     = (log ++ map GetScores (map question rows)
            ++ [Print "[query exhaustive search] done"],
        Ok (RTable total)) /\
     map r_question total = map question rows /\
     map r_id total = map id rows).
Proof.
  cbv zeta. split; [reflexivity|]. split; [|split].
  - intros ->. reflexivity.
  - intros Hnone. unfold get_sparse_embedding, new_BM25Okapi.
    now rewrite Hnone.
  - intros Hsome.
    destruct (index_build_matches_corpus (init token path wiki) Hsome)
      as (built & b & Hbuild & Hb & Hcorpus & Hlen & Hctx & _).
    exists built, b. eexists.
    split; [exact Hbuild|]. split; [exact Hb|]. split; [exact Hcorpus|].
    split; [exact Hctx|]. split.
    + exact (batch_retrieve_run built b rows topk log Hb Hlen).
    + rewrite !map_map. split; reflexivity.
Qed.

(** The single-query form on such an index, over a corpus that is not
    empty: with [topk >= 1] the call raises [TypeError]; with [topk <= 0]
    it returns a pair whose list of passages is empty. No single-query
    call returns a passage. *)
Theorem single_query_returns_no_passage
  (self : BM25SparseRetrieval token) (b : BM25Okapi token) (q : string)
  (topk : Z) (log : list event) :
  bm25 self = Some b ->
  len (corpus b) = len (contexts self) ->
  0 < len (contexts self) ->
  (1 <= topk ->
   snd (retrieve token tokenize_fn okapi self (AStr q) topk log)
   = Err TypeError) /\
  (topk <= 0 ->
   exists doc_scores,
     snd (retrieve token tokenize_fn okapi self (AStr q) topk log)
     = Ok (RPair doc_scores [])).
Proof.
  intros Hb Hmatch Hne.
  destruct (get_relevant_doc_run self b q topk log Hmatch) as (Hrun & _ & _).
  cbv zeta in Hrun.
  set (raw := get_scores token okapi b (tokenize_fn q)) in *.
  set (top_n := slice (rev (argsort raw)) 0 topk) in *.
  split.
  - intros Hk. unfold retrieve. rewrite Hb.
    unfold mbind at 1. rewrite Hrun.
    assert (Hlen : len top_n = Z.min topk (len (contexts self))).
    { assert (Hraw : len raw = len (contexts self)).
      { rewrite <- Hmatch. unfold raw, get_scores, len.
        now rewrite okapi_scores_every_passage. }
      assert (Hfull : len (rev (argsort raw)) = len raw).
      { unfold len.
        rewrite length_rev, <- (Permutation_length (argsort_perm raw)).
        unfold range. rewrite length_map, length_seq. unfold len. lia. }
      unfold top_n. rewrite slice_0_len by lia. now rewrite Hfull, Hraw. }
    destruct top_n as [|i0 rest] eqn:Etop.
    { change (len (@nil Z)) with 0 in Hlen. lia. }
    unfold range. destruct (Z.to_nat topk) as [|n] eqn:En; [lia|].
    cbn [seq map for_each].
    unfold mbind, emit, lift, ret. cbn [Z.of_nat].
    rewrite !getitem_head. cbn [contexts_getitem snd]. reflexivity.
  - intros Hk. unfold retrieve. rewrite Hb.
    unfold mbind at 1. rewrite Hrun.
    replace (range topk) with (@nil Z)
      by (unfold range; now replace (Z.to_nat topk) with 0%nat by lia).
    cbn [for_each]. unfold mbind, emit, ret. cbn [snd].
    eexists. reflexivity.
Qed.

End Ranking.

Lemma count_hits_scores_every_passage :
  forall corpus query,
    List.length (count_hits corpus query) = List.length corpus.
Proof. intros. unfold count_hits. apply length_map. Qed.

Lemma get_relevant_doc_returns_best_passages_witness :
  exists top_n doc_scores doc_list,
    get_relevant_doc string char_tokens count_hits toy_engine
      (mkBM25 string (map char_tokens ["ab"; "cd"; "bcd"]%string)) "cd" 2 []
    = ([GetScores "cd"], Ok (doc_scores, map VStr doc_list)) /\
    NoDup top_n /\
    take_indices (contexts toy_engine) top_n = Ok doc_list /\
    StronglySorted (fun x y => y <= x) doc_scores /\
    len top_n = 2.
Proof.
  destruct (get_relevant_doc_returns_best_passages string char_tokens
              count_hits count_hits_scores_every_passage toy_engine
              (mkBM25 string (map char_tokens ["ab"; "cd"; "bcd"]%string))
              "cd" 2 [])
    as (top_n & sc & dl & Hrun & Hnd & _ & _ & Hdl & Hsorted & _ & Hlen).
  - reflexivity.
  - exists top_n, sc, dl. repeat split; auto.
    rewrite Hlen by lia. reflexivity.
Defined.

Lemma batch_retrieve_returns_one_row_per_example_witness :
  exists total,
    retrieve string char_tokens count_hits toy_engine (ADataset toy_dataset) 2 []
    = ([] ++ map GetScores (map question toy_dataset)
          ++ [Print "[query exhaustive search] done"],
       Ok (RTable total)) /\
    Forall2
      (fun ex r =>
         exists top_n doc_list,
           best_of (get_scores string count_hits
                      (mkBM25 string (map char_tokens ["ab"; "cd"; "bcd"]%string))
                      (char_tokens (question ex)))
             2 top_n /\
           take_indices (contexts toy_engine) top_n = Ok doc_list /\
           r = retrieved_row doc_list ex)
      toy_dataset total.
Proof.
  apply (batch_retrieve_returns_one_row_per_example string char_tokens
           count_hits count_hits_scores_every_passage toy_engine
           (mkBM25 string (map char_tokens ["ab"; "cd"; "bcd"]%string))
           toy_dataset 2 [] eq_refl eq_refl).
Defined.

Lemma single_query_returns_no_passage_witness :
  snd (retrieve string char_tokens count_hits toy_engine (AStr "cd") 1 [])
  = Err TypeError /\
  exists doc_scores,
    snd (retrieve string char_tokens count_hits toy_engine (AStr "cd") 0 [])
    = Ok (RPair doc_scores []).
Proof.
  split.
  - apply (proj1 (single_query_returns_no_passage string char_tokens
                    count_hits count_hits_scores_every_passage toy_engine
                    (mkBM25 string (map char_tokens ["ab"; "cd"; "bcd"]%string))
                    "cd" 1 [] eq_refl eq_refl eq_refl)).
    lia.
  - apply (proj2 (single_query_returns_no_passage string char_tokens
                    count_hits count_hits_scores_every_passage toy_engine
                    (mkBM25 string (map char_tokens ["ab"; "cd"; "bcd"]%string))
                    "cd" 0 [] eq_refl eq_refl eq_refl)).
    lia.
Defined.

Lemma engine_retrieves_once_index_is_built_witness :
  retrieve string char_tokens count_hits (init string "/opt/ml/data/" toy_wiki)
    (AStr "cd") 1 [] = ([], Err AssertionError) /\
  get_sparse_embedding string char_tokens
    (init string "/opt/ml/data/" [("0"%string, mkDocument "")])
    None = Err ZeroDivisionError /\
  exists built b total,
    get_sparse_embedding string char_tokens
      (init string "/opt/ml/data/" toy_wiki) None = Ok (built, Some b) /\
    retrieve string char_tokens count_hits built (ADataset toy_dataset) 2 []
    = ([] ++ map GetScores (map question toy_dataset)
          ++ [Print "[query exhaustive search] done"],
       Ok (RTable total)) /\
    map r_question total = map question toy_dataset /\
    map r_id total = map id toy_dataset.
Proof.
  split; [|split].
  - apply (proj1 (engine_retrieves_once_index_is_built string char_tokens
                    count_hits count_hits_scores_every_passage "/opt/ml/data/"
                    toy_wiki toy_dataset (AStr "cd") 1 [])).
  - apply (proj1 (proj2 (proj2 (engine_retrieves_once_index_is_built string
                                  char_tokens count_hits
                                  count_hits_scores_every_passage
                                  "/opt/ml/data/"
                                  [("0"%string, mkDocument "")]
                                  toy_dataset (AStr "cd") 1 [])))).
    reflexivity.
  - destruct (proj2 (proj2 (proj2 (engine_retrieves_once_index_is_built string
                                     char_tokens count_hits
                                     count_hits_scores_every_passage
                                     "/opt/ml/data/" toy_wiki toy_dataset
                                     (AStr "cd") 2 []))))
      as (built & b & total & Hbuild & _ & _ & _ & Hrun & Hq & Hid).
    + reflexivity.
    + exists built, b, total. repeat split; assumption.
Defined.

(** ** The index and the corpus *)

Section IndexFacts.

Variable token : Type.
Variable tokenize_fn : string -> list token.
Variable okapi : list (list token) -> list token -> list score.

(** Before [get_sparse_embedding] every call of [retrieve], whatever its
    argument, fails the assertion and does nothing else. *)
Theorem retrieve_requires_built_index (self : BM25SparseRetrieval token)
  (arg : argument) (topk : Z) (log : list event) :
  bm25 self = None ->
  retrieve token tokenize_fn okapi self arg topk log = (log, Err AssertionError).
Proof. intros H. unfold retrieve. now rewrite H. Qed.

Lemma get_relevant_doc_stale (self : BM25SparseRetrieval token)
  (b : BM25Okapi token) (q : string) (k : Z) (log : list event) :
  len (corpus b) <> len (contexts self) ->
  get_relevant_doc token tokenize_fn okapi self b q k log
  = (log ++ [GetScores q], Err AssertionError).
Proof.
  intros Hne. unfold get_relevant_doc, mbind, emit, lift, ret.
  rewrite (take_indices_valid _ 0).
  - unfold get_top_n. apply Z.eqb_neq in Hne. rewrite Hne. reflexivity.
  - rewrite Forall_forall. intros i Hi.
    apply (Permutation_in i (Permutation_sym (argsort_perm _))) in Hi.
    apply range_In in Hi. now rewrite len_map in Hi.
Qed.

(** An index loaded for a corpus of another size than the one in memory
    is caught by the ranking library at the first question: the
    single-query form and the batch form on a non-empty dataset raise
    [AssertionError] after the first scoring. *)
Theorem index_of_other_size_is_rejected (self : BM25SparseRetrieval token)
  (b : BM25Okapi token) (q : string) (ex : example) (rows : list example)
  (topk : Z) (log : list event) :
  bm25 self = Some b ->
  len (corpus b) <> len (contexts self) ->
  retrieve token tokenize_fn okapi self (AStr q) topk log
  = (log ++ [GetScores q], Err AssertionError) /\
  retrieve token tokenize_fn okapi self (ADataset (ex :: rows)) topk log
  = (log ++ [GetScores (question ex)], Err AssertionError).
Proof.
  intros Hb Hne. unfold retrieve. rewrite Hb. split.
  - unfold mbind at 1. now rewrite get_relevant_doc_stale.
  - unfold mbind at 1. cbn [map for_each]. unfold mbind at 1.
    now rewrite get_relevant_doc_stale.
Qed.

End IndexFacts.

Lemma retrieve_requires_built_index_witness :
  retrieve string char_tokens count_hits (init string "/opt/ml/data/" toy_wiki)
    (AStr "cd") 1 [] = ([], Err AssertionError).
Proof.
  apply retrieve_requires_built_index. reflexivity.
Defined.

(** The toy engine after loading an index file written for a corpus of
    one passage. *)
Definition stale_engine : BM25SparseRetrieval string :=
  let fresh := init string "/opt/ml/data/" toy_wiki in
  match get_sparse_embedding string char_tokens fresh
          (Some (mkBM25 string [["a"%string]])) with
  | Ok (loaded, _) => loaded
  | Err _ => fresh
  end.

Lemma index_of_other_size_is_rejected_witness :
  retrieve string char_tokens count_hits stale_engine (AStr "cd") 1 []
  = ([] ++ [GetScores "cd"], Err AssertionError) /\
  retrieve string char_tokens count_hits stale_engine (ADataset toy_dataset) 1 []
  = ([] ++ [GetScores "cd"], Err AssertionError).
Proof.
  apply (index_of_other_size_is_rejected string char_tokens count_hits _
           (mkBM25 string [["a"%string]])).
  - reflexivity.
  - vm_compute. discriminate.
Defined.

Lemma unseen_distinct (l : list string) :
  forall seen,
    NoDup l -> (forall x, In x l -> ~ In x seen) -> unseen seen l = l.
Proof.
  induction l as [|x l IH]; intros seen Hnd Hfresh; [reflexivity|].
  cbn [unseen]. inversion Hnd as [|? ? Hx Hnd']. subst.
  destruct (existsb (String.eqb x) seen) eqn:E.
  - apply existsb_eqb_In in E. now destruct (Hfresh x (or_introl eq_refl)).
  - f_equal. apply IH; [exact Hnd'|].
    intros y Hy Hin. apply in_app_or in Hin as [Hin|[<-|[]]].
    + apply (Hfresh y); [now right|exact Hin].
    + contradiction.
Qed.

(** A corpus object whose texts are pairwise distinct is kept whole: the
    passage list is the list of its texts in file order. *)
Theorem init_keeps_distinct_texts (token : Type) (path : string)
  (wiki : list (string * document)) :
  NoDup (texts wiki) ->
  contexts (init token path wiki) = texts wiki.
Proof.
  intros Hnd. unfold init. cbn [contexts]. fold (texts wiki).
  rewrite dict_fromkeys_keys. apply unseen_distinct; [exact Hnd|].
  intros x _ [].
Qed.

Lemma init_keeps_distinct_texts_witness :
  contexts (init string "/opt/ml/data/"
              [("0", mkDocument "ab"); ("1", mkDocument "cd")]%string)
  = texts [("0", mkDocument "ab"); ("1", mkDocument "cd")]%string.
Proof.
  apply init_keeps_distinct_texts.
  repeat constructor; cbn; intuition discriminate.
Defined.

End RankingFacts.

(* ================================================================== *)
(** * Argument groups and dispatch, continued                          *)
(* ================================================================== *)

Module ConfigFacts.
Import Args EntryPoint EntryPointExamples.

Definition argument_groups : list (list attribute) :=
  [ ProjectArguments; ModelArguments; DataArguments; EarlyStoppingArguments;
    InferenceArguments ].

Definition known (cls : list attribute) (kv : string * pyval) : bool :=
  existsb (fun a => String.eqb (attr_name a) (fst kv)) cls.

Lemma lookup_map_field (cls : list attribute) (f : attribute -> pyval)
  (a : attribute) :
  NoDup (map attr_name cls) -> In a cls ->
  lookup (attr_name a) (map (fun a => (attr_name a, f a)) cls) = Some (f a).
Proof.
  induction cls as [|b cls IH]; intros Hnd Hin; [destruct Hin|].
  cbn [map] in Hnd. inversion Hnd as [|? ? Hb Hnd']. subst.
  cbn [map lookup]. destruct (String.eqb (attr_name b) (attr_name a)) eqn:E.
  - destruct Hin as [->|Hin]; [reflexivity|].
    apply String.eqb_eq in E. exfalso. apply Hb. rewrite E.
    now apply in_map.
  - destruct Hin as [->|Hin]; [rewrite String.eqb_refl in E; discriminate|].
    now apply IH.
Qed.

(** For each of the five argument groups: when every keyword names a
    field, construction succeeds, a field given by keyword has the given
    value and every other field has its default; a keyword that names no
    field makes construction raise [TypeError]. *)
Theorem keywords_override_defaults (cls : list attribute)
  (kwargs : list (string * pyval)) :
  In cls argument_groups ->
  (forallb (known cls) kwargs = true ->
   exists obj,
     construct cls kwargs = Ok obj /\
     forall a, In a cls ->
       getattr obj (attr_name a)
       = Some (match lookup (attr_name a) kwargs with
               | Some v => v
               | None => default_of a
               end)) /\
  (forallb (known cls) kwargs = false ->
   construct cls kwargs = Err TypeError).
Proof.
  intros Hcls. unfold construct. fold (known cls). split; intros Hk; rewrite Hk.
  - eexists. split; [reflexivity|]. intros a Ha. unfold getattr.
    apply (lookup_map_field cls
             (fun a => match lookup (attr_name a) kwargs with
                       | Some v => v
                       | None => default_of a
                       end)); [|exact Ha].
    cbn in Hcls.
    destruct Hcls as [<-|[<-|[<-|[<-|[<-|[]]]]]]; cbn;
      repeat constructor; cbn; intuition discriminate.
  - reflexivity.
Qed.

Lemma keywords_override_defaults_witness :
  (exists obj,
     construct DataArguments [("stride"%string, PInt 64)] = Ok obj /\
     forall a, In a DataArguments ->
       getattr obj (attr_name a)
       = Some (match lookup (attr_name a) [("stride"%string, PInt 64)] with
               | Some v => v
               | None => default_of a
               end)) /\
  construct DataArguments [("doc_stride"%string, PInt 64)] = Err TypeError.
Proof.
  split.
  - apply (proj1 (keywords_override_defaults DataArguments
                    [("stride"%string, PInt 64)]
                    (or_intror (or_intror (or_introl eq_refl))))).
    reflexivity.
  - apply (proj2 (keywords_override_defaults DataArguments
                    [("doc_stride"%string, PInt 64)]
                    (or_intror (or_intror (or_introl eq_refl))))).
    reflexivity.
Defined.

(** ** The dispatcher on every configuration *)

(** The mode that selects a routine, and the groups the routine is
    called on. *)
Definition mode_of (r : routine) : string :=
  match r with
  | Train => "model_train"
  | HpOptimizing => "hyperparameter_tune"
  | Inference => "inference"
  end.

Definition groups_of (r : routine) : list string :=
  match r with
  | Train => ["project"; "model"; "data"; "train"]
  | HpOptimizing => ["project"; "model"; "data"; "hp"]
  | Inference => ["model"; "data"]
  end%string.

(** The start-up lines (18-20) raise nothing: the banner's name can be
    read and the two tracking values are strings without a NUL. *)
Definition starts_up (cfg name : node) (entity project : string) : Prop :=
  select2 cfg "project" "name" = Ok name /\
  select2 cfg "wandb" "entity" = Ok (Scalar (SStr entity)) /\
  has_nul entity = false /\
  select2 cfg "wandb" "project" = Ok (Scalar (SStr project)) /\
  has_nul project = false.




Section DispatchFacts.

Variable train : node -> node -> node -> node -> result unit.
Variable hp_optimizing : node -> node -> node -> node -> result unit.
Variable inference : node -> node -> result unit.

(** The call behind an [Invoke] action. *)
Definition call (r : routine) (args : list node) : result unit :=
  match r, args with
  | Train, [p; m; d; t] => train p m d t
  | HpOptimizing, [p; m; d; h] => hp_optimizing p m d h
  | Inference, [m; d] => inference m d
  | _, _ => Ok tt
  end.

Ltac no_routine :=
  let H := fresh "H" in
  intros H; cbn in H;
  repeat (destruct H as [H|H]; [discriminate H|]);
  destruct H.

(** A routine is invoked only after a complete start-up, in its own
    mode, on the groups listed for it, as the last action; and the call
    then ends as the routine ends. *)
Theorem routine_runs_only_after_start_up (cfg : node) (r : routine)
  (args : list node) :
  In (Invoke r args) (fst (inner_main train hp_optimizing inference cfg)) ->
  exists name entity project,
    starts_up cfg name entity project /\
    select cfg "mode" = Ok (Scalar (SStr (mode_of r))) /\
    map (select cfg) (groups_of r) = map Ok args /\
    inner_main train hp_optimizing inference cfg
    = ([ PrintStart name; SetEnv "WANDB_ENTITY" entity;
         SetEnv "WANDB_PROJECT" project; Invoke r args ],
       call r args).
Proof.
  unfold starts_up, inner_main, and_then, environ_setitem, eval, act, done.
  destruct (select2 cfg "project" "name") as [name|e0] eqn:H0; [|no_routine].
  cbn [app].
  destruct (select2 cfg "wandb" "entity") as [[[| | | |entity]| | |]|e1] eqn:H1;
    try no_routine.
  destruct (has_nul entity) eqn:N1; [no_routine|]. cbn [app].
  destruct (select2 cfg "wandb" "project") as [[[| | | |project]| | |]|e2] eqn:H2;
    try no_routine.
  destruct (has_nul project) eqn:N2; [no_routine|]. cbn [app].
  destruct (select cfg "mode") as [mode|e3] eqn:H3; [|no_routine].
  destruct (eq_str mode "model_train") eqn:E1.
  { apply EntryPointFacts.eq_str_spec in E1. subst mode.
    destruct (select cfg "project") as [p|] eqn:Hp; [|no_routine].
    destruct (select cfg "model") as [m|] eqn:Hm; [|no_routine].
    destruct (select cfg "data") as [d|] eqn:Hd; [|no_routine].
    destruct (select cfg "train") as [t|] eqn:Ht; [|no_routine].
    cbn [app fst]. intros [H|[H|[H|[H|[]]]]]; try discriminate H.
    inversion H. subst r args.
    exists name, entity, project. cbn [mode_of groups_of map call].
    rewrite Hp, Hm, Hd, Ht. repeat split; first [assumption|reflexivity]. }
  destruct (eq_str mode "hyperparameter_tune") eqn:E2.
  { apply EntryPointFacts.eq_str_spec in E2. subst mode.
    destruct (select cfg "project") as [p|] eqn:Hp; [|no_routine].
    destruct (select cfg "model") as [m|] eqn:Hm; [|no_routine].
    destruct (select cfg "data") as [d|] eqn:Hd; [|no_routine].
    destruct (select cfg "hp") as [h|] eqn:Hh; [|no_routine].
    cbn [app fst]. intros [H|[H|[H|[H|[]]]]]; try discriminate H.
    inversion H. subst r args.
    exists name, entity, project. cbn [mode_of groups_of map call].
    rewrite Hp, Hm, Hd, Hh. repeat split; first [assumption|reflexivity]. }
  destruct (eq_str mode "retrieval_train") eqn:E3; [no_routine|].
  destruct (eq_str mode "inference") eqn:E4; [|no_routine].
  apply EntryPointFacts.eq_str_spec in E4. subst mode.
  destruct (select cfg "model") as [m|] eqn:Hm; [|no_routine].
  destruct (select cfg "data") as [d|] eqn:Hd; [|no_routine].
  cbn [app fst]. intros [H|[H|[H|[H|[]]]]]; try discriminate H.
  inversion H. subst r args.
  exists name, entity, project. cbn [mode_of groups_of map call].
  rewrite Hm, Hd. repeat split; first [assumption|reflexivity].
Qed.


End DispatchFacts.

Definition fails (_ _ _ _ : node) : result unit := Err ValueError.

Definition train_mode_cfg : node :=
  Group [ ("mode", str "model_train");
          ("project", Group [("name", str "mrc")]);
          ("wandb", Group [("entity", str "team"); ("project", str "mrc")]);
          ("model", Group []); ("data", Group []); ("train", Group []);
          ("hp", Group []) ]%string.


Lemma routine_runs_only_after_start_up_witness :
  inner_main fails returns returns2 train_mode_cfg
  = ([ PrintStart (str "mrc"); SetEnv "WANDB_ENTITY" "team";
       SetEnv "WANDB_PROJECT" "mrc";
       Invoke Train [Group [("name", str "mrc")]%string; Group []; Group [];
                     Group []] ],
     Err ValueError).
Proof.
  destruct (routine_runs_only_after_start_up fails returns returns2
              train_mode_cfg Train
              [Group [("name", str "mrc")]%string; Group []; Group []; Group []])
    as (name & entity & project & (Hn & He & _ & Hp & _) & _ & _ & Hrun).
  - cbn. tauto.
  - rewrite Hrun. inversion Hn. inversion He. inversion Hp. reflexivity.
Defined.


End ConfigFacts.

(* ================================================================== *)
(** * Feature labelling: what makes it raise                           *)
(* ================================================================== *)

Module LabelErrors.
Import Preprocess PreprocessSpec LabelSpec PreprocessExamples PyFacts
  PreprocessFacts LabelFacts.

Lemma while_up_raise (cond : Z -> result bool) (e : exn) (n : nat) :
  forall (fuel : nat) (i : Z),
    (n < fuel)%nat ->
    (forall k, i <= k < i + Z.of_nat n -> cond k = Ok true) ->
    cond (i + Z.of_nat n) = Err e ->
    while fuel cond Z.succ i = Err e.
Proof.
  induction n as [|n IH]; intros fuel i Hf Htrue Herr.
  - destruct fuel; [lia|]. cbn [while].
    replace (i + Z.of_nat 0) with i in * by lia. now rewrite Herr.
  - destruct fuel; [lia|]. cbn [while].
    rewrite Htrue by lia.
    replace (i + Z.of_nat (S n)) with (Z.succ i + Z.of_nat n) in * by lia.
    apply IH; [lia| |exact Herr].
    intros k Hk. apply Htrue. lia.
Qed.

Lemma index_from_absent (l : list Z) (x : Z) :
  forall i, ~ In x l -> index_from l x i = Err ValueError.
Proof.
  induction l as [|y l IH]; intros i Hn; [reflexivity|].
  cbn [index_from]. destruct (y =? x) eqn:E.
  - apply Z.eqb_eq in E. subst. exfalso. apply Hn. now left.
  - apply IH. intros H. apply Hn. now right.
Qed.

(** The encoder train sub-mode looks the classifier token up before
    anything else: on a feature without it, as a tokenizer without a
    classifier token produces, labelling raises [ValueError], even for an
    example without answers. *)
Theorem missing_classifier_token_raises (cls : Z) (por : bool)
  (ids : list Z) (sids : list (option Z)) (offsets : list offset)
  (ans : answers) :
  ~ In cls ids ->
  label_feature cls por ids sids offsets ans = Err ValueError.
Proof.
  intros Hn. unfold label_feature, index.
  now rewrite (index_from_absent ids cls 0 Hn).
Qed.

Lemma missing_classifier_token_raises_witness :
  label_feature 101 true ran_ids [] ran_offsets (mkAnswers [] [])
  = Err ValueError.
Proof.
  apply missing_classifier_token_raises.
  cbn. intuition discriminate.
Defined.

(** A feature that has no token of the context sequence, with a recorded
    answer: the search for the first context token runs off the end of
    the sequence ids and labelling raises [IndexError]. *)
Theorem feature_without_context_raises (cls : Z) (por : bool)
  (ids : list Z) (sids : list (option Z)) (offsets : list offset)
  (ans : answers) (sc ec : Z) :
  In cls ids ->
  answer_span ans = Some (sc, ec) ->
  first_context sids por = None ->
  label_feature cls por ids sids offsets ans = Err IndexError.
Proof.
  intros Hin Hspan Hnone.
  destruct (index_from_spec ids cls 0 Hin) as (c & Hc & _).
  unfold answer_span in Hspan.
  destruct (answer_start ans) as [|sc' scs] eqn:Ea; [discriminate|].
  destruct (text ans) as [|txt txts] eqn:Et; [discriminate|].
  unfold label_feature. fold (index ids cls) in Hc.
  rewrite Hc, Ea, Et, len_cons_eqb, !getitem_head. cbn [bind].
  replace (first_context_token sids (context_marker por) 0)
    with (@Err Z IndexError); [reflexivity|].
  symmetry. unfold first_context_token.
  pose proof (len_nonneg sids) as Hl.
  replace (len sids) with (0 + Z.of_nat (List.length sids)) in Hl
    by (unfold len; lia).
  apply (while_up_raise _ IndexError (List.length sids)).
  - unfold scan_fuel. lia.
  - intros k Hk. rewrite (getitem_nonneg sids k None) by (unfold len; lia).
    cbn [bind].
    pose proof (find_first_none _ None sids 0 Hnone k
                  ltac:(unfold len; lia)) as Hk'.
    rewrite Z.sub_0_r in Hk'. now rewrite Hk'.
  - rewrite getitem_outside; [reflexivity|]. right. unfold len. lia.
Qed.

Lemma feature_without_context_raises_witness :
  label_feature 101 true [101; 11; 102; 102; 0] [None; Some 0; None; None; None]
    [(0,0); (0,4); (0,0); (0,0); (0,0)] (mkAnswers ["fox"%string] [16])
  = Err IndexError.
Proof.
  apply (feature_without_context_raises 101 true _ _ _ _ 16 19).
  - cbn. tauto.
  - reflexivity.
  - reflexivity.
Defined.

End LabelErrors.
